(** * The InnerTube response parser (src/parser/parser.ts)

    A shallow embedding of the parser module of YouTube.js: the class-name
    sanitizer, the item / array / command parsers, the per-section memo, the
    response parser and the mutation passes, together with the properties of
    them that the specification states.  Some callers of the parser are
    embedded with it: the constructors of four node classes
    (src/parser/classes) and the block of the constructor of VideoInfo
    (src/parser/yttv/VideoInfo.ts) that assigns languages to formats.

    Conventions of the embedding.
    - A JavaScript value ([RawNode], the [any] of the source) is an
      inductive type; numbers are integers, strings are sequences of
      characters below 128 (InnerTube keys are ASCII identifiers).
    - The module-level variables [MEMO], [RUNTIME_NODES] and [DYNAMIC_NODES]
      and every [Memo] object ever created live in a [ParserState] that is
      threaded through a state-and-exception monad [M].  A [Memo] is referred
      to by its index in the store, so that two names for one [Memo] stay
      two names for one [Memo].
    - A parsed node ([YTNode]) is a value.  In the source a section of the
      result and the memo of the section share the node objects; the
      mutation passes assign to the nodes of the memo, and the statements
      about a pass read the nodes from the memo.
    - [ERROR_HANDLER] is the reporter: the events it has received are the
      [reported] component of the state (the default handler only logs).
    - The node classes, the stub generator and the platform functions the
      parser imports are the fields of an environment [Env]. *)

From Stdlib Require Import String Ascii List ZArith Lia Bool Arith.
From stdpp Require Import base option strings gmap list pretty.
Import ListNotations.
Open Scope string_scope.
Open Scope list_scope.

(** ** JavaScript strings *)

Module JSString.

Definition is_lower (c : ascii) : bool :=
  (97 <=? nat_of_ascii c)%nat && (nat_of_ascii c <=? 122)%nat.

Definition upper_char (c : ascii) : ascii :=
  if is_lower c then ascii_of_nat (nat_of_ascii c - 32) else c.

(** [s.toUpperCase()] *)
Fixpoint toUpperCase (s : string) : string :=
  match s with
  | EmptyString => EmptyString
  | String c r => String (upper_char c) (toUpperCase r)
  end.

(** [s.charAt(i)]: the empty string when [i] is out of range *)
Definition charAt (i : nat) (s : string) : string :=
  match String.get i s with
  | Some c => String c EmptyString
  | None => EmptyString
  end.

(** [s.slice(n)] for a non-negative [n] *)
Fixpoint slice (n : nat) (s : string) : string :=
  match n, s with
  | O, _ => s
  | S _, EmptyString => EmptyString
  | S k, String _ r => slice k r
  end.

(** White space and line terminators, as [trim] sees them. *)
Definition is_space (c : ascii) : bool :=
  let n := nat_of_ascii c in
  ((9 <=? n)%nat && (n <=? 13)%nat) || (n =? 32)%nat.

Fixpoint trimStart (s : string) : string :=
  match s with
  | EmptyString => EmptyString
  | String c r => if is_space c then trimStart r else s
  end.

Fixpoint trimEnd (s : string) : string :=
  match s with
  | EmptyString => EmptyString
  | String c r =>
      match trimEnd r with
      | EmptyString => if is_space c then EmptyString else String c EmptyString
      | t => String c t
      end
  end.

(** [s.trim()] *)
Definition trim (s : string) : string := trimEnd (trimStart s).

(** The first alternative of [/a1|a2|.../] that matches at the start of
    [s]; the alternatives are non-empty literals. *)
Fixpoint first_match (alts : list string) (s : string) : option string :=
  match alts with
  | [] => None
  | p :: ps => if String.prefix p s then Some p else first_match ps s
  end.

(** [s.replace(/a1|a2|.../g, by_)]: the scan of the regular expression
    engine.  At each position the alternatives are tried in order; a
    match is replaced and the scan resumes behind it ([skip] counts the
    characters of the match still to be passed over), otherwise the
    character is copied. *)
Fixpoint replace_scan (alts : list string) (by_ : string) (skip : nat)
         (s : string) : string :=
  match s with
  | EmptyString => EmptyString
  | String c r =>
      match skip with
      | S k => replace_scan alts by_ k r
      | O =>
          match first_match alts s with
          | Some p => by_ +:+ replace_scan alts by_ (String.length p - 1) r
          | None => String c (replace_scan alts by_ 0 r)
          end
      end
  end.

Definition replace_g (alts : list string) (by_ : string) (s : string) : string :=
  replace_scan alts by_ 0 s.

(** The leftmost occurrence of one of [subs] in [s]: its position and
    the substring found. *)
Fixpoint find_occurrence (subs : list string) (s : string) : option (nat * string) :=
  match first_match subs s with
  | Some p => Some (O, p)
  | None =>
      match s with
      | EmptyString => None
      | String _ r =>
          match find_occurrence subs r with
          | Some (i, p) => Some (S i, p)
          | None => None
          end
      end
  end.

Definition contains (sub s : string) : bool :=
  match find_occurrence [sub] s with Some _ => true | None => false end.

(** [/suffix$/.test(s)] *)
Fixpoint ends_with (suffix s : string) : bool :=
  if String.eqb s suffix then true
  else match s with
       | EmptyString => false
       | String _ r => ends_with suffix r
       end.

(** Whether the character [c] occurs in [p]. *)
Fixpoint occurs (c : ascii) (p : string) : bool :=
  match p with
  | EmptyString => false
  | String a r => Ascii.eqb a c || occurs c r
  end.

Definition starts_lower (s : string) : bool :=
  match s with
  | EmptyString => false
  | String c _ => is_lower c
  end.

End JSString.

(** ** The sanitizer *)

(** [sanitizeClassName], parser.ts lines 195-199. *)
Definition sanitizeClassName (input : string) : string :=
  JSString.trim
    (JSString.replace_g ["Radio"] "Mix"
       (JSString.replace_g ["Renderer"; "Model"] ""
          (JSString.toUpperCase (JSString.charAt 0 input) +:+ JSString.slice 1 input))).

(** The algorithm as the specification words it: capitalize the first
    letter, remove every occurrence of the substrings, replace every
    occurrence of [Radio], trim.  Occurrences are taken leftmost first and
    do not overlap; [fuel] bounds their number. *)
Module Documented.

Definition capitalize (k : string) : string :=
  match k with
  | EmptyString => EmptyString
  | String c r => String (JSString.upper_char c) r
  end.

Fixpoint substitute_all (fuel : nat) (subs : list string) (by_ : string)
         (s : string) : string :=
  match fuel with
  | O => s
  | S f =>
      match JSString.find_occurrence subs s with
      | None => s
      | Some (i, p) =>
          String.substring 0 i s +:+ by_
            +:+ substitute_all f subs by_ (JSString.slice (i + String.length p) s)
      end
  end.

Definition remove_all (subs : list string) (s : string) : string :=
  substitute_all (String.length s) subs "" s.

Definition replace_all (sub by_ : string) (s : string) : string :=
  substitute_all (String.length s) [sub] by_ s.

Definition sanitize (k : string) : string :=
  JSString.trim
    (replace_all "Radio" "Mix" (remove_all ["Renderer"; "Model"] (capitalize k))).

End Documented.


(** ** JavaScript values *)

(** A raw node is any value of a deserialized JSON document.  The
    properties of an object are listed in the order [Object.keys]
    enumerates them. *)
#[warnings="-register-all"]
Inductive RawNode : Type :=
| JUndefined
| JNull
| JBool (b : bool)
| JNum (n : Z)
| JStr (s : string)
| JArr (items : list RawNode)
| JObj (props : list (string * RawNode)).

Record Exception := { name : string; message : string }.

Definition TypeError (msg : string) : Exception :=
  {| name := "TypeError"; message := msg |}.
Definition Error (msg : string) : Exception :=
  {| name := "Error"; message := msg |}.
Definition ParsingError (msg : string) : Exception :=
  {| name := "ParsingError"; message := msg |}.

(** How an evaluation ends: with a value or with a thrown exception. *)
Inductive Completion (A : Type) : Type :=
| Normal (a : A)
| Throw (e : Exception).
Arguments Normal {A} a.
Arguments Throw {A} e.

Module JS.

(** [!!v] *)
Definition truthy (v : RawNode) : bool :=
  match v with
  | JUndefined | JNull => false
  | JBool b => b
  | JNum n => negb (n =? 0)%Z
  | JStr s => negb (String.eqb s "")
  | JArr _ | JObj _ => true
  end.

Definition nullish (v : RawNode) : bool :=
  match v with
  | JUndefined | JNull => true
  | _ => false
  end.

Definition isArray (v : RawNode) : bool :=
  match v with
  | JArr _ => true
  | _ => false
  end.

Definition chars (s : string) : list RawNode :=
  (fun c => JStr (String c EmptyString)) <$> String.list_ascii_of_string s.

(** The own enumerable properties of a value that is not nullish. *)
Definition own_entries (v : RawNode) : list (string * RawNode) :=
  match v with
  | JObj props => props
  | JArr items => imap (fun (i : nat) x => (pretty i, x)) items
  | JStr s => imap (fun (i : nat) x => (pretty i, x)) (chars s)
  | _ => []
  end.

Fixpoint assoc (k : string) (l : list (string * RawNode)) : option RawNode :=
  match l with
  | [] => None
  | (k', v) :: r => if String.eqb k' k then Some v else assoc k r
  end.

(** [v[k]] on a value that is not nullish *)
Definition prop (v : RawNode) (k : string) : RawNode :=
  match assoc k (own_entries v) with
  | Some x => x
  | None => JUndefined
  end.

Definition cannot_read (v : RawNode) (k : string) : string :=
  "Cannot read properties of "
    +:+ (match v with JNull => "null" | _ => "undefined" end)
    +:+ " (reading '" +:+ k +:+ "')".

(** [v.k]: reading a property of [undefined] or [null] throws *)
Definition get (v : RawNode) (k : string) : Completion RawNode :=
  if nullish v then Throw (TypeError (cannot_read v k))
  else Normal (prop v k).

(** [v?.k] *)
Definition opt_get (v : RawNode) (k : string) : RawNode :=
  if nullish v then JUndefined else prop v k.

(** [Object.keys(v)] *)
Definition Object_keys (v : RawNode) : Completion (list string) :=
  if nullish v
  then Throw (TypeError "Cannot convert undefined or null to object")
  else Normal ((own_entries v).*1).

(** [a === b]; two objects of a parsed document are never the same
    object. *)
Definition strict_equals (a b : RawNode) : bool :=
  match a, b with
  | JUndefined, JUndefined => true
  | JNull, JNull => true
  | JBool x, JBool y => Bool.eqb x y
  | JNum x, JNum y => (x =? y)%Z
  | JStr x, JStr y => String.eqb x y
  | _, _ => false
  end.

Definition is_undefined (v : RawNode) : bool :=
  match v with
  | JUndefined => true
  | _ => false
  end.

Definition join (sep : string) (l : list string) : string :=
  match l with
  | [] => ""
  | x :: r => fold_left (fun acc y => acc +:+ sep +:+ y) r x
  end.

(** The string a template literal makes of a value. *)
Fixpoint to_string (v : RawNode) : string :=
  match v with
  | JUndefined => "undefined"
  | JNull => "null"
  | JBool true => "true"
  | JBool false => "false"
  | JNum n => pretty n
  | JStr s => s
  | JArr items =>
      join "," ((fun x => if nullish x then "" else to_string x) <$> items)
  | JObj _ => "[object Object]"
  end.

(** [o.k = v] on the property list of an object *)
Fixpoint set_prop (k : string) (v : RawNode) (props : list (string * RawNode))
  : list (string * RawNode) :=
  match props with
  | [] => [(k, v)]
  | (k', v') :: r =>
      if String.eqb k' k then (k', v) :: r else (k', v') :: set_prop k v r
  end.

(** [delete v.k] *)
Definition delete_prop (v : RawNode) (k : string) : Completion RawNode :=
  match v with
  | JUndefined | JNull =>
      Throw (TypeError "Cannot convert undefined or null to object")
  | JObj props => Normal (JObj (filter (fun kv => kv.1 <> k) props))
  | _ => Normal v
  end.

End JS.

(** ** Nodes, classes and parser events *)

(** A typed node: its [type] tag and its fields. *)
Record YTNode := { node_type : string; fields : list (string * RawNode) }.

(** [node.k] *)
Definition field (node : YTNode) (k : string) : RawNode :=
  default JUndefined (JS.assoc k (fields node)).

(** [node.k = v] *)
Definition set_field (k : string) (v : RawNode) (node : YTNode) : YTNode :=
  {| node_type := node_type node; fields := JS.set_prop k v (fields node) |}.

(** A node class: [type] is its static type tag. *)
Record YTNodeConstructor := { class_name : string; type : string }.

Definition node_class (n : string) : YTNodeConstructor :=
  {| class_name := n; type := n |}.

Definition KeyInfo := list (string * string).

Inductive Expected :=
| ExpectedType (t : string)
| ExpectedTypes (ts : list string).

(** [ParserError], parser.ts lines 47-72; the constructor is the
    [error_type]. *)
Inductive ParserError :=
| ev_typecheck (classname : string) (classdata : RawNode) (expected : Expected)
| ev_parse (classname : string) (classdata : RawNode) (error : Exception)
| ev_mutation_data_missing (classname : string)
| ev_mutation_data_invalid (classname : string) (total failed : nat) (titles : list string)
| ev_class_not_found (classname : string) (key_info : KeyInfo)
| ev_class_changed (classname : string) (key_info changed_keys : KeyInfo).

Definition is_parse (e : ParserError) : bool :=
  match e with ev_parse _ _ _ => true | _ => false end.

Definition is_typecheck (e : ParserError) : bool :=
  match e with ev_typecheck _ _ _ => true | _ => false end.

(** [IGNORED_LIST], parser.ts lines 76-90. *)
Definition IGNORED_LIST : gset string :=
  list_to_set
    [ "AdSlot"; "DisplayAd"; "SearchPyv"; "MealbarPromo"; "PrimetimePromo";
      "PromotedSparklesWeb"; "CompactPromotedVideo"; "BrandVideoShelf";
      "BrandVideoSingleton"; "StatementBanner"; "GuideSigninPromo";
      "AdsEngagementPanelContent"; "MiniGameCardView" ].

(** ** Parser state *)

Record ParserState := {
  MEMO : option nat;
  heap : list (gmap string (list YTNode));
  RUNTIME_NODES : gmap string YTNodeConstructor;
  DYNAMIC_NODES : gmap string YTNodeConstructor;
  reported : list ParserError
}.

Definition M (A : Type) : Type := ParserState -> Completion A * ParserState.

Definition ret {A} (a : A) : M A := fun s => (Normal a, s).

Definition throw {A} (e : Exception) : M A := fun s => (Throw e, s).

Definition bind {A B} (m : M A) (k : A -> M B) : M B :=
  fun s =>
    match m s with
    | (Normal a, s') => k a s'
    | (Throw e, s') => (Throw e, s')
    end.

(** [try { body } catch (err) { handler }] *)
Definition try_catch {A} (body : M A) (handler : Exception -> M A) : M A :=
  fun s =>
    match body s with
    | (Normal a, s') => (Normal a, s')
    | (Throw e, s') => handler e s'
    end.

Definition lift {A} (c : Completion A) : M A := fun s => (c, s).

(** Sequencing of evaluations that touch no parser state. *)
Definition and_then {A B} (c : Completion A) (k : A -> Completion B) : Completion B :=
  match c with
  | Normal a => k a
  | Throw e => Throw e
  end.

Declare Scope parser_scope.
Delimit Scope parser_scope with parser.
Notation "'let*' x ':=' m 'in' k" := (bind m (fun x => k))
  (at level 10, x pattern, m at level 200, k at level 200) : parser_scope.
Notation "'let?' x ':=' c 'in' k" := (and_then c (fun x => k))
  (at level 10, x pattern, c at level 200, k at level 200) : parser_scope.
Open Scope parser_scope.

(** The classes, the stub generator and the platform functions that
    parser.ts imports. *)
Record Env := {
  (** [new C(data)] *)
  new_ : YTNodeConstructor -> RawNode -> M YTNode;
  (** [generateRuntimeClass(classname, data, ERROR_HANDLER)] of generator.ts *)
  generateRuntimeClass : string -> RawNode -> M YTNodeConstructor;
  (** [comment_view.applyMutations(comment, toolbar_state, toolbar_surface,
      comment_surface)]: the node as the method leaves it *)
  CommentView_applyMutations :
    YTNode -> RawNode -> RawNode -> RawNode -> RawNode -> M YTNode;
  (** [new Format(format, this_response_nsig_cache)], with the cache *)
  new_Format :
    RawNode -> gmap string string -> M (YTNode * gmap string string);
  (** [parseInt(v)] *)
  parseInt : RawNode -> RawNode;
  (** [new Date(Date.now() + n * 1000)] *)
  Date_after : RawNode -> RawNode
}.

Definition set_MEMO (m : option nat) (s : ParserState) : ParserState :=
  {| MEMO := m; heap := heap s; RUNTIME_NODES := RUNTIME_NODES s;
     DYNAMIC_NODES := DYNAMIC_NODES s; reported := reported s |}.

Definition set_heap (h : list (gmap string (list YTNode))) (s : ParserState)
  : ParserState :=
  {| MEMO := MEMO s; heap := h; RUNTIME_NODES := RUNTIME_NODES s;
     DYNAMIC_NODES := DYNAMIC_NODES s; reported := reported s |}.

Definition report (e : ParserError) (s : ParserState) : ParserState :=
  {| MEMO := MEMO s; heap := heap s; RUNTIME_NODES := RUNTIME_NODES s;
     DYNAMIC_NODES := DYNAMIC_NODES s; reported := reported s ++ [e] |}.

(** [ERROR_HANDLER(error)] *)
Definition ERROR_HANDLER (error : ParserError) : M unit :=
  fun s => (Normal tt, report error s).

(** ** The memo *)

Module Memo.

(** [memo.get(classname)] then [memo.set] or [list.push] *)
Definition add (classname : string) (result : YTNode)
           (memo : gmap string (list YTNode)) : gmap string (list YTNode) :=
  match memo !! classname with
  | None => <[classname := [result]]> memo
  | Some l => <[classname := l ++ [result]]> memo
  end.

(** Modelled from the spec: [Memo.getType] of helpers.ts, which is not
    among the sources.  The memo groups the parsed nodes by class name
    (section 4.B); [get_type] of a class returns the nodes recorded under
    its type tag, in insertion order, and none when there is no such
    group. *)
Definition getType (c : YTNodeConstructor) (memo : gmap string (list YTNode))
  : list YTNode :=
  default [] (memo !! type c).

End Memo.

(** The [Memo] object behind a reference. *)
Definition deref (memo : nat) (s : ParserState) : gmap string (list YTNode) :=
  default ∅ (heap s !! memo).

Definition _clearMemo : M unit :=
  fun s => (Normal tt, set_MEMO None s).

Definition _createMemo : M unit :=
  fun s => (Normal tt, set_MEMO (Some (length (heap s))) (set_heap (heap s ++ [∅]) s)).

Definition _addToMemo (classname : string) (result : YTNode) : M unit :=
  fun s =>
    match MEMO s with
    | None => (Normal tt, s)
    | Some memo =>
        (Normal tt, set_heap (alter (Memo.add classname result) memo (heap s)) s)
    end.

Definition _getMemo : M nat :=
  fun s =>
    match MEMO s with
    | None => (Throw (Error "Parser#getMemo() called before Parser#createMemo()"), s)
    | Some memo => (Normal memo, s)
    end.

(** ** The registry *)

Definition shouldIgnore (classname : string) : bool :=
  bool_decide (classname ∈ IGNORED_LIST).

Definition getParserByName (classname : string) : M YTNodeConstructor :=
  fun s =>
    match RUNTIME_NODES s !! classname with
    | Some ParserConstructor => (Normal ParserConstructor, s)
    | None => (Throw (Error ("Module not found: " +:+ classname)), s)
    end.

Definition hasParser (classname : string) : M bool :=
  fun s => (Normal (bool_decide (is_Some (RUNTIME_NODES s !! classname))), s).

Definition addRuntimeParser (classname : string) (ParserConstructor : YTNodeConstructor)
  : M unit :=
  fun s =>
    (Normal tt,
     {| MEMO := MEMO s; heap := heap s;
        RUNTIME_NODES := <[classname := ParserConstructor]> (RUNTIME_NODES s);
        DYNAMIC_NODES := <[classname := ParserConstructor]> (DYNAMIC_NODES s);
        reported := reported s |}).

Definition getDynamicParsers : M (gmap string YTNodeConstructor) :=
  fun s => (Normal (DYNAMIC_NODES s), s).

(** ** Classes that parser.ts names *)

Definition Continuation := node_class "Continuation".
Definition ContinuationCommand := node_class "ContinuationCommand".
Definition GridContinuation := node_class "GridContinuation".
Definition ItemSectionContinuation := node_class "ItemSectionContinuation".
Definition LiveChatContinuation := node_class "LiveChatContinuation".
Definition MusicPlaylistShelfContinuation := node_class "MusicPlaylistShelfContinuation".
Definition MusicShelfContinuation := node_class "MusicShelfContinuation".
Definition NavigateAction := node_class "NavigateAction".
Definition PlaylistPanelContinuation := node_class "PlaylistPanelContinuation".
Definition ReloadContinuationItemsCommand := node_class "ReloadContinuationItemsCommand".
Definition SectionListContinuation := node_class "SectionListContinuation".
Definition ShowMiniplayerCommand := node_class "ShowMiniplayerCommand".
Definition AudioOnlyPlayability := node_class "AudioOnlyPlayability".
Definition CardCollection := node_class "CardCollection".
Definition Endscreen := node_class "Endscreen".
Definition PlayerAnnotationsExpanded := node_class "PlayerAnnotationsExpanded".
Definition PlayerCaptionsTracklist := node_class "PlayerCaptionsTracklist".
Definition PlayerLiveStoryboardSpec := node_class "PlayerLiveStoryboardSpec".
Definition PlayerStoryboardSpec := node_class "PlayerStoryboardSpec".
Definition Alert := node_class "Alert".
Definition AlertWithButton := node_class "AlertWithButton".
Definition EngagementPanelSectionList := node_class "EngagementPanelSectionList".
Definition MusicMultiSelectMenuItem := node_class "MusicMultiSelectMenuItem".
Definition MacroMarkersListEntity := node_class "MacroMarkersListEntity".
Definition VideoDetails := node_class "VideoDetails".
Definition NavigationEndpoint := node_class "NavigationEndpoint".
Definition CommentView := node_class "CommentView".
Definition MusicThumbnail := node_class "MusicThumbnail".
Definition OpenPopupAction := node_class "OpenPopupAction".
Definition AppendContinuationItemsAction := node_class "AppendContinuationItemsAction".

(** The optional [validTypes] argument: omitted, one class, or an array
    of classes. *)
Inductive ValidTypes :=
| AnyType
| OneType (t : YTNodeConstructor)
| TypeList (types : list YTNodeConstructor).

(** [SuperParsedResult] of helpers.ts: one node (or [null]) or an
    observed array. *)
Inductive SuperParsedResult :=
| Super_item (n : option YTNode)
| Super_array (l : list YTNode).

(** What [parse] returns: [null], an observed array or a
    [SuperParsedResult]. *)
Inductive Parsed :=
| Parsed_null
| Parsed_array (l : list YTNode)
| Parsed_super (r : SuperParsedResult).

(** The receiver of [v.map], [v.find], [v.filter]: an array, or a
    [TypeError]. *)
Definition as_array (v : RawNode) (method : string) : Completion (list RawNode) :=
  match v with
  | JArr items => Normal items
  | JUndefined | JNull => Throw (TypeError (JS.cannot_read v method))
  | _ => Throw (TypeError (method +:+ " is not a function"))
  end.

(** [items.find(callback)]; [undefined] when no element is accepted *)
Fixpoint array_find (callback : RawNode -> Completion bool) (items : list RawNode)
  : Completion RawNode :=
  match items with
  | [] => Normal JUndefined
  | x :: r =>
      match callback x with
      | Throw e => Throw e
      | Normal true => Normal x
      | Normal false => array_find callback r
      end
  end.

(** [items.filter(callback)] *)
Fixpoint array_filter (callback : RawNode -> Completion bool) (items : list RawNode)
  : Completion (list RawNode) :=
  match items with
  | [] => Normal []
  | x :: r =>
      match callback x with
      | Throw e => Throw e
      | Normal b =>
          match array_filter callback r with
          | Throw e => Throw e
          | Normal l => Normal (if b then x :: l else l)
          end
      end
  end.

Definition command_regexp (key : string) : bool := JSString.ends_with "Command" key.
Definition endpoint_regexp (key : string) : bool := JSString.ends_with "Endpoint" key.
Definition action_regexp (key : string) : bool := JSString.ends_with "Action" key.

(** ** Responses *)

(** [IRawResponse]: the sections of a response document.  A section that
    the document lacks is [JUndefined]; a nested response is a document
    again. *)
Module Raw.

#[warnings="-register-all"]
Inductive IRawResponse : Type := Response {
  contents : RawNode;
  onResponseReceivedActions : RawNode;
  onResponseReceivedEndpoints : RawNode;
  onResponseReceivedCommands : RawNode;
  continuationContents : RawNode;
  actions : RawNode;
  liveChatItemContextMenuSupportedRenderers : RawNode;
  header : RawNode;
  sidebar : RawNode;
  items : RawNode;
  frameworkUpdates : RawNode;
  continuation : RawNode;
  continuationEndpoint : RawNode;
  metadata : RawNode;
  microformat : RawNode;
  overlay : RawNode;
  alerts : RawNode;
  refinements : RawNode;
  estimatedResults : RawNode;
  playerOverlays : RawNode;
  background : RawNode;
  playbackTracking : RawNode;
  playabilityStatus : RawNode;
  streamingData : RawNode;
  playerConfig : RawNode;
  currentVideoEndpoint : RawNode;
  endpoint : RawNode;
  captions : RawNode;
  videoDetails : RawNode;
  annotations : RawNode;
  storyboards : RawNode;
  endscreen : RawNode;
  cards : RawNode;
  engagementPanels : RawNode;
  bgChallenge : RawNode;
  challenge : RawNode;
  playerResponse : option IRawResponse;
  watchNextResponse : option IRawResponse;
  cpnInfo : RawNode;
  entries : RawNode;
  targetId : RawNode
}.

(** The document with no section at all. *)
Definition empty : IRawResponse :=
Response JUndefined JUndefined JUndefined JUndefined JUndefined JUndefined JUndefined
    JUndefined JUndefined JUndefined JUndefined JUndefined JUndefined JUndefined
    JUndefined JUndefined JUndefined JUndefined JUndefined JUndefined JUndefined
    JUndefined JUndefined JUndefined JUndefined JUndefined JUndefined JUndefined
    JUndefined JUndefined JUndefined JUndefined JUndefined JUndefined JUndefined
    JUndefined None None JUndefined JUndefined JUndefined.

(** The document [d] with the section [contents] set to [v]. *)
Definition with_contents (v : RawNode) (d : IRawResponse) : IRawResponse :=
  match d with
  | Response x0 x1 x2 x3 x4 x5 x6 x7 x8 x9 x10 x11 x12 x13 x14 x15 x16 x17 x18 x19 x20
    x21 x22 x23 x24 x25 x26 x27 x28 x29 x30 x31 x32 x33 x34 x35 x36 x37 x38 x39 x40 =>
      Response v x1 x2 x3 x4 x5 x6 x7 x8 x9 x10 x11 x12 x13 x14 x15 x16 x17 x18 x19 x20
        x21 x22 x23 x24 x25 x26 x27 x28 x29 x30 x31 x32 x33 x34 x35 x36 x37 x38 x39 x40
  end.

(** The document [d] with the section [onResponseReceivedActions] set to [v]. *)
Definition with_onResponseReceivedActions (v : RawNode) (d : IRawResponse) : IRawResponse :=
  match d with
  | Response x0 x1 x2 x3 x4 x5 x6 x7 x8 x9 x10 x11 x12 x13 x14 x15 x16 x17 x18 x19 x20
    x21 x22 x23 x24 x25 x26 x27 x28 x29 x30 x31 x32 x33 x34 x35 x36 x37 x38 x39 x40 =>
      Response x0 v x2 x3 x4 x5 x6 x7 x8 x9 x10 x11 x12 x13 x14 x15 x16 x17 x18 x19 x20
        x21 x22 x23 x24 x25 x26 x27 x28 x29 x30 x31 x32 x33 x34 x35 x36 x37 x38 x39 x40
  end.

(** The document [d] with the section [onResponseReceivedEndpoints] set to [v]. *)
Definition with_onResponseReceivedEndpoints (v : RawNode) (d : IRawResponse) : IRawResponse :=
  match d with
  | Response x0 x1 x2 x3 x4 x5 x6 x7 x8 x9 x10 x11 x12 x13 x14 x15 x16 x17 x18 x19 x20
    x21 x22 x23 x24 x25 x26 x27 x28 x29 x30 x31 x32 x33 x34 x35 x36 x37 x38 x39 x40 =>
      Response x0 x1 v x3 x4 x5 x6 x7 x8 x9 x10 x11 x12 x13 x14 x15 x16 x17 x18 x19 x20
        x21 x22 x23 x24 x25 x26 x27 x28 x29 x30 x31 x32 x33 x34 x35 x36 x37 x38 x39 x40
  end.

(** The document [d] with the section [continuationContents] set to [v]. *)
Definition with_continuationContents (v : RawNode) (d : IRawResponse) : IRawResponse :=
  match d with
  | Response x0 x1 x2 x3 x4 x5 x6 x7 x8 x9 x10 x11 x12 x13 x14 x15 x16 x17 x18 x19 x20
    x21 x22 x23 x24 x25 x26 x27 x28 x29 x30 x31 x32 x33 x34 x35 x36 x37 x38 x39 x40 =>
      Response x0 x1 x2 x3 v x5 x6 x7 x8 x9 x10 x11 x12 x13 x14 x15 x16 x17 x18 x19 x20
        x21 x22 x23 x24 x25 x26 x27 x28 x29 x30 x31 x32 x33 x34 x35 x36 x37 x38 x39 x40
  end.

(** The document [d] with the section [header] set to [v]. *)
Definition with_header (v : RawNode) (d : IRawResponse) : IRawResponse :=
  match d with
  | Response x0 x1 x2 x3 x4 x5 x6 x7 x8 x9 x10 x11 x12 x13 x14 x15 x16 x17 x18 x19 x20
    x21 x22 x23 x24 x25 x26 x27 x28 x29 x30 x31 x32 x33 x34 x35 x36 x37 x38 x39 x40 =>
      Response x0 x1 x2 x3 x4 x5 x6 v x8 x9 x10 x11 x12 x13 x14 x15 x16 x17 x18 x19 x20
        x21 x22 x23 x24 x25 x26 x27 x28 x29 x30 x31 x32 x33 x34 x35 x36 x37 x38 x39 x40
  end.

(** The document [d] with the section [frameworkUpdates] set to [v]. *)
Definition with_frameworkUpdates (v : RawNode) (d : IRawResponse) : IRawResponse :=
  match d with
  | Response x0 x1 x2 x3 x4 x5 x6 x7 x8 x9 x10 x11 x12 x13 x14 x15 x16 x17 x18 x19 x20
    x21 x22 x23 x24 x25 x26 x27 x28 x29 x30 x31 x32 x33 x34 x35 x36 x37 x38 x39 x40 =>
      Response x0 x1 x2 x3 x4 x5 x6 x7 x8 x9 v x11 x12 x13 x14 x15 x16 x17 x18 x19 x20
        x21 x22 x23 x24 x25 x26 x27 x28 x29 x30 x31 x32 x33 x34 x35 x36 x37 x38 x39 x40
  end.

(** The document [d] with the section [captions] set to [v]. *)
Definition with_captions (v : RawNode) (d : IRawResponse) : IRawResponse :=
  match d with
  | Response x0 x1 x2 x3 x4 x5 x6 x7 x8 x9 x10 x11 x12 x13 x14 x15 x16 x17 x18 x19 x20
    x21 x22 x23 x24 x25 x26 x27 x28 x29 x30 x31 x32 x33 x34 x35 x36 x37 x38 x39 x40 =>
      Response x0 x1 x2 x3 x4 x5 x6 x7 x8 x9 x10 x11 x12 x13 x14 x15 x16 x17 x18 x19 x20
        x21 x22 x23 x24 x25 x26 v x28 x29 x30 x31 x32 x33 x34 x35 x36 x37 x38 x39 x40
  end.

(** The document [d] with the section [playerResponse] set to [v]. *)
Definition with_playerResponse (v : IRawResponse) (d : IRawResponse) : IRawResponse :=
  match d with
  | Response x0 x1 x2 x3 x4 x5 x6 x7 x8 x9 x10 x11 x12 x13 x14 x15 x16 x17 x18 x19 x20
    x21 x22 x23 x24 x25 x26 x27 x28 x29 x30 x31 x32 x33 x34 x35 x36 x37 x38 x39 x40 =>
      Response x0 x1 x2 x3 x4 x5 x6 x7 x8 x9 x10 x11 x12 x13 x14 x15 x16 x17 x18 x19 x20
        x21 x22 x23 x24 x25 x26 x27 x28 x29 x30 x31 x32 x33 x34 x35 (Some v) x37 x38 x39
        x40
  end.

End Raw.

(** [IParsedResponse]: a field that was not assigned is [None]; a memo is
    named by its reference. *)
Module Out.

Record PlayabilityStatus := {
  status : RawNode;
  reason : RawNode;
  embeddable : RawNode;
  audio_only_playability : option YTNode;
  error_screen : option YTNode
}.

Record StreamingData := {
  expires : RawNode;
  formats : list YTNode;
  adaptive_formats : list YTNode;
  dash_manifest_url : RawNode;
  hls_manifest_url : RawNode;
  server_abr_streaming_url : RawNode
}.

#[warnings="-register-all"]
Inductive IParsedResponse : Type := Parsed_response {
  contents : option Parsed;
  contents_memo : option nat;
  on_response_received_actions : option (list YTNode);
  on_response_received_actions_memo : option nat;
  on_response_received_endpoints : option (list YTNode);
  on_response_received_endpoints_memo : option nat;
  on_response_received_commands : option (list YTNode);
  on_response_received_commands_memo : option nat;
  continuation_contents : option YTNode;
  continuation_contents_memo : option nat;
  actions : option Parsed;
  actions_memo : option nat;
  live_chat_item_context_menu_supported_renderers : option YTNode;
  live_chat_item_context_menu_supported_renderers_memo : option nat;
  header : option Parsed;
  header_memo : option nat;
  sidebar : option YTNode;
  sidebar_memo : option nat;
  items : option Parsed;
  items_memo : option nat;
  continuation : option YTNode;
  continuation_endpoint : option YTNode;
  metadata : option Parsed;
  microformat : option YTNode;
  overlay : option YTNode;
  alerts : option (list YTNode);
  refinements : option RawNode;
  estimated_results : option RawNode;
  player_overlays : option Parsed;
  background : option YTNode;
  playback_tracking : option RawNode;
  playability_status : option PlayabilityStatus;
  streaming_data : option StreamingData;
  player_config : option RawNode;
  current_video_endpoint : option YTNode;
  endpoint : option YTNode;
  captions : option YTNode;
  video_details : option YTNode;
  annotations : option (list YTNode);
  storyboards : option YTNode;
  endscreen : option YTNode;
  cards : option YTNode;
  engagement_panels : option (list YTNode);
  bg_challenge : option RawNode;
  challenge : option RawNode;
  player_response : option IParsedResponse;
  watch_next_response : option IParsedResponse;
  cpn_info : option RawNode;
  entries : option (list YTNode);
  target_id : option RawNode
}.

(** Every memo that a parsed response holds. *)
Definition memos (p : IParsedResponse) : list nat :=
  omap id
    [ contents_memo p; on_response_received_actions_memo p;
      on_response_received_endpoints_memo p; on_response_received_commands_memo p;
      continuation_contents_memo p; actions_memo p;
      live_chat_item_context_menu_supported_renderers_memo p; header_memo p;
      sidebar_memo p; items_memo p ].

(** The memos of a parsed response and of the responses nested in it. *)
Fixpoint all_memos (p : IParsedResponse) : list nat :=
  memos p
    ++ match player_response p with
       | Some child => all_memos child
       | None => []
       end
    ++ match watch_next_response p with
       | Some child => all_memos child
       | None => []
       end.

End Out.

(** The local variables of [parseResponse] for the sections with a memo
    (lines 233-320) and for the sections without one (lines 328-497). *)
Module MemoSections.

Record t := {
  contents : Parsed;
  contents_memo : nat;
  on_response_received_actions : option (list YTNode);
  on_response_received_actions_memo : nat;
  on_response_received_endpoints : option (list YTNode);
  on_response_received_endpoints_memo : nat;
  on_response_received_commands : option (list YTNode);
  on_response_received_commands_memo : nat;
  continuation_contents : option YTNode;
  continuation_contents_memo : nat;
  actions : option Parsed;
  actions_memo : nat;
  live_chat_item_context_menu_supported_renderers : option YTNode;
  live_chat_item_context_menu_supported_renderers_memo : nat;
  header : option Parsed;
  header_memo : nat;
  sidebar : option YTNode;
  sidebar_memo : nat;
  items : Parsed;
  items_memo : option nat
}.

End MemoSections.

Module PlainSections.

Record t := {
  continuation : option YTNode;
  continuation_endpoint : option YTNode;
  metadata : Parsed;
  microformat : option YTNode;
  overlay : option YTNode;
  alerts : list YTNode;
  estimated_results : RawNode;
  player_overlays : Parsed;
  background : option YTNode;
  playback_tracking : option RawNode;
  playability_status : option Out.PlayabilityStatus;
  streaming_data : option Out.StreamingData;
  current_video_endpoint : option YTNode;
  endpoint : option YTNode;
  captions : option YTNode;
  video_details : option YTNode;
  annotations : list YTNode;
  storyboards : option YTNode;
  endscreen : option YTNode;
  cards : option YTNode;
  engagement_panels : list YTNode;
  bg_challenge : option RawNode
}.

End PlainSections.

Section Parser.

Variable env : Env.

(** *** parseItem, parser.ts lines 537-593 *)

Definition construct (TargetClass : YTNodeConstructor) (classname : string)
           (classdata : RawNode) : M (option YTNode) :=
  let* result := new_ env TargetClass classdata in
  let* _ := _addToMemo classname result in
  ret (Some result).

Definition parseItem (data : RawNode) (validTypes : ValidTypes) : M (option YTNode) :=
  if negb (JS.truthy data) then ret None
  else
    let* keys := lift (JS.Object_keys data) in
    match keys with
    | [] => ret None
    | key0 :: _ =>
        let classname := sanitizeClassName key0 in
        if negb (shouldIgnore classname) then
          try_catch
            (let* has_target_class := hasParser classname in
             let* TargetClass :=
               if has_target_class : bool then getParserByName classname
               else
                 let* classdata := lift (JS.get data key0) in
                 generateRuntimeClass env classname classdata in
             match validTypes with
             | TypeList types =>
                 if negb (existsb (fun t => String.eqb (type t) (type TargetClass)) types)
                 then
                   let* classdata := lift (JS.get data key0) in
                   let* _ := ERROR_HANDLER
                               (ev_typecheck classname classdata
                                  (ExpectedTypes (type <$> types))) in
                   ret None
                 else
                   let* classdata := lift (JS.get data key0) in
                   construct TargetClass classname classdata
             | OneType t =>
                 if negb (String.eqb (type TargetClass) (type t))
                 then
                   let* classdata := lift (JS.get data key0) in
                   let* _ := ERROR_HANDLER
                               (ev_typecheck classname classdata (ExpectedType (type t))) in
                   ret None
                 else
                   let* classdata := lift (JS.get data key0) in
                   construct TargetClass classname classdata
             | AnyType =>
                 let* classdata := lift (JS.get data key0) in
                 construct TargetClass classname classdata
             end)
            (fun err =>
               let* classdata := lift (JS.get data key0) in
               let* _ := ERROR_HANDLER (ev_parse classname classdata err) in
               ret None)
        else ret None
    end.

(** *** parseArray, parser.ts lines 603-619 *)

(** The loop [for (const item of data)], with [results] as it stands. *)
Fixpoint parseItems (data : list RawNode) (validTypes : ValidTypes)
         (results : list YTNode) : M (list YTNode) :=
  match data with
  | [] => ret results
  | item :: rest =>
      let* result := parseItem item validTypes in
      parseItems rest validTypes
        (match result with
         | Some node => results ++ [node]
         | None => results
         end)
  end.

Definition parseArray (data : RawNode) (validTypes : ValidTypes) : M (list YTNode) :=
  match data with
  | JArr items => parseItems items validTypes []
  | _ =>
      if negb (JS.truthy data) then ret []
      else throw (ParsingError "Expected array but got a single item")
  end.

(** *** parse, parser.ts lines 630-651 *)

Definition parse (data : RawNode) (requireArray : bool) (validTypes : ValidTypes)
  : M Parsed :=
  if negb (JS.truthy data) then ret Parsed_null
  else
    match data with
    | JArr items =>
        let* results := parseItems items validTypes [] in
        ret (if requireArray then Parsed_array results
             else Parsed_super (Super_array results))
    | _ =>
        if requireArray
        then throw (ParsingError "Expected array but got a single item")
        else
          let* result := parseItem data validTypes in
          ret (Parsed_super (Super_item result))
    end.

(** *** parseCommand, parser.ts lines 662-691 *)

(** The loop [for (const key of keys)]; [None] is the [undefined] that
    falling off the end of the function returns. *)
Fixpoint parseCommand_keys (data : RawNode) (keys : list string) : M (option YTNode) :=
  match keys with
  | [] => ret None
  | key :: rest =>
      let* value := lift (JS.get data key) in
      if command_regexp key || endpoint_regexp key || action_regexp key then
        let classname := sanitizeClassName key in
        if shouldIgnore classname then ret None
        else
          let* returned :=
            try_catch
              (let* has_target_class := hasParser classname in
               if has_target_class : bool then
                 let* TargetClass := getParserByName classname in
                 let* node := new_ env TargetClass value in
                 ret (Some node)
               else ret None)
              (fun error =>
                 let* _ := ERROR_HANDLER (ev_parse classname value error) in
                 ret None) in
          match returned with
          | Some node => ret (Some node)
          | None => parseCommand_keys data rest
          end
      else parseCommand_keys data rest
  end.

Definition parseCommand (data : RawNode) : M (option YTNode) :=
  let* keys := try_catch (lift (JS.Object_keys data)) (fun _ => ret []) in
  parseCommand_keys data keys.

(** *** parseCommands, parser.ts lines 698-712 *)

Fixpoint parseCommands_loop (commands : list RawNode) (results : list YTNode)
  : M (list YTNode) :=
  match commands with
  | [] => ret results
  | item :: rest =>
      let* result := parseCommand item in
      parseCommands_loop rest
        (match result with
         | Some node => results ++ [node]
         | None => results
         end)
  end.

Definition parseCommands (commands : RawNode) : M (list YTNode) :=
  match commands with
  | JArr items => parseCommands_loop items []
  | _ =>
      if negb (JS.truthy commands) then ret []
      else throw (ParsingError "Expected array but got a single item")
  end.

(** *** parseC, parseLC, parseRR, parser.ts lines 714-754 *)

Definition parseC (data : RawNode) : M (option YTNode) :=
  let* timed := lift (JS.get data "timedContinuationData") in
  if JS.truthy timed then
    let* node := new_ env Continuation
                   (JObj [("continuation", timed); ("type", JStr "timed")]) in
    ret (Some node)
  else ret None.

(** [if (data.key) return new C(data.key)], the first that applies *)
Fixpoint first_of (data : RawNode) (cases : list (string * YTNodeConstructor))
  : M (option YTNode) :=
  match cases with
  | [] => ret None
  | (key, C) :: rest =>
      let* v := lift (JS.get data key) in
      if JS.truthy v then
        let* node := new_ env C v in
        ret (Some node)
      else first_of data rest
  end.

Definition parseLC (data : RawNode) : M (option YTNode) :=
  first_of data
    [ ("itemSectionContinuation", ItemSectionContinuation);
      ("sectionListContinuation", SectionListContinuation);
      ("liveChatContinuation", LiveChatContinuation);
      ("musicPlaylistShelfContinuation", MusicPlaylistShelfContinuation);
      ("musicShelfContinuation", MusicShelfContinuation);
      ("gridContinuation", GridContinuation);
      ("playlistPanelContinuation", PlaylistPanelContinuation);
      ("continuationCommand", ContinuationCommand) ].

(** [actions.map(callback).filter((item) => item)] *)
Fixpoint parseRR_map (actions : list RawNode) : M (list YTNode) :=
  match actions with
  | [] => ret []
  | action :: rest =>
      let* item :=
        first_of action
          [ ("navigateAction", NavigateAction);
            ("showMiniplayerCommand", ShowMiniplayerCommand);
            ("reloadContinuationItemsCommand", ReloadContinuationItemsCommand);
            ("appendContinuationItemsAction", AppendContinuationItemsAction);
            ("openPopupAction", OpenPopupAction) ] in
      let* items := parseRR_map rest in
      ret (match item with
           | Some node => node :: items
           | None => items
           end)
  end.

Definition parseRR (actions : RawNode) : M (list YTNode) :=
  let* items := lift (as_array actions "map") in
  parseRR_map items.

(** *** parseActions, parser.ts lines 756-764.  The [delete] changes the
    document in place; nothing reads [clickTrackingParams] of an action
    afterwards. *)

Fixpoint strip_clickTrackingParams (actions : list RawNode)
  : Completion (list RawNode) :=
  match actions with
  | [] => Normal []
  | action :: rest =>
      match JS.delete_prop action "clickTrackingParams" with
      | Throw e => Throw e
      | Normal action' =>
          match strip_clickTrackingParams rest with
          | Throw e => Throw e
          | Normal rest' => Normal (action' :: rest')
          end
      end
  end.

Definition parseActions (data : RawNode) : M Parsed :=
  match data with
  | JArr items =>
      let* stripped := lift (strip_clickTrackingParams items) in
      parse (JArr stripped) false AnyType
  | _ =>
      let* result := parseItem data AnyType in
      ret (Parsed_super (Super_item result))
  end.

(** *** parseFormats, parser.ts lines 766-768 *)

Fixpoint parseFormats_map (formats : list RawNode) (cache : gmap string string)
  : M (list YTNode * gmap string string) :=
  match formats with
  | [] => ret ([], cache)
  | format :: rest =>
      let* (node, cache1) := new_Format env format cache in
      let* (nodes, cache2) := parseFormats_map rest cache1 in
      ret (node :: nodes, cache2)
  end.

Definition parseFormats (formats : RawNode) (this_response_nsig_cache : gmap string string)
  : M (list YTNode * gmap string string) :=
  if JS.nullish formats then ret ([], this_response_nsig_cache)
  else
    let* items := lift (as_array formats "map") in
    parseFormats_map items this_response_nsig_cache.

(** *** applyMutations, parser.ts lines 770-822 *)

(** [memo.getType(C)] on the [Memo] behind [memo] *)
Definition Memo_getType (memo : nat) (C : YTNodeConstructor) : M (list YTNode) :=
  fun s => (Normal (Memo.getType C (deref memo s)), s).

(** [memo.get(classname)] followed by [memo.set] or [list.push] *)
Definition Memo_add (memo : nat) (classname : string) (node : YTNode) : M unit :=
  fun s =>
    (Normal tt, set_heap (alter (Memo.add classname node) memo (heap s)) s).

(** An assignment to a field of the [i]-th node that [memo] holds under
    [classname]: the node is changed where it is, in the memo. *)
Definition update_node (memo : nat) (classname : string) (i : nat)
           (f : YTNode -> YTNode) : M unit :=
  fun s =>
    (Normal tt, set_heap (alter (alter (alter f i) classname) memo (heap s)) s).

(** [mutation.payload?.musicFormBooleanChoice?.id === key] *)
Definition has_choice_id (key : RawNode) (mutation : RawNode) : Completion bool :=
  let? payload := JS.get mutation "payload" in
  Normal (JS.strict_equals
            (JS.opt_get (JS.opt_get payload "musicFormBooleanChoice") "id") key).

(** [mutation?.payload.musicFormBooleanChoice] *)
Definition choice_of (mutation : RawNode) : Completion RawNode :=
  if JS.nullish mutation then Normal JUndefined
  else
    let? payload := JS.get mutation "payload" in
    JS.get payload "musicFormBooleanChoice".

(** [choice?.selected !== undefined && choice?.opaqueToken] *)
Definition valid_choice (choice : RawNode) : bool :=
  negb (JS.is_undefined (JS.opt_get choice "selected"))
  && JS.truthy (JS.opt_get choice "opaqueToken").

(** The loop [for (const menu_item of music_multi_select_menu_items)];
    [i] is the position of [menu_item]. *)
Fixpoint multi_select_loop (memo : nat) (mutations : RawNode) (i : nat)
         (items : list YTNode) (missing_or_invalid_mutations : list string)
  : M (list string) :=
  match items with
  | [] => ret missing_or_invalid_mutations
  | menu_item :: rest =>
      let* candidates := lift (as_array mutations "find") in
      let* mutation :=
        lift (array_find (has_choice_id (field menu_item "form_item_entity_key"))
                candidates) in
      let* choice := lift (choice_of mutation) in
      if valid_choice choice then
        let* selected := lift (JS.get choice "selected") in
        let* _ := update_node memo (type MusicMultiSelectMenuItem) i
                    (set_field "selected" selected) in
        multi_select_loop memo mutations (S i) rest missing_or_invalid_mutations
      else
        multi_select_loop memo mutations (S i) rest
          (missing_or_invalid_mutations
             ++ ["'" +:+ JS.to_string (field menu_item "title") +:+ "'"])
  end.

(** Lines 771-803: apply mutations to MusicMultiSelectMenuItems. *)
Definition applyMutations_MusicMultiSelectMenuItem (memo : nat) (mutations : RawNode)
  : M unit :=
  let* music_multi_select_menu_items := Memo_getType memo MusicMultiSelectMenuItem in
  if (0 <? length music_multi_select_menu_items)%nat && negb (JS.truthy mutations)
  then ERROR_HANDLER (ev_mutation_data_missing "MusicMultiSelectMenuItem")
  else
    let* missing_or_invalid_mutations :=
      multi_select_loop memo mutations 0 music_multi_select_menu_items [] in
    if (0 <? length missing_or_invalid_mutations)%nat then
      ERROR_HANDLER
        (ev_mutation_data_invalid "MusicMultiSelectMenuItem"
           (length music_multi_select_menu_items)
           (length missing_or_invalid_mutations)
           missing_or_invalid_mutations)
    else ret tt.

(** [mutation.payload?.macroMarkersListEntity &&
     mutation.payload.macroMarkersListEntity.markersList?.markerType
       === 'MARKER_TYPE_HEATMAP'] *)
Definition is_heat_map (mutation : RawNode) : Completion bool :=
  let? payload := JS.get mutation "payload" in
  if JS.truthy (JS.opt_get payload "macroMarkersListEntity") then
    let? entity := JS.get payload "macroMarkersListEntity" in
    let? markersList := JS.get entity "markersList" in
    Normal (JS.strict_equals (JS.opt_get markersList "markerType")
              (JStr "MARKER_TYPE_HEATMAP"))
  else Normal false.

(** The loop [for (const mutation of heat_map_mutations)]. *)
Fixpoint heat_map_loop (memo : nat) (heat_map_mutations : list RawNode) : M unit :=
  match heat_map_mutations with
  | [] => ret tt
  | mutation :: rest =>
      let* payload := lift (JS.get mutation "payload") in
      let* entity := lift (JS.get payload "macroMarkersListEntity") in
      let* macro_markers_entity := new_ env MacroMarkersListEntity entity in
      let* _ := Memo_add memo "MacroMarkersListEntity" macro_markers_entity in
      heat_map_loop memo rest
  end.

(** Lines 805-821: apply mutations to MacroMarkersListEntity. *)
Definition applyMutations_MacroMarkersListEntity (memo : nat) (mutations : RawNode)
  : M unit :=
  if JS.truthy mutations then
    let* candidates := lift (as_array mutations "filter") in
    let* heat_map_mutations := lift (array_filter is_heat_map candidates) in
    heat_map_loop memo heat_map_mutations
  else ret tt.

Definition applyMutations (memo : nat) (mutations : RawNode) : M unit :=
  let* _ := applyMutations_MusicMultiSelectMenuItem memo mutations in
  applyMutations_MacroMarkersListEntity memo mutations.

(** *** applyCommentsMutations, parser.ts lines 824-854 *)

(** [mutation.payload?.[entity]?.key === comment_view.keys.[k]] *)
Definition has_payload_key (entity : string) (comment_view : YTNode) (k : string)
           (mutation : RawNode) : Completion bool :=
  let? payload := JS.get mutation "payload" in
  let? wanted := JS.get (field comment_view "keys") k in
  Normal (JS.strict_equals (JS.opt_get (JS.opt_get payload entity) "key") wanted).

(** [mutation.entityKey === comment_view.keys.toolbar_surface] *)
Definition has_entity_key (comment_view : YTNode) (mutation : RawNode)
  : Completion bool :=
  let? entityKey := JS.get mutation "entityKey" in
  let? wanted := JS.get (field comment_view "keys") "toolbar_surface" in
  Normal (JS.strict_equals entityKey wanted).

(** [mutations.find(callback)?.payload?.[entity]] *)
Definition find_payload (mutations : RawNode) (callback : RawNode -> Completion bool)
           (entity : string) : Completion RawNode :=
  let? candidates := as_array mutations "find" in
  let? mutation := array_find callback candidates in
  Normal (JS.opt_get (JS.opt_get mutation "payload") entity).

(** The loop [for (const comment_view of comment_view_items)]. *)
Fixpoint comment_view_loop (memo : nat) (mutations : RawNode) (i : nat)
         (items : list YTNode) : M unit :=
  match items with
  | [] => ret tt
  | comment_view :: rest =>
      let* comment_mutation :=
        lift (find_payload mutations
                (has_payload_key "commentEntityPayload" comment_view "comment")
                "commentEntityPayload") in
      let* toolbar_state_mutation :=
        lift (find_payload mutations
                (has_payload_key "engagementToolbarStateEntityPayload" comment_view
                   "toolbar_state")
                "engagementToolbarStateEntityPayload") in
      let* engagement_toolbar :=
        lift (find_payload mutations (has_entity_key comment_view)
                "engagementToolbarSurfaceEntityPayload") in
      let* comment_surface_mutation :=
        lift (find_payload mutations
                (has_payload_key "commentSurfaceEntityPayload" comment_view
                   "comment_surface")
                "commentSurfaceEntityPayload") in
      let* patched :=
        CommentView_applyMutations env comment_view comment_mutation
          toolbar_state_mutation engagement_toolbar comment_surface_mutation in
      let* _ := update_node memo (type CommentView) i (fun _ => patched) in
      comment_view_loop memo mutations (S i) rest
  end.

Definition applyCommentsMutations (memo : nat) (mutations : RawNode) : M unit :=
  let* comment_view_items := Memo_getType memo CommentView in
  if (0 <? length comment_view_items)%nat then
    let* _ :=
      if negb (JS.truthy mutations)
      then ERROR_HANDLER (ev_mutation_data_missing "CommentView")
      else ret tt in
    comment_view_loop memo mutations 0 comment_view_items
  else ret tt.

(** *** parseResponse, parser.ts lines 230-527 *)

(** [if (v) parsed_data.k = v] for the result of [parse] *)
Definition present (p : Parsed) : option Parsed :=
  match p with
  | Parsed_null => None
  | _ => Some p
  end.

(** [if (l.length) parsed_data.k = l] *)
Definition non_empty (l : list YTNode) : option (list YTNode) :=
  match l with
  | [] => None
  | _ => Some l
  end.

(** [if (v) parsed_data.k = v] for a raw value *)
Definition if_truthy (v : RawNode) : option RawNode :=
  if JS.truthy v then Some v else None.

(** [v ? m : null] *)
Definition when_truthy {A} (v : RawNode) (m : M A) : M (option A) :=
  if JS.truthy v then (let* a := m in ret (Some a)) else ret None.

(** [a || b] *)
Definition or_else (a b : RawNode) : RawNode := if JS.truthy a then a else b.

(** [data.frameworkUpdates?.entityBatchUpdate?.mutations] *)
Definition mutations_of (data : Raw.IRawResponse) : RawNode :=
  JS.opt_get (JS.opt_get (Raw.frameworkUpdates data) "entityBatchUpdate") "mutations".

(** Lines 378-381. *)
Definition project_playback_tracking (playbackTracking : RawNode)
  : Completion (option RawNode) :=
  if JS.truthy playbackTracking then
    let? watchtime := JS.get playbackTracking "videostatsWatchtimeUrl" in
    let? watchtime_url := JS.get watchtime "baseUrl" in
    let? playback := JS.get playbackTracking "videostatsPlaybackUrl" in
    let? playback_url := JS.get playback "baseUrl" in
    Normal (Some (JObj [ ("videostats_watchtime_url", watchtime_url);
                         ("videostats_playback_url", playback_url) ]))
  else Normal None.

(** Lines 416-437. *)
Definition project_player_config (playerConfig : RawNode) : option RawNode :=
  if JS.truthy playerConfig then
    let audioConfig := JS.prop playerConfig "audioConfig" in
    let readahead :=
      JS.opt_get (JS.opt_get playerConfig "mediaCommonConfig") "dynamicReadaheadConfig" in
    Some (JObj
      [ ("audio_config", JObj
           [ ("loudness_db", JS.opt_get audioConfig "loudnessDb");
             ("perceptual_loudness_db", JS.opt_get audioConfig "perceptualLoudnessDb");
             ("enable_per_format_loudness",
               JS.opt_get audioConfig "enablePerFormatLoudness") ]);
        ("stream_selection_config", JObj
           [ ("max_bitrate",
               or_else (JS.opt_get (JS.prop playerConfig "streamSelectionConfig")
                          "maxBitrate") (JStr "0")) ]);
        ("media_common_config", JObj
           [ ("dynamic_readahead_config", JObj
                [ ("max_read_ahead_media_time_ms",
                    or_else (JS.opt_get readahead "maxReadAheadMediaTimeMs") (JNum 0));
                  ("min_read_ahead_media_time_ms",
                    or_else (JS.opt_get readahead "minReadAheadMediaTimeMs") (JNum 0));
                  ("read_ahead_growth_rate_ms",
                    or_else (JS.opt_get readahead "readAheadGrowthRateMs") (JNum 0)) ]);
             ("media_ustreamer_request_config", JObj
                [ ("video_playback_ustreamer_config",
                    JS.opt_get
                      (JS.opt_get (JS.opt_get playerConfig "mediaCommonConfig")
                         "mediaUstreamerRequestConfig")
                      "videoPlaybackUstreamerConfig") ]) ]) ])
  else None.

(** Lines 484-497. *)
Definition project_bg_challenge (bgChallenge : RawNode) : Completion (option RawNode) :=
  if JS.truthy bgChallenge then
    let? interpreterUrl := JS.get bgChallenge "interpreterUrl" in
    let? resource_url :=
      JS.get interpreterUrl "privateDoNotAccessOrElseTrustedResourceUrlWrappedValue" in
    let? safe_script :=
      JS.get interpreterUrl "privateDoNotAccessOrElseSafeScriptWrappedValue" in
    Normal (Some (JObj
      [ ("interpreter_url", JObj
           [ ("private_do_not_access_or_else_trusted_resource_url_wrapped_value",
               resource_url);
             ("private_do_not_access_or_else_safe_script_wrapped_value",
               safe_script) ]);
        ("interpreter_hash", JS.prop bgChallenge "interpreterHash");
        ("program", JS.prop bgChallenge "program");
        ("global_name", JS.prop bgChallenge "globalName");
        ("client_experiments_state_blob",
          JS.prop bgChallenge "clientExperimentsStateBlob") ]))
  else Normal None.

(** Lines 511-516. *)
Definition project_cpn_info (cpnInfo : RawNode) : option RawNode :=
  if JS.truthy cpnInfo then
    Some (JObj [ ("cpn", JS.prop cpnInfo "cpn");
                 ("cpn_source", JS.prop cpnInfo "cpnSource") ])
  else None.

(** [entries.map((entry) => new NavigationEndpoint(entry))] *)
Fixpoint entries_map (entries : list RawNode) : M (list YTNode) :=
  match entries with
  | [] => ret []
  | entry :: rest =>
      let* node := new_ env NavigationEndpoint entry in
      let* nodes := entries_map rest in
      ret (node :: nodes)
  end.

(** Lines 387-393. *)
Definition parse_playability_status (playabilityStatus : RawNode)
  : M (option Out.PlayabilityStatus) :=
  when_truthy playabilityStatus
    (let* audio_only_playability :=
       parseItem (JS.prop playabilityStatus "audioOnlyPlayability")
         (OneType AudioOnlyPlayability) in
     let* error_screen := parseItem (JS.prop playabilityStatus "errorScreen") AnyType in
     ret {| Out.status := JS.prop playabilityStatus "status";
            Out.reason := or_else (JS.prop playabilityStatus "reason") (JStr "");
            Out.embeddable := JBool (JS.truthy (JS.prop playabilityStatus "playableInEmbed"));
            Out.audio_only_playability := audio_only_playability;
            Out.error_screen := error_screen |}).

(** Lines 399-414. *)
Definition parse_streaming_data (streamingData : RawNode)
  : M (option Out.StreamingData) :=
  when_truthy streamingData
    (let this_response_nsig_cache : gmap string string := ∅ in
     let expires := Date_after env (parseInt env (JS.prop streamingData "expiresInSeconds")) in
     let* (formats, cache1) :=
       parseFormats (JS.prop streamingData "formats") this_response_nsig_cache in
     let* (adaptive_formats, _) :=
       parseFormats (JS.prop streamingData "adaptiveFormats") cache1 in
     ret {| Out.expires := expires;
            Out.formats := formats;
            Out.adaptive_formats := adaptive_formats;
            Out.dash_manifest_url := JS.prop streamingData "dashManifestUrl";
            Out.hls_manifest_url := JS.prop streamingData "hlsManifestUrl";
            Out.server_abr_streaming_url :=
              JS.prop streamingData "serverAbrStreamingUrl" |}).

(** A section with a memo of its own: [_createMemo(); const v = ...;
    const v_memo = _getMemo(); ...; _clearMemo();] *)
Definition memo_section {A} (m : M A) : M (A * nat) :=
  let* _ := _createMemo in
  let* v := m in
  let* v_memo := _getMemo in
  let* _ := _clearMemo in
  ret (v, v_memo).

Definition with_memo {A} (v : option A) (memo : nat) : option nat :=
  match v with
  | Some _ => Some memo
  | None => None
  end.

(** Lines 314-320: the memo of [items] is read only when there are
    items. *)
Definition items_section (data : Raw.IRawResponse) : M (Parsed * option nat) :=
  let* _ := _createMemo in
  let* items := parse (Raw.items data) false AnyType in
  let* items_memo :=
    match present items with
    | Some _ => let* memo := _getMemo in ret (Some memo)
    | None => ret None
    end in
  let* _ := _clearMemo in
  ret (items, items_memo).

(** Lines 233-320: the sections that are parsed with a memo of their
    own. *)
Definition parse_memo_sections (data : Raw.IRawResponse) : M MemoSections.t :=
  let* (contents, contents_memo) :=
    memo_section (parse (Raw.contents data) false AnyType) in
  let* (on_response_received_actions, on_response_received_actions_memo) :=
    memo_section
      (when_truthy (Raw.onResponseReceivedActions data)
         (parseRR (Raw.onResponseReceivedActions data))) in
  let* (on_response_received_endpoints, on_response_received_endpoints_memo) :=
    memo_section
      (when_truthy (Raw.onResponseReceivedEndpoints data)
         (parseRR (Raw.onResponseReceivedEndpoints data))) in
  let* (on_response_received_commands, on_response_received_commands_memo) :=
    memo_section
      (when_truthy (Raw.onResponseReceivedCommands data)
         (parseRR (Raw.onResponseReceivedCommands data))) in
  let* (continuation_contents, continuation_contents_memo) :=
    memo_section
      (let* r := when_truthy (Raw.continuationContents data)
                   (parseLC (Raw.continuationContents data)) in
       ret (mjoin r)) in
  let* (actions, actions_memo) :=
    memo_section
      (when_truthy (Raw.actions data) (parseActions (Raw.actions data))) in
  let* (live_chat_item_context_menu_supported_renderers,
        live_chat_item_context_menu_supported_renderers_memo) :=
    memo_section
      (let* r := when_truthy (Raw.liveChatItemContextMenuSupportedRenderers data)
                   (parseItem (Raw.liveChatItemContextMenuSupportedRenderers data)
                      AnyType) in
       ret (mjoin r)) in
  let* (header, header_memo) :=
    memo_section
      (when_truthy (Raw.header data) (parse (Raw.header data) false AnyType)) in
  let* (sidebar, sidebar_memo) :=
    memo_section
      (let* r := when_truthy (Raw.sidebar data) (parseItem (Raw.sidebar data) AnyType) in
       ret (mjoin r)) in
  let* (items, items_memo) := items_section data in
  ret {|
    MemoSections.contents := contents;
    MemoSections.contents_memo := contents_memo;
    MemoSections.on_response_received_actions := on_response_received_actions;
    MemoSections.on_response_received_actions_memo := on_response_received_actions_memo;
    MemoSections.on_response_received_endpoints := on_response_received_endpoints;
    MemoSections.on_response_received_endpoints_memo :=
      on_response_received_endpoints_memo;
    MemoSections.on_response_received_commands := on_response_received_commands;
    MemoSections.on_response_received_commands_memo :=
      on_response_received_commands_memo;
    MemoSections.continuation_contents := continuation_contents;
    MemoSections.continuation_contents_memo := continuation_contents_memo;
    MemoSections.actions := actions;
    MemoSections.actions_memo := actions_memo;
    MemoSections.live_chat_item_context_menu_supported_renderers :=
      live_chat_item_context_menu_supported_renderers;
    MemoSections.live_chat_item_context_menu_supported_renderers_memo :=
      live_chat_item_context_menu_supported_renderers_memo;
    MemoSections.header := header;
    MemoSections.header_memo := header_memo;
    MemoSections.sidebar := sidebar;
    MemoSections.sidebar_memo := sidebar_memo;
    MemoSections.items := items;
    MemoSections.items_memo := items_memo
  |}.

(** Lines 322-326: the mutation passes. *)
Definition apply_mutation_passes (data : Raw.IRawResponse) (own : MemoSections.t)
  : M unit :=
  let* _ := applyMutations (MemoSections.contents_memo own) (mutations_of data) in
  applyCommentsMutations (MemoSections.on_response_received_endpoints_memo own)
    (mutations_of data).

(** Lines 328-497: the sections that are parsed with no memo. *)
Definition parse_plain_sections (data : Raw.IRawResponse) : M PlainSections.t :=
  let* continuation :=
    when_truthy (Raw.continuation data) (parseC (Raw.continuation data)) in
  let* continuation_endpoint :=
    when_truthy (Raw.continuationEndpoint data)
      (parseLC (Raw.continuationEndpoint data)) in
  let* metadata := parse (Raw.metadata data) false AnyType in
  let* microformat := parseItem (Raw.microformat data) AnyType in
  let* overlay := parseItem (Raw.overlay data) AnyType in
  let* alerts := parseArray (Raw.alerts data) (TypeList [Alert; AlertWithButton]) in
  let estimated_results :=
    if JS.truthy (Raw.estimatedResults data)
    then parseInt env (Raw.estimatedResults data) else JNull in
  let* player_overlays := parse (Raw.playerOverlays data) false AnyType in
  let* background := parseItem (Raw.background data) (OneType MusicThumbnail) in
  let* playback_tracking :=
    lift (project_playback_tracking (Raw.playbackTracking data)) in
  let* playability_status := parse_playability_status (Raw.playabilityStatus data) in
  let* streaming_data := parse_streaming_data (Raw.streamingData data) in
  let* current_video_endpoint :=
    when_truthy (Raw.currentVideoEndpoint data)
      (new_ env NavigationEndpoint (Raw.currentVideoEndpoint data)) in
  let* endpoint :=
    when_truthy (Raw.endpoint data) (new_ env NavigationEndpoint (Raw.endpoint data)) in
  let* captions := parseItem (Raw.captions data) (OneType PlayerCaptionsTracklist) in
  let* video_details :=
    when_truthy (Raw.videoDetails data)
      (new_ env VideoDetails (Raw.videoDetails data)) in
  let* annotations :=
    parseArray (Raw.annotations data) (OneType PlayerAnnotationsExpanded) in
  let* storyboards :=
    parseItem (Raw.storyboards data)
      (TypeList [PlayerStoryboardSpec; PlayerLiveStoryboardSpec]) in
  let* endscreen := parseItem (Raw.endscreen data) (OneType Endscreen) in
  let* cards := parseItem (Raw.cards data) (OneType CardCollection) in
  let* engagement_panels :=
    parseArray (Raw.engagementPanels data) (OneType EngagementPanelSectionList) in
  let* bg_challenge := lift (project_bg_challenge (Raw.bgChallenge data)) in
  ret {|
    PlainSections.continuation := mjoin continuation;
    PlainSections.continuation_endpoint := mjoin continuation_endpoint;
    PlainSections.metadata := metadata;
    PlainSections.microformat := microformat;
    PlainSections.overlay := overlay;
    PlainSections.alerts := alerts;
    PlainSections.estimated_results := estimated_results;
    PlainSections.player_overlays := player_overlays;
    PlainSections.background := background;
    PlainSections.playback_tracking := playback_tracking;
    PlainSections.playability_status := playability_status;
    PlainSections.streaming_data := streaming_data;
    PlainSections.current_video_endpoint := current_video_endpoint;
    PlainSections.endpoint := endpoint;
    PlainSections.captions := captions;
    PlainSections.video_details := video_details;
    PlainSections.annotations := annotations;
    PlainSections.storyboards := storyboards;
    PlainSections.endscreen := endscreen;
    PlainSections.cards := cards;
    PlainSections.engagement_panels := engagement_panels;
    PlainSections.bg_challenge := bg_challenge
  |}.

(** Lines 518-520. *)
Definition parse_entries (data : Raw.IRawResponse) : M (option (list YTNode)) :=
  when_truthy (Raw.entries data)
    (let* l := lift (as_array (Raw.entries data) "map") in entries_map l).

(** [parsed_data] as [parseResponse] returns it: every [if (v)
    parsed_data.k = v] of the function. *)
Definition parsed_data (data : Raw.IRawResponse) (own : MemoSections.t)
           (plain : PlainSections.t)
           (player_response watch_next_response : option Out.IParsedResponse)
           (entries : option (list YTNode)) : Out.IParsedResponse :=
  {|
    Out.contents := present (MemoSections.contents own);
    Out.contents_memo :=
      with_memo (present (MemoSections.contents own)) (MemoSections.contents_memo own);
    Out.on_response_received_actions := MemoSections.on_response_received_actions own;
    Out.on_response_received_actions_memo :=
      with_memo (MemoSections.on_response_received_actions own)
        (MemoSections.on_response_received_actions_memo own);
    Out.on_response_received_endpoints := MemoSections.on_response_received_endpoints own;
    Out.on_response_received_endpoints_memo :=
      with_memo (MemoSections.on_response_received_endpoints own)
        (MemoSections.on_response_received_endpoints_memo own);
    Out.on_response_received_commands := MemoSections.on_response_received_commands own;
    Out.on_response_received_commands_memo :=
      with_memo (MemoSections.on_response_received_commands own)
        (MemoSections.on_response_received_commands_memo own);
    Out.continuation_contents := MemoSections.continuation_contents own;
    Out.continuation_contents_memo :=
      with_memo (MemoSections.continuation_contents own)
        (MemoSections.continuation_contents_memo own);
    Out.actions := mjoin (present <$> MemoSections.actions own);
    Out.actions_memo :=
      with_memo (mjoin (present <$> MemoSections.actions own))
        (MemoSections.actions_memo own);
    Out.live_chat_item_context_menu_supported_renderers :=
      MemoSections.live_chat_item_context_menu_supported_renderers own;
    Out.live_chat_item_context_menu_supported_renderers_memo :=
      with_memo (MemoSections.live_chat_item_context_menu_supported_renderers own)
        (MemoSections.live_chat_item_context_menu_supported_renderers_memo own);
    Out.header := mjoin (present <$> MemoSections.header own);
    Out.header_memo :=
      with_memo (mjoin (present <$> MemoSections.header own))
        (MemoSections.header_memo own);
    Out.sidebar := MemoSections.sidebar own;
    Out.sidebar_memo :=
      with_memo (MemoSections.sidebar own) (MemoSections.sidebar_memo own);
    Out.items := present (MemoSections.items own);
    Out.items_memo := MemoSections.items_memo own;
    Out.continuation := PlainSections.continuation plain;
    Out.continuation_endpoint := PlainSections.continuation_endpoint plain;
    Out.metadata := present (PlainSections.metadata plain);
    Out.microformat := PlainSections.microformat plain;
    Out.overlay := PlainSections.overlay plain;
    Out.alerts := non_empty (PlainSections.alerts plain);
    Out.refinements := if_truthy (Raw.refinements data);
    Out.estimated_results := if_truthy (PlainSections.estimated_results plain);
    Out.player_overlays := present (PlainSections.player_overlays plain);
    Out.background := PlainSections.background plain;
    Out.playback_tracking := PlainSections.playback_tracking plain;
    Out.playability_status := PlainSections.playability_status plain;
    Out.streaming_data := PlainSections.streaming_data plain;
    Out.player_config := project_player_config (Raw.playerConfig data);
    Out.current_video_endpoint := PlainSections.current_video_endpoint plain;
    Out.endpoint := PlainSections.endpoint plain;
    Out.captions := PlainSections.captions plain;
    Out.video_details := PlainSections.video_details plain;
    Out.annotations := non_empty (PlainSections.annotations plain);
    Out.storyboards := PlainSections.storyboards plain;
    Out.endscreen := PlainSections.endscreen plain;
    Out.cards := PlainSections.cards plain;
    Out.engagement_panels := non_empty (PlainSections.engagement_panels plain);
    Out.bg_challenge := PlainSections.bg_challenge plain;
    Out.challenge := if_truthy (Raw.challenge data);
    Out.player_response := player_response;
    Out.watch_next_response := watch_next_response;
    Out.cpn_info := project_cpn_info (Raw.cpnInfo data);
    Out.entries := entries;
    Out.target_id := if_truthy (Raw.targetId data)
  |}.

(** The function runs its sections in the order of the source: the
    sections with a memo, the mutation passes, the sections without a memo,
    the nested responses (lines 503-509), the entries. *)
Fixpoint parseResponse (data : Raw.IRawResponse) {struct data} : M Out.IParsedResponse :=
  let* own := parse_memo_sections data in
  let* _ := apply_mutation_passes data own in
  let* plain := parse_plain_sections data in
  let* player_response :=
    match Raw.playerResponse data with
    | Some inner => let* child := parseResponse inner in ret (Some child)
    | None => ret None
    end in
  let* watch_next_response :=
    match Raw.watchNextResponse data with
    | Some inner => let* child := parseResponse inner in ret (Some child)
    | None => ret None
    end in
  let* entries := parse_entries data in
  ret (parsed_data data own plain player_response watch_next_response entries).

End Parser.

(** ** Node classes that call the parser (src/parser/classes) *)

Module JSReflect.

(** [Reflect.has(target, key)]: whether an object or an array has the
    property, and a [TypeError] for any other target.  The keys of
    [Object.prototype] and [Array.prototype] are not keys of the
    documents. *)
Definition has (target : RawNode) (key : string) : Completion bool :=
  match target with
  | JObj props => Normal (bool_decide (is_Some (JS.assoc key props)))
  | JArr _ =>
      Normal (bool_decide (is_Some (JS.assoc key (JS.own_entries target)))
              || String.eqb key "length")
  | _ => Throw (TypeError "Reflect.has called on non-object")
  end.

End JSReflect.

(** [s.replace(pattern, by_)] with a string for pattern: the first
    occurrence is replaced. *)
Definition replace_first (pattern by_ s : string) : string :=
  match JSString.find_occurrence [pattern] s with
  | Some (i, _) =>
      String.substring 0 i s +:+ by_ +:+ JSString.slice (i + String.length pattern) s
  | None => s
  end.

(** [v.replace(pattern, by_)] on a value of the document *)
Definition String_replace (v : RawNode) (pattern by_ : string) : Completion string :=
  match v with
  | JStr s => Normal (replace_first pattern by_ s)
  | JUndefined | JNull => Throw (TypeError (JS.cannot_read v "replace"))
  | _ => Throw (TypeError "replace is not a function")
  end.

Definition Line := node_class "Line".
Definition ItemSection := node_class "ItemSection".
Definition SectionList := node_class "SectionList".
Definition AutonavEndpoint := node_class "AutonavEndpoint".
Definition MaybeHistoryEndpoint := node_class "MaybeHistoryEndpoint".
Definition CollectionThumbnailView := node_class "CollectionThumbnailView".
Definition ThumbnailView := node_class "ThumbnailView".
Definition LockupMetadataView := node_class "LockupMetadataView".
Definition EngagementPanelTitleHeader := node_class "EngagementPanelTitleHeader".
Definition OverlayPanelHeader := node_class "OverlayPanelHeader".
Definition VideoAttributeView := node_class "VideoAttributeView".
Definition ContinuationItem := node_class "ContinuationItem".
Definition ClipSection := node_class "ClipSection".
Definition StructuredDescriptionContent := node_class "StructuredDescriptionContent".
Definition MacroMarkersList := node_class "MacroMarkersList".
Definition ProductList := node_class "ProductList".

Section Classes.

Variable env : Env.

(** [Text] of classes/misc/Text.ts, which is not among the sources: some
    type, with some constructor. *)
Variable Text : Type.
Variable new_Text : RawNode -> M Text.

(** *** TileMetadata.ts *)

Record TileMetadata := {
  TileMetadata_title : Text;
  (** [undefined] is [None] *)
  TileMetadata_lines : option Parsed
}.

Definition new_TileMetadata (data : RawNode) : M TileMetadata :=
  let* title := lift (JS.get data "title") in
  let* title := new_Text title in
  let* has_lines := lift (JSReflect.has data "lines") in
  if has_lines : bool then
    let* lines := lift (JS.get data "lines") in
    let* lines := parse env lines true (OneType Line) in
    ret {| TileMetadata_title := title; TileMetadata_lines := Some lines |}
  else ret {| TileMetadata_title := title; TileMetadata_lines := None |}.

(** *** LockupView.ts *)

Record LockupView := {
  LockupView_content_image : option YTNode;
  LockupView_metadata : option YTNode;
  LockupView_content_id : RawNode;
  LockupView_content_type : string;
  LockupView_on_tap_endpoint : YTNode
}.

Definition new_LockupView (data : RawNode) : M LockupView :=
  let* contentImage := lift (JS.get data "contentImage") in
  let* content_image :=
    parseItem env contentImage (TypeList [CollectionThumbnailView; ThumbnailView]) in
  let* metadata := lift (JS.get data "metadata") in
  let* metadata := parseItem env metadata (OneType LockupMetadataView) in
  let* content_id := lift (JS.get data "contentId") in
  let* contentType := lift (JS.get data "contentType") in
  let* content_type := lift (String_replace contentType "LOCKUP_CONTENT_TYPE_" "") in
  let* rendererContext := lift (JS.get data "rendererContext") in
  let* commandContext := lift (JS.get rendererContext "commandContext") in
  let* onTap := lift (JS.get commandContext "onTap") in
  let* on_tap_endpoint := new_ env NavigationEndpoint onTap in
  ret {| LockupView_content_image := content_image;
         LockupView_metadata := metadata;
         LockupView_content_id := content_id;
         LockupView_content_type := content_type;
         LockupView_on_tap_endpoint := on_tap_endpoint |}.

(** *** EngagementPanelSectionList.ts *)

Record EngagementPanelSectionList_t := {
  EngagementPanelSectionList_header : option YTNode;
  EngagementPanelSectionList_content : option YTNode;
  EngagementPanelSectionList_panel_identifier : RawNode;
  EngagementPanelSectionList_identifier : RawNode;
  EngagementPanelSectionList_target_id : RawNode;
  EngagementPanelSectionList_visibility : RawNode
}.

Definition new_EngagementPanelSectionList (data : RawNode)
  : M EngagementPanelSectionList_t :=
  let* header := lift (JS.get data "header") in
  let* header :=
    parseItem env header (TypeList [EngagementPanelTitleHeader; OverlayPanelHeader]) in
  let* content := lift (JS.get data "content") in
  let* content :=
    parseItem env content
      (TypeList [ VideoAttributeView; ItemSection; SectionList; ContinuationItem;
                  ClipSection; StructuredDescriptionContent; MacroMarkersList;
                  ProductList ]) in
  let* panel_identifier := lift (JS.get data "panelIdentifier") in
  let* identifier := lift (JS.get data "identifier") in
  let* identifier :=
    if JS.truthy identifier then
      let* surface := lift (JS.get identifier "surface") in
      let* tag := lift (JS.get identifier "tag") in
      ret (JObj [("surface", surface); ("tag", tag)])
    else ret JUndefined in
  let* target_id := lift (JS.get data "targetId") in
  let* visibility := lift (JS.get data "visibility") in
  ret {| EngagementPanelSectionList_header := header;
         EngagementPanelSectionList_content := content;
         EngagementPanelSectionList_panel_identifier := panel_identifier;
         EngagementPanelSectionList_identifier := identifier;
         EngagementPanelSectionList_target_id := target_id;
         EngagementPanelSectionList_visibility := visibility |}.

(** *** SingleColumnWatchNextResults.ts *)

Record AutoplaySet := {
  AutoplaySet_mode : RawNode;
  AutoplaySet_autoplay_video_renderer : option YTNode;
  AutoplaySet_next_video_renderer : option YTNode;
  AutoplaySet_previous_video_renderer : option YTNode
}.

Record SingleColumnWatchNextResults := {
  results_contents : Parsed;
  results_tracking_params : RawNode;
  autoplay_sets : list AutoplaySet;
  autoplay_title : Text;
  autoplay_count_down_secs : RawNode;
  autoplay_replay_video_renderer : option YTNode;
  autoplay_tracking_params : RawNode;
  pivot : option YTNode
}.

(** The callback of [sets.map]. *)
Definition new_AutoplaySet (item : RawNode) : M AutoplaySet :=
  let* mode := lift (JS.get item "mode") in
  let* autoplayVideoRenderer := lift (JS.get item "autoplayVideoRenderer") in
  let* autoplay_video_renderer :=
    parseItem env autoplayVideoRenderer (OneType AutonavEndpoint) in
  let* nextVideoRenderer := lift (JS.get item "nextVideoRenderer") in
  let* next_video_renderer :=
    parseItem env nextVideoRenderer (OneType MaybeHistoryEndpoint) in
  let* previousVideoRenderer := lift (JS.get item "previousVideoRenderer") in
  let* previous_video_renderer :=
    parseItem env previousVideoRenderer (OneType MaybeHistoryEndpoint) in
  ret {| AutoplaySet_mode := mode;
         AutoplaySet_autoplay_video_renderer := autoplay_video_renderer;
         AutoplaySet_next_video_renderer := next_video_renderer;
         AutoplaySet_previous_video_renderer := previous_video_renderer |}.

Fixpoint autoplay_sets_map (sets : list RawNode) : M (list AutoplaySet) :=
  match sets with
  | [] => ret []
  | item :: rest =>
      let* set := new_AutoplaySet item in
      let* sets := autoplay_sets_map rest in
      ret (set :: sets)
  end.

Definition new_SingleColumnWatchNextResults (data : RawNode)
  : M SingleColumnWatchNextResults :=
  let* results := lift (JS.get data "results") in
  let* results := lift (JS.get results "results") in
  let* contents := lift (JS.get results "contents") in
  let* contents := parse env contents true (OneType ItemSection) in
  let* tracking_params := lift (JS.get results "trackingParams") in
  let* autoplay := lift (JS.get data "autoplay") in
  let* autoplay := lift (JS.get autoplay "autoplay") in
  let* sets := lift (JS.get autoplay "sets") in
  let* sets := lift (as_array sets "map") in
  let* sets := autoplay_sets_map sets in
  let* title := lift (JS.get autoplay "title") in
  let* title := new_Text title in
  let* count_down_secs := lift (JS.get autoplay "countDownSecs") in
  let* replayVideoRenderer := lift (JS.get autoplay "replayVideoRenderer") in
  let* replay_video_renderer := parseItem env replayVideoRenderer AnyType in
  let* autoplay_tracking := lift (JS.get autoplay "trackingParams") in
  let* pivot := lift (JS.get data "pivot") in
  let* pivot := parseItem env pivot (OneType SectionList) in
  ret {| results_contents := contents;
         results_tracking_params := tracking_params;
         autoplay_sets := sets;
         autoplay_title := title;
         autoplay_count_down_secs := count_down_secs;
         autoplay_replay_video_renderer := replay_video_renderer;
         autoplay_tracking_params := autoplay_tracking;
         pivot := pivot |}.

End Classes.

(** ** The language of the formats (src/parser/yttv/VideoInfo.ts) *)

Module VideoInfo.

(** [format.audio_track?.audio_is_default] *)
Definition audio_is_default (format : YTNode) : bool :=
  JS.truthy (JS.opt_get (field format "audio_track") "audio_is_default").

(** [caption.kind === 'asr'] *)
Definition is_auto_generated (caption : RawNode) : Completion bool :=
  let? kind := JS.get caption "kind" in
  Normal (JS.strict_equals kind (JStr "asr")).

(** [format.language = language] *)
Definition set_language (language : RawNode) (format : YTNode) : YTNode :=
  set_field "language" language format.

(** [if (format.has_audio) format.language = language] *)
Definition set_audio_language (language : RawNode) (format : YTNode) : YTNode :=
  if JS.truthy (field format "has_audio") then set_language language format else format.

Definition with_formats (formats adaptive_formats : list YTNode)
           (streaming_data : Out.StreamingData) : Out.StreamingData :=
  {| Out.expires := Out.expires streaming_data;
     Out.formats := formats;
     Out.adaptive_formats := adaptive_formats;
     Out.dash_manifest_url := Out.dash_manifest_url streaming_data;
     Out.hls_manifest_url := Out.hls_manifest_url streaming_data;
     Out.server_abr_streaming_url := Out.server_abr_streaming_url streaming_data |}.

(** Lines 37-57 of the constructor, on [this.streaming_data] and
    [this.captions?.caption_tracks] (an array when it is there): the
    streaming data as the block leaves it. *)
Definition assign_languages (streaming_data : option Out.StreamingData)
           (caption_tracks : option (list RawNode))
  : Completion (option Out.StreamingData) :=
  match streaming_data with
  | None => Normal None
  | Some data =>
      match List.find audio_is_default (Out.adaptive_formats data) with
      | Some default_audio_track =>
          Normal (Some (with_formats
                          (set_language (field default_audio_track "language")
                             <$> Out.formats data)
                          (Out.adaptive_formats data) data))
      | None =>
          match caption_tracks with
          | Some (caption :: captions) =>
              let? auto_generated_caption_track :=
                array_find is_auto_generated (caption :: captions) in
              let language_code :=
                JS.opt_get auto_generated_caption_track "language_code" in
              Normal (Some (with_formats
                              (set_language language_code <$> Out.formats data)
                              (set_audio_language language_code
                                 <$> Out.adaptive_formats data)
                              data))
          | _ => Normal (Some data)
          end
      end
  end.

End VideoInfo.

(** ** Vocabulary of the statements *)

Section Vocabulary.

Variable env : Env.

(** The class a wrapper of class [classname] is dispatched to: the
    registered one, or else the stub that the generator synthesizes. *)
Definition dispatch (classname : string) (classdata : RawNode) : M YTNodeConstructor :=
  let* has_target_class := hasParser classname in
  if has_target_class : bool then getParserByName classname
  else generateRuntimeClass env classname classdata.

(** The type tag of [TargetClass] is the tag of one of the allowed
    types. *)
Definition accepted (validTypes : ValidTypes) (TargetClass : YTNodeConstructor) : Prop :=
  match validTypes with
  | AnyType => True
  | OneType t => type TargetClass = type t
  | TypeList types => exists t, In t types /\ type t = type TargetClass
  end.

(** The test of lines 555-575, as the code computes it. *)
Definition accepts (validTypes : ValidTypes) (TargetClass : YTNodeConstructor) : bool :=
  match validTypes with
  | AnyType => true
  | OneType t => String.eqb (type TargetClass) (type t)
  | TypeList types => existsb (fun t => String.eqb (type t) (type TargetClass)) types
  end.

(** The [expected] field of a typecheck event. *)
Definition expected_of (validTypes : ValidTypes) : Expected :=
  match validTypes with
  | AnyType => ExpectedTypes []
  | OneType t => ExpectedType (type t)
  | TypeList types => ExpectedTypes (type <$> types)
  end.

(** The environment with other constructors. *)
Definition with_constructors (new' : YTNodeConstructor -> RawNode -> M YTNode) : Env :=
  {| new_ := new';
     generateRuntimeClass := generateRuntimeClass env;
     CommentView_applyMutations := CommentView_applyMutations env;
     new_Format := new_Format env;
     parseInt := parseInt env;
     Date_after := Date_after env |}.

End Vocabulary.

(** The parse events among the reported ones. *)
Definition parse_events (s : ParserState) : list ParserError :=
  filter (fun e => is_parse e = true) (reported s).

(** *** Vocabulary of the memo discipline *)

(** The computation [m] keeps the active memo pointer and the number of
    memos, and changes no memo other than the active one and those that
    [allowed] names. *)
Definition touches {A} (allowed : nat -> Prop) (m : M A) : Prop :=
  forall s,
    MEMO (m s).2 = MEMO s
    /\ length (heap (m s).2) = length (heap s)
    /\ forall memo, ~ allowed memo -> MEMO s <> Some memo ->
                    heap (m s).2 !! memo = heap s !! memo.

Definition no_memo : nat -> Prop := fun _ => False.

(** The classes and the generator reach a memo only through the active
    pointer, that is, through the parser. *)
Definition respects_memo (env : Env) : Prop :=
  (forall C data, touches no_memo (new_ env C data))
  /\ (forall classname data, touches no_memo (generateRuntimeClass env classname data))
  /\ (forall node a b c d,
         touches no_memo (CommentView_applyMutations env node a b c d))
  /\ (forall format cache, touches no_memo (new_Format env format cache)).

(** From [s] to [s'] no memo was dropped and the first [n] memos are as
    they were. *)
Definition stable (n : nat) (s s' : ParserState) : Prop :=
  length (heap s) <= length (heap s')
  /\ take n (heap s') = take n (heap s).

(** Started with no active memo, [m] leaves the first [n] memos as they
    were; when it returns, no memo is active and the memos [memos_of] of
    its result are memos other than the first [n].  [known] are memos of
    that kind known beforehand. *)
Definition grows {A} (n : nat) (known : list nat) (memos_of : A -> list nat)
           (m : M A) : Prop :=
  forall s,
    MEMO s = None ->
    n <= length (heap s) ->
    Forall (fun memo => n <= memo < length (heap s)) known ->
    match m s with
    | (Normal a, s') =>
        MEMO s' = None /\ stable n s s'
        /\ Forall (fun memo => n <= memo < length (heap s')) (memos_of a)
    | (Throw _, s') => stable n s s'
    end.

Definition memo_sections_memos (own : MemoSections.t) : list nat :=
  [ MemoSections.contents_memo own;
    MemoSections.on_response_received_actions_memo own;
    MemoSections.on_response_received_endpoints_memo own;
    MemoSections.on_response_received_commands_memo own;
    MemoSections.continuation_contents_memo own;
    MemoSections.actions_memo own;
    MemoSections.live_chat_item_context_menu_supported_renderers_memo own;
    MemoSections.header_memo own;
    MemoSections.sidebar_memo own ]
    ++ match MemoSections.items_memo own with
       | Some memo => [memo]
       | None => []
       end.

(** The memos of a nested response, if there is one. *)
Definition nested_memos (child : option Out.IParsedResponse) : list nat :=
  match child with
  | Some c => Out.all_memos c
  | None => []
  end.

(** The depth to which responses are nested in a document. *)
Fixpoint nesting (data : Raw.IRawResponse) : nat :=
  S (Nat.max
       (match Raw.playerResponse data with
        | Some inner => nesting inner
        | None => 0
        end)
       (match Raw.watchNextResponse data with
        | Some inner => nesting inner
        | None => 0
        end)).

(** *** Vocabulary of the mutation passes *)

(** The nodes that the memo behind [memo] holds under [classname]. *)
Definition nodes_at (s : ParserState) (memo : nat) (classname : string) : list YTNode :=
  default [] (deref memo s !! classname).

(** [mutation.payload?.musicFormBooleanChoice?.id] *)
Definition choice_id (mutation : RawNode) : RawNode :=
  JS.opt_get (JS.opt_get (JS.prop mutation "payload") "musicFormBooleanChoice") "id".

(** The [musicFormBooleanChoice] of the first mutation whose choice id is
    strictly equal to [key]; [undefined] when there is none. *)
Fixpoint first_choice (mutations : list RawNode) (key : RawNode) : RawNode :=
  match mutations with
  | [] => JUndefined
  | mutation :: rest =>
      if JS.strict_equals (choice_id mutation) key
      then JS.prop (JS.prop mutation "payload") "musicFormBooleanChoice"
      else first_choice rest key
  end.

(** A mutation record that carries a payload. *)
Definition is_record (mutation : RawNode) : bool :=
  negb (JS.nullish mutation) && negb (JS.nullish (JS.prop mutation "payload")).

(** The choice that the pass finds for a menu item. *)
Definition choice_for (mutations : list RawNode) (menu_item : YTNode) : RawNode :=
  first_choice mutations (field menu_item "form_item_entity_key").

(** The menu item after the pass. *)
Definition patched (mutations : list RawNode) (menu_item : YTNode) : YTNode :=
  if valid_choice (choice_for mutations menu_item)
  then set_field "selected" (JS.prop (choice_for mutations menu_item) "selected") menu_item
  else menu_item.

(** The quoted titles of the menu items without a valid choice. *)
Definition failed_titles (mutations : list RawNode) (items : list YTNode) : list string :=
  (fun menu_item => "'" +:+ JS.to_string (field menu_item "title") +:+ "'")
    <$> filter (fun menu_item => valid_choice (choice_for mutations menu_item) = false)
          items.





(** The state [s'] differs from [s] at most in the nodes that the memo
    behind [memo] holds under [classname]. *)
Definition only_nodes_at (memo : nat) (classname : string) (s s' : ParserState) : Prop :=
  MEMO s' = MEMO s
  /\ RUNTIME_NODES s' = RUNTIME_NODES s
  /\ DYNAMIC_NODES s' = DYNAMIC_NODES s
  /\ length (heap s') = length (heap s)
  /\ (forall other, other <> memo -> heap s' !! other = heap s !! other)
  /\ (forall k, k <> classname -> deref memo s' !! k = deref memo s !! k).

(** A key that [parseCommand] passes over in state [s]: it has none of
    the three suffixes, or its class is neither ignored nor registered. *)
Definition passed_over (s : ParserState) (key : string) : Prop :=
  command_regexp key || endpoint_regexp key || action_regexp key = false
  \/ (shouldIgnore (sanitizeClassName key) = false
      /\ RUNTIME_NODES s !! sanitizeClassName key = None).

(** *** Vocabulary of the further properties *)

(** The cases of [parseLC], in the order of its [if] statements. *)
Definition continuation_classes : list (string * YTNodeConstructor) :=
  [ ("itemSectionContinuation", ItemSectionContinuation);
    ("sectionListContinuation", SectionListContinuation);
    ("liveChatContinuation", LiveChatContinuation);
    ("musicPlaylistShelfContinuation", MusicPlaylistShelfContinuation);
    ("musicShelfContinuation", MusicShelfContinuation);
    ("gridContinuation", GridContinuation);
    ("playlistPanelContinuation", PlaylistPanelContinuation);
    ("continuationCommand", ContinuationCommand) ].

(** The cases of the callback of [parseRR], in the order of its [if]
    statements. *)
Definition response_actions : list (string * YTNodeConstructor) :=
  [ ("navigateAction", NavigateAction);
    ("showMiniplayerCommand", ShowMiniplayerCommand);
    ("reloadContinuationItemsCommand", ReloadContinuationItemsCommand);
    ("appendContinuationItemsAction", AppendContinuationItemsAction);
    ("openPopupAction", OpenPopupAction) ].

(** The value has none of the keys of [cases], or only falsy ones. *)
Definition lacks (cases : list (string * YTNodeConstructor)) (data : RawNode) : bool :=
  forallb (fun kc => negb (JS.truthy (JS.prop data kc.1))) cases.

(** An element of an array that [parseItem] turns into [null] without a
    word: a falsy one, one without keys, one of an ignored class. *)
Definition passes_unseen (item : RawNode) : bool :=
  negb (JS.truthy item)
  || match (JS.own_entries item).*1 with
     | [] => true
     | key0 :: _ => shouldIgnore (sanitizeClassName key0)
     end.

(** An action as [parseActions] leaves it: without its
    [clickTrackingParams]. *)
Definition without_clickTrackingParams (action : RawNode) : RawNode :=
  match action with
  | JObj props => JObj (filter (fun kv => kv.1 <> "clickTrackingParams") props)
  | _ => action
  end.

(** A run of [_addToMemo] calls. *)
Fixpoint add_all (adds : list (string * YTNode)) : M unit :=
  match adds with
  | [] => ret tt
  | (classname, result) :: rest =>
      let* _ := _addToMemo classname result in
      add_all rest
  end.

(** Started with no active memo, [m] returns with no active memo and
    throws with one. *)
Definition throws_with_a_memo {A} (m : M A) : Prop :=
  forall s,
    MEMO s = None ->
    match m s with
    | (Normal _, s') => MEMO s' = None
    | (Throw _, s') => is_Some (MEMO s')
    end.

(** [mutations.find((mutation) => mutation.payload?.[entity]?.key ===
    wanted)?.payload?.[entity]] over mutation records. *)
Fixpoint payload_with_key (entity : string) (wanted : RawNode) (mutations : list RawNode)
  : RawNode :=
  match mutations with
  | [] => JUndefined
  | mutation :: rest =>
      if JS.strict_equals
           (JS.opt_get (JS.opt_get (JS.prop mutation "payload") entity) "key") wanted
      then JS.opt_get (JS.prop mutation "payload") entity
      else payload_with_key entity wanted rest
  end.

(** [mutations.find((mutation) => mutation.entityKey === wanted)
    ?.payload?.engagementToolbarSurfaceEntityPayload] over mutation
    records. *)
Fixpoint surface_with_key (wanted : RawNode) (mutations : list RawNode) : RawNode :=
  match mutations with
  | [] => JUndefined
  | mutation :: rest =>
      if JS.strict_equals (JS.prop mutation "entityKey") wanted
      then JS.opt_get (JS.prop mutation "payload") "engagementToolbarSurfaceEntityPayload"
      else surface_with_key wanted rest
  end.

(** The comment view after the pass, when [applyMutations] of the class
    computes [patch]. *)
Definition comment_view_after
           (patch : YTNode -> RawNode -> RawNode -> RawNode -> RawNode -> YTNode)
           (mutations : list RawNode) (comment_view : YTNode) : YTNode :=
  let keys := field comment_view "keys" in
  patch comment_view
    (payload_with_key "commentEntityPayload" (JS.prop keys "comment") mutations)
    (payload_with_key "engagementToolbarStateEntityPayload"
       (JS.prop keys "toolbar_state") mutations)
    (surface_with_key (JS.prop keys "toolbar_surface") mutations)
    (payload_with_key "commentSurfaceEntityPayload"
       (JS.prop keys "comment_surface") mutations).

(** Two nodes that differ at most in the field [k]. *)
Definition same_but (k : string) (node node' : YTNode) : Prop :=
  node_type node' = node_type node
  /\ forall k', k' <> k -> field node' k' = field node k'.

(** The data that SingleColumnWatchNextResults can be constructed from:
    [results.results] and [autoplay.autoplay] are there, the [contents] of
    the first are absent or an array, and the [sets] of the second are an
    array without [undefined] and [null]. *)
Definition watch_next_shape (data : RawNode) (sets : list RawNode) : Prop :=
  JS.nullish data = false
  /\ JS.nullish (JS.prop data "results") = false
  /\ JS.nullish (JS.prop (JS.prop data "results") "results") = false
  /\ (JS.truthy (JS.prop (JS.prop (JS.prop data "results") "results") "contents") = true ->
      JS.isArray (JS.prop (JS.prop (JS.prop data "results") "results") "contents") = true)
  /\ JS.nullish (JS.prop data "autoplay") = false
  /\ JS.nullish (JS.prop (JS.prop data "autoplay") "autoplay") = false
  /\ JS.prop (JS.prop (JS.prop data "autoplay") "autoplay") "sets" = JArr sets
  /\ Forall (fun item => JS.nullish item = false) sets.

(** The number of responses in a document: the document and the
    responses nested in it. *)
Fixpoint responses (data : Raw.IRawResponse) : nat :=
  S ((match Raw.playerResponse data with
      | Some inner => responses inner
      | None => 0
      end)
     + (match Raw.watchNextResponse data with
        | Some inner => responses inner
        | None => 0
        end)).

(** [m] creates [k] memos when it returns, and at most [k] when it
    throws. *)
Definition creates {A} (k : nat) (m : M A) : Prop :=
  forall s,
    match m s with
    | (Normal _, s') => length (heap s') = length (heap s) + k
    | (Throw _, s') => length (heap s) <= length (heap s') <= length (heap s) + k
    end.

(** The constructors of the classes leave the memos and the active memo
    alone. *)
Definition keeps_memos (env : Env) : Prop :=
  forall C data s,
    heap (new_ env C data s).2 = heap s /\ MEMO (new_ env C data s).2 = MEMO s.

(** [m] leaves the memos and the active memo alone. *)
Definition records_nothing {A} (m : M A) : Prop :=
  forall s, heap (m s).2 = heap s /\ MEMO (m s).2 = MEMO s.

(** *** Vocabulary of the nested responses *)

(** [m] takes no node out of a memo. *)
Definition keeps_nodes {A} (m : M A) : Prop :=
  forall s memo classname node,
    node ∈ nodes_at s memo classname -> node ∈ nodes_at (m s).2 memo classname.

(** The classes and the generator add nodes to the memos (a constructor
    that parses what it holds does) and take none out. *)
Definition only_adds (env : Env) : Prop :=
  (forall C data, keeps_nodes (new_ env C data))
  /\ (forall classname data, keeps_nodes (generateRuntimeClass env classname data)).

(** The nodes at the top of what [parse] returns. *)
Definition Parsed_nodes (p : Parsed) : list YTNode :=
  match p with
  | Parsed_null => []
  | Parsed_array l => l
  | Parsed_super (Super_item n) => option_list n
  | Parsed_super (Super_array l) => l
  end.

(** The same for a section of a parsed response, which may be absent. *)
Definition section_nodes (section : option Parsed) : list YTNode :=
  from_option Parsed_nodes [] section.

(** The memo behind [memo] holds [node]: some class name has the node as
    it was constructed or, for MusicMultiSelectMenuItem, as the mutation
    pass left it, which sets [selected] and no other field. *)
Definition holds (s : ParserState) (memo : nat) (node : YTNode) : Prop :=
  exists classname node',
    node' ∈ nodes_at s memo classname
    /\ same_but "selected" node node'
    /\ (classname <> type MusicMultiSelectMenuItem -> node' = node).

(** With a memo active, [m] leaves in it the nodes [nodes_of] of its
    result. *)
Definition records {A} (nodes_of : A -> list YTNode) (m : M A) : Prop :=
  forall s s' memo v,
    MEMO s = Some memo -> memo < length (heap s) -> m s = (Normal v, s') ->
    Forall (holds s' memo) (nodes_of v).

(** [m] leaves in the memo behind [memo] the nodes that it holds. *)
Definition keeps_held {A} (memo : nat) (m : M A) : Prop :=
  forall s node, holds s memo node -> holds (m s).2 memo node.

(** The sections of a parsed response that [parse], [parseItem] or
    [parseActions] produced (lines 233-320), each with the nodes at its top
    and with its memo. *)
Definition memo_sections_nodes (p : Out.IParsedResponse)
  : list (list YTNode * option nat) :=
  [ (section_nodes (Out.contents p), Out.contents_memo p);
    (section_nodes (Out.actions p), Out.actions_memo p);
    (option_list (Out.live_chat_item_context_menu_supported_renderers p),
     Out.live_chat_item_context_menu_supported_renderers_memo p);
    (section_nodes (Out.header p), Out.header_memo p);
    (option_list (Out.sidebar p), Out.sidebar_memo p);
    (section_nodes (Out.items p), Out.items_memo p) ].

(** The sections whose parser returns an object whenever it returns:
    the part of the document that each one is parsed from, and its memo in
    the parsed response. *)
Definition sure_sections (data : Raw.IRawResponse) (p : Out.IParsedResponse)
  : list (RawNode * option nat) :=
  [ (Raw.contents data, Out.contents_memo p);
    (Raw.onResponseReceivedActions data, Out.on_response_received_actions_memo p);
    (Raw.onResponseReceivedEndpoints data, Out.on_response_received_endpoints_memo p);
    (Raw.onResponseReceivedCommands data, Out.on_response_received_commands_memo p);
    (Raw.actions data, Out.actions_memo p);
    (Raw.header data, Out.header_memo p);
    (Raw.items data, Out.items_memo p) ].

(** The parsed response [p] has a memo for each of those sections that
    the document [data] has. *)
Definition has_its_memos (data : Raw.IRawResponse) (p : Out.IParsedResponse) : Prop :=
  Forall (fun section => JS.truthy section.1 = true -> is_Some section.2)
    (sure_sections data p).

(** In state [s], every node at the top of a section of [p] is held by
    the memo of that section. *)
Definition memos_hold_sections (s : ParserState) (p : Out.IParsedResponse) : Prop :=
  Forall (fun section =>
            forall node, node ∈ section.1 ->
              exists memo, section.2 = Some memo /\ holds s memo node)
    (memo_sections_nodes p).

(** ** An environment to run the parser in *)

Module Demo.

(** The constructor of a class whose name starts with [Broken] throws;
    every other constructor keeps the properties of the body. *)
Definition new_node (C : YTNodeConstructor) (data : RawNode) : M YTNode :=
  if String.prefix "Broken" (class_name C) then throw (Error "broken body")
  else ret {| node_type := type C; fields := JS.own_entries data |}.

(** The stub generator reports the unknown class, registers a class of
    that name and returns it. *)
Definition generate_stub (classname : string) (data : RawNode)
  : M YTNodeConstructor :=
  let* _ := ERROR_HANDLER
              (ev_class_not_found classname
                 ((fun kv => (kv.1, "unknown")) <$> JS.own_entries data)) in
  let* _ := addRuntimeParser classname (node_class classname) in
  ret (node_class classname).

Definition patch_comment (node : YTNode)
           (comment toolbar_state toolbar_surface comment_surface : RawNode)
  : M YTNode :=
  ret (set_field "comment" comment node).

Definition new_format (format : RawNode) (cache : gmap string string)
  : M (YTNode * gmap string string) :=
  ret ({| node_type := "Format"; fields := JS.own_entries format |}, cache).

Definition env : Env :=
  {| new_ := new_node;
     generateRuntimeClass := generate_stub;
     CommentView_applyMutations := patch_comment;
     new_Format := new_format;
     parseInt := fun v => v;
     Date_after := fun v => v |}.

Definition registry : gmap string YTNodeConstructor :=
  list_to_map
    [ ("Video", node_class "Video");
      ("Alert", Alert);
      ("MusicMultiSelectMenuItem", MusicMultiSelectMenuItem);
      ("CommentView", CommentView);
      ("BrokenCommand", node_class "BrokenCommand");
      ("BrokenVideo", node_class "BrokenVideo");
      ("WatchEndpoint", node_class "WatchEndpoint");
      ("MusicMixShelf", node_class "MusicMixShelf");
      ("PlayerCaptionsTracklist", PlayerCaptionsTracklist);
      ("NavigateAction", NavigateAction) ].

(** Constructors of which one parses what it holds: an
    AppendContinuationItemsAction parses its [continuationItems]. *)
Definition new_nesting (C : YTNodeConstructor) (data : RawNode) : M YTNode :=
  if String.eqb (class_name C) "AppendContinuationItemsAction" then
    let* contents := parseArray env (JS.prop data "continuationItems") AnyType in
    ret {| node_type := type C; fields := [] |}
  else new_node C data.

Definition env_nesting : Env := with_constructors env new_nesting.

(** The parser before any parse: no memo, nothing reported. *)
Definition initial : ParserState :=
  {| MEMO := None; heap := []; RUNTIME_NODES := registry;
     DYNAMIC_NODES := ∅; reported := [] |}.

(** The same, with a memo [memo] in place that is not the active one. *)
Definition holding (memo : gmap string (list YTNode)) : ParserState :=
  {| MEMO := None; heap := [memo]; RUNTIME_NODES := registry;
     DYNAMIC_NODES := ∅; reported := [] |}.

(** A command container: a tracking key, a command whose constructor
    throws, an endpoint. *)
Definition command : RawNode :=
  JObj [ ("clickTrackingParams", JStr "x");
         ("brokenCommand", JNull);
         ("watchEndpoint", JObj [("videoId", JStr "v")]) ].

Definition watch_endpoint : YTNode :=
  {| node_type := "WatchEndpoint"; fields := [("videoId", JStr "v")] |}.

(** A memo that holds one comment view. *)
Definition comment_view : YTNode :=
  {| node_type := "CommentView";
     fields := [("keys", JObj [("comment", JStr "c1")])] |}.

Definition comment_memo : gmap string (list YTNode) :=
  {[ "CommentView" := [comment_view] ]}.

(** A menu item that some mutation addresses with a valid choice, while
    the first mutation with its key has none. *)
Definition menu_item : YTNode :=
  {| node_type := "MusicMultiSelectMenuItem";
     fields := [ ("title", JStr "T"); ("form_item_entity_key", JStr "K");
                 ("selected", JBool false) ] |}.

Definition choice (props : list (string * RawNode)) : RawNode :=
  JObj [("payload", JObj [("musicFormBooleanChoice", JObj props)])].

Definition heat_map : RawNode :=
  JObj [ ("entityKey", JStr "h");
         ("payload",
           JObj [("macroMarkersListEntity",
                   JObj [("markersList",
                           JObj [("markerType", JStr "MARKER_TYPE_HEATMAP")])])]) ].

(** A memo that holds the menu item. *)
Definition menu_memo : gmap string (list YTNode) :=
  {[ "MusicMultiSelectMenuItem" := [menu_item] ]}.

(** Two mutations with the key of the menu item; only the second has a
    valid choice. *)
Definition duplicate_choices : list RawNode :=
  [ choice [("id", JStr "K")];
    choice [("id", JStr "K"); ("selected", JBool true); ("opaqueToken", JStr "tok")] ].

(** Two menu items, and mutations with a valid choice for the first. *)
Definition item (key title : string) : YTNode :=
  {| node_type := "MusicMultiSelectMenuItem";
     fields := [ ("title", JStr title); ("form_item_entity_key", JStr key) ] |}.

Definition two_items : gmap string (list YTNode) :=
  {[ "MusicMultiSelectMenuItem" := [item "K1" "one"; item "K2" "two"] ]}.

Definition one_choice : list RawNode :=
  [ choice [("id", JStr "K1"); ("selected", JBool true); ("opaqueToken", JStr "tok")] ].

Definition heat_map_node : YTNode :=
  {| node_type := "MacroMarkersListEntity";
     fields := [("markersList", JObj [("markerType", JStr "MARKER_TYPE_HEATMAP")])] |}.

(** A document whose [playerResponse] has one video in its contents and
    which has a header of its own. *)
Definition inner_document : Raw.IRawResponse :=
  Raw.with_contents
    (JArr [JObj [("videoRenderer", JObj [("videoId", JStr "v")])]]) Raw.empty.

Definition outer_document : Raw.IRawResponse :=
  Raw.with_header (JObj [("alertRenderer", JObj [("text", JStr "hello")])])
    (Raw.with_playerResponse inner_document Raw.empty).

(** A response whose endpoints append a comment view, with no
    [frameworkUpdates]. *)
Definition comments_document : Raw.IRawResponse :=
  Raw.with_onResponseReceivedEndpoints
    (JArr [JObj [("appendContinuationItemsAction",
                   JObj [("continuationItems",
                           JArr [JObj [("commentViewModel",
                                         JObj [("commentId", JStr "c1")])]])])]])
    Raw.empty.

Definition video (id : string) : RawNode :=
  JObj [("videoRenderer", JObj [("videoId", JStr id)])].

Definition video_node (id : string) : YTNode :=
  {| node_type := "Video"; fields := [("videoId", JStr id)] |}.

End Demo.

(** Data to run the callers of the parser on. *)
Module Sample.

(** Streaming data with one combined format and one audio format, both in
    English, and no default audio track. *)
Definition streaming_data : Out.StreamingData :=
  {| Out.expires := JNull;
     Out.formats :=
       [{| node_type := "Format";
           fields := [("itag", JNum 18); ("language", JStr "en")] |}];
     Out.adaptive_formats :=
       [{| node_type := "Format";
           fields := [("itag", JNum 140); ("has_audio", JBool true);
                      ("language", JStr "en")] |}];
     Out.dash_manifest_url := JUndefined;
     Out.hls_manifest_url := JUndefined;
     Out.server_abr_streaming_url := JUndefined |}.

(** A lockup of a video. *)
Definition lockup : RawNode :=
  JObj [ ("contentId", JStr "v1");
         ("contentType", JStr "LOCKUP_CONTENT_TYPE_VIDEO");
         ("rendererContext",
           JObj [("commandContext",
                   JObj [("onTap", JObj [("watchEndpoint", JObj [])])])]) ].

(** Watch-next results with no contents and one autoplay set. *)
Definition watch_next : RawNode :=
  JObj [ ("results", JObj [("results", JObj [("trackingParams", JStr "t")])]);
         ("autoplay",
           JObj [("autoplay",
                   JObj [ ("sets", JArr [JObj [("mode", JStr "NORMAL")]]);
                          ("title", JStr "Up next") ])]) ].

(** An engagement panel with an identifier and nothing else. *)
Definition panel : RawNode :=
  JObj [ ("panelIdentifier", JStr "comments");
         ("identifier", JObj [("surface", JStr "s"); ("tag", JStr "t")]) ].

End Sample.

(** * Properties *)

(** ** The sanitizer *)

Section Sanitizer.

Import JSString.

Lemma capitalize_charAt (k : string) :
  toUpperCase (charAt 0 k) +:+ slice 1 k = Documented.capitalize k.
Proof. destruct k as [|c r]; reflexivity. Qed.

Lemma slice_length (n : nat) (s : string) :
  String.length (slice n s) = String.length s - n.
Proof.
  revert s; induction n as [|n IH]; intros [|c r]; simpl; auto.
Qed.

Lemma replace_scan_skip alts by_ (skip : nat) (s : string) :
  replace_scan alts by_ skip s = replace_scan alts by_ 0 (slice skip s).
Proof.
  revert skip; induction s as [|c r IH]; intros [|k]; try reflexivity.
  simpl replace_scan at 1. rewrite IH. reflexivity.
Qed.

Lemma first_match_nonempty alts (s p : string) :
  Forall (fun a => a <> EmptyString) alts ->
  first_match alts s = Some p -> p <> EmptyString.
Proof.
  induction 1 as [|a l Ha _ IH]; simpl; [discriminate|].
  destruct (String.prefix a s); [congruence | exact IH].
Qed.

Lemma first_match_input alts (s p : string) :
  Forall (fun a => a <> EmptyString) alts ->
  first_match alts s = Some p -> s <> EmptyString.
Proof.
  intros Hne Hm ->. induction Hne as [|a l Ha _ IH]; simpl in Hm; [discriminate|].
  destruct a; [congruence | simpl in Hm; auto].
Qed.

Lemma replace_scan_no_occurrence alts by_ (s : string) :
  find_occurrence alts s = None -> replace_scan alts by_ 0 s = s.
Proof.
  induction s as [|c r IH]; [reflexivity|].
  simpl. destruct (first_match alts (String c r)); [discriminate|].
  destruct (find_occurrence alts r) as [[i p]|]; [discriminate|].
  intros _. rewrite IH; reflexivity.
Qed.

Lemma replace_scan_occurrence alts by_ (s : string) (i : nat) (p : string) :
  Forall (fun a => a <> EmptyString) alts ->
  find_occurrence alts s = Some (i, p) ->
  replace_scan alts by_ 0 s
  = String.substring 0 i s +:+ by_
      +:+ replace_scan alts by_ 0 (slice (i + String.length p) s).
Proof.
  intros Hne. revert i. induction s as [|c r IH]; intros i.
  - simpl. destruct (first_match alts EmptyString) eqn:E; [|discriminate].
    exfalso. eapply first_match_input; eauto.
  - simpl. destruct (first_match alts (String c r)) as [q|] eqn:E.
    + intros [= <- <-]. pose proof (first_match_nonempty _ _ _ Hne E) as Hq.
      destruct q as [|qc qr]; [congruence|]. simpl.
      rewrite Nat.sub_0_r. rewrite replace_scan_skip. reflexivity.
    + destruct (find_occurrence alts r) as [[j q]|] eqn:F; [|discriminate].
      intros [= <- <-]. rewrite (IH j eq_refl). reflexivity.
Qed.

Lemma find_occurrence_nonempty alts (s : string) (i : nat) (p : string) :
  Forall (fun a => a <> EmptyString) alts ->
  find_occurrence alts s = Some (i, p) -> p <> EmptyString /\ s <> EmptyString.
Proof.
  intros Hne. revert i. induction s as [|c r IH]; intros i; simpl.
  - destruct (first_match alts EmptyString) eqn:E; [|discriminate].
    exfalso. eapply first_match_input; eauto.
  - destruct (first_match alts (String c r)) as [q|] eqn:E.
    + intros [= <- <-]. split; [eapply first_match_nonempty; eauto | discriminate].
    + destruct (find_occurrence alts r) as [[j q]|] eqn:F; [|discriminate].
      intros [= <- <-]. split; [apply (IH j eq_refl) | discriminate].
Qed.

(** The scan of the regular expression engine removes (or replaces) the
    occurrences leftmost first. *)
Lemma replace_g_substitute_all alts by_ (fuel : nat) (s : string) :
  Forall (fun a => a <> EmptyString) alts ->
  String.length s <= fuel ->
  replace_g alts by_ s = Documented.substitute_all fuel alts by_ s.
Proof.
  intros Hne. unfold replace_g. revert s.
  induction fuel as [|f IH]; intros s Hlen.
  - destruct s; [reflexivity | simpl in Hlen; lia].
  - simpl. destruct (find_occurrence alts s) as [[i p]|] eqn:E.
    + rewrite (replace_scan_occurrence _ _ _ _ _ Hne E). do 2 f_equal.
      apply IH. rewrite slice_length.
      destruct (find_occurrence_nonempty _ _ _ _ Hne E) as [Hp Hs].
      destruct p; [congruence|]. destruct s; [congruence|]. simpl in *. lia.
    + apply replace_scan_no_occurrence, E.
Qed.

Lemma sanitize_refines (k : string) : sanitizeClassName k = Documented.sanitize k.
Proof.
  unfold sanitizeClassName, Documented.sanitize, Documented.replace_all,
    Documented.remove_all.
  rewrite capitalize_charAt.
  rewrite <- (replace_g_substitute_all ["Renderer"; "Model"] "" _ _);
    [| repeat constructor; discriminate | lia].
  rewrite <- (replace_g_substitute_all ["Radio"] "Mix" _ _);
    [| repeat constructor; discriminate | lia].
  reflexivity.
Qed.

Lemma trimEnd_idempotent (s : string) : trimEnd (trimEnd s) = trimEnd s.
Proof.
  induction s as [|c r IH]; [reflexivity|].
  simpl. destruct (trimEnd r) as [|d t] eqn:E.
  - destruct (is_space c) eqn:Hc; simpl; [reflexivity | rewrite Hc; reflexivity].
  - change (trimEnd (String c (String d t))) with
      (match trimEnd (String d t) with
       | EmptyString => if is_space c then EmptyString else String c EmptyString
       | x => String c x
       end).
    rewrite IH. reflexivity.
Qed.

Lemma trimStart_trimEnd (s : string) :
  trimStart s = s -> trimStart (trimEnd s) = trimEnd s.
Proof.
  destruct s as [|c r]; [reflexivity|].
  simpl. destruct (is_space c) eqn:Hc.
  - intros H. exfalso.
    assert (Hl : String.length (trimStart r) <= String.length r).
    { clear. induction r as [|d r IH]; simpl; [lia|].
      destruct (is_space d); simpl; lia. }
    rewrite H in Hl. simpl in Hl. lia.
  - intros _. destruct (trimEnd r); simpl; rewrite Hc; reflexivity.
Qed.

Lemma trimStart_idempotent (s : string) : trimStart (trimStart s) = trimStart s.
Proof.
  induction s as [|c r IH]; [reflexivity|].
  simpl. destruct (is_space c) eqn:Hc; [exact IH|]. simpl. rewrite Hc. reflexivity.
Qed.

Lemma trim_idempotent (s : string) : trim (trim s) = trim s.
Proof.
  unfold trim. rewrite (trimStart_trimEnd (trimStart s) (trimStart_idempotent s)).
  apply trimEnd_idempotent.
Qed.

Lemma find_occurrence_cons_None (a : string) (l : list string) (s : string) :
  find_occurrence [a] s = None -> find_occurrence l s = None ->
  find_occurrence (a :: l) s = None.
Proof.
  induction s as [|c r IH]; cbn [find_occurrence first_match].
  - destruct (String.prefix a EmptyString); [discriminate|].
    destruct (first_match l EmptyString); [discriminate | reflexivity].
  - destruct (String.prefix a (String c r)); [discriminate|].
    destruct (first_match l (String c r)); [discriminate|].
    destruct (find_occurrence [a] r) as [[]|]; [discriminate|].
    destruct (find_occurrence l r) as [[]|]; [discriminate|].
    intros _ _. rewrite IH; reflexivity.
Qed.

Lemma sanitize_fixed (s : string) :
  starts_lower s = false ->
  contains "Renderer" s = false ->
  contains "Model" s = false ->
  contains "Radio" s = false ->
  trim s = s ->
  sanitizeClassName s = s.
Proof.
  unfold contains. intros Hl Hr Hm Hx Ht.
  destruct (find_occurrence ["Renderer"] s) eqn:E1; [congruence|].
  destruct (find_occurrence ["Model"] s) eqn:E2; [congruence|].
  destruct (find_occurrence ["Radio"] s) eqn:E3; [congruence|].
  unfold sanitizeClassName. rewrite capitalize_charAt.
  assert (Hc : Documented.capitalize s = s).
  { destruct s as [|c r]; [reflexivity|]. simpl in *. unfold upper_char.
    rewrite Hl. reflexivity. }
  rewrite Hc. unfold replace_g.
  rewrite (replace_scan_no_occurrence ["Renderer"; "Model"] "" s)
    by (apply find_occurrence_cons_None; assumption).
  rewrite (replace_scan_no_occurrence ["Radio"] "Mix" s) by assumption.
  exact Ht.
Qed.

End Sanitizer.

(** C5 (amended).  For every input string, [sanitizeClassName] equals the
    documented algorithm: capitalize the first letter, remove all
    occurrences of [Renderer] and [Model], replace all occurrences of
    [Radio] with [Mix], trim.  Sanitizing the result again changes nothing
    whenever the result does not start with a lower-case letter and contains
    none of [Renderer], [Model] and [Radio]. *)
Theorem sanitizeClassName_documented (k : string) :
  sanitizeClassName k = Documented.sanitize k
  /\ (JSString.starts_lower (sanitizeClassName k) = false ->
      JSString.contains "Renderer" (sanitizeClassName k) = false ->
      JSString.contains "Model" (sanitizeClassName k) = false ->
      JSString.contains "Radio" (sanitizeClassName k) = false ->
      sanitizeClassName (sanitizeClassName k) = sanitizeClassName k).
Proof.
  split; [apply sanitize_refines|].
  intros Hl Hr Hm Hx. apply sanitize_fixed; try assumption.
  unfold sanitizeClassName at 2. apply trim_idempotent.
Qed.

Lemma sanitizeClassName_documented_witness :
  sanitizeClassName "videoRenderer" = Documented.sanitize "videoRenderer"
  /\ sanitizeClassName (sanitizeClassName "videoRenderer")
     = sanitizeClassName "videoRenderer".
Proof.
  split.
  - apply (proj1 (sanitizeClassName_documented "videoRenderer")).
  - apply (proj2 (sanitizeClassName_documented "videoRenderer")); reflexivity.
Defined.

(** C5 as stated fails: sanitization is not idempotent.  The key
    [videoModeModell] sanitizes to [VideoModel], which sanitizes to
    [Video]. *)
Lemma sanitizeClassName_not_idempotent :
  sanitizeClassName "videoModeModell" = "VideoModel"
  /\ sanitizeClassName (sanitizeClassName "videoModeModell")
     <> sanitizeClassName "videoModeModell".
Proof. split; [reflexivity | vm_compute; discriminate]. Qed.

(** ** The item parser *)

Section ItemParser.

Variable env : Env.

Lemma truthy_not_nullish (v : RawNode) : JS.truthy v = true -> JS.nullish v = false.
Proof. destruct v; simpl; congruence. Qed.

Lemma get_not_nullish (v : RawNode) (k : string) :
  JS.nullish v = false -> JS.get v k = Normal (JS.prop v k).
Proof. unfold JS.get. intros ->. reflexivity. Qed.

Lemma Object_keys_truthy (v : RawNode) :
  JS.truthy v = true -> JS.Object_keys v = Normal ((JS.own_entries v).*1).
Proof. intros H. unfold JS.Object_keys. rewrite (truthy_not_nullish v H). reflexivity. Qed.

Lemma accepts_accepted (validTypes : ValidTypes) (C : YTNodeConstructor) :
  accepts validTypes C = true <-> accepted validTypes C.
Proof.
  destruct validTypes as [|t|types]; simpl.
  - tauto.
  - apply String.eqb_eq.
  - rewrite existsb_exists. split; intros [t [Hin Ht]]; exists t; split; auto;
      apply String.eqb_eq; auto.
Qed.

Lemma accepts_rejected (validTypes : ValidTypes) (C : YTNodeConstructor) :
  accepts validTypes C = false <-> ~ accepted validTypes C.
Proof.
  rewrite <- accepts_accepted. destruct (accepts validTypes C); split; congruence.
Qed.

(** What [parseItem] does with a wrapper whose class is not ignored. *)
Lemma parseItem_wrapper (data : RawNode) (key0 : string) (rest : list string)
      (validTypes : ValidTypes) (s : ParserState) :
  JS.truthy data = true ->
  JS.Object_keys data = Normal (key0 :: rest) ->
  shouldIgnore (sanitizeClassName key0) = false ->
  parseItem env data validTypes s =
    match dispatch env (sanitizeClassName key0) (JS.prop data key0) s with
    | (Throw e, s1) =>
        (Normal None, report (ev_parse (sanitizeClassName key0) (JS.prop data key0) e) s1)
    | (Normal C, s1) =>
        if accepts validTypes C then
          match new_ env C (JS.prop data key0) s1 with
          | (Normal node, s2) =>
              (Normal (Some node), (_addToMemo (sanitizeClassName key0) node s2).2)
          | (Throw e, s2) =>
              (Normal None,
               report (ev_parse (sanitizeClassName key0) (JS.prop data key0) e) s2)
          end
        else
          (Normal None,
           report (ev_typecheck (sanitizeClassName key0) (JS.prop data key0)
                     (expected_of validTypes)) s1)
    end.
Proof.
  intros Ht Hk Hi. pose proof (get_not_nullish data key0 (truthy_not_nullish _ Ht)) as Hg.
  unfold parseItem, dispatch, construct. rewrite Ht, Hk. cbn [negb].
  unfold bind at 1. unfold lift at 1. cbv beta iota. rewrite Hi, !Hg. cbn [negb].
  unfold try_catch, bind, lift, ret, hasParser, ERROR_HANDLER, _addToMemo.
  destruct (bool_decide (is_Some (RUNTIME_NODES s !! sanitizeClassName key0)));
    [ destruct (getParserByName (sanitizeClassName key0) s) as [[C|e] s1]
    | destruct (generateRuntimeClass env (sanitizeClassName key0) (JS.prop data key0) s)
        as [[C|e] s1] ];
    try reflexivity;
    (destruct validTypes as [|t|types]; cbn [accepts expected_of];
     [ | destruct (String.eqb (type C) (type t)); cbn [negb]; [|reflexivity]
       | destruct (existsb _ types); cbn [negb]; [|reflexivity] ];
     destruct (new_ env C (JS.prop data key0) s1) as [[node|e] s2]; try reflexivity;
     destruct (MEMO s2); reflexivity).
Qed.


Lemma parseItem_total (data : RawNode) (validTypes : ValidTypes) (s : ParserState) :
  exists result s', parseItem env data validTypes s = (Normal result, s').
Proof.
  destruct (JS.truthy data) eqn:Ht.
  - pose proof (Object_keys_truthy data Ht) as Hk.
    destruct ((JS.own_entries data).*1) as [|key0 rest] eqn:Hkeys.
    + unfold parseItem. rewrite Ht, Hk. cbn. eauto.
    + destruct (shouldIgnore (sanitizeClassName key0)) eqn:Hi.
      * unfold parseItem. rewrite Ht, Hk. cbn [negb]. unfold bind, lift.
        rewrite Hi. cbn. eauto.
      * rewrite (parseItem_wrapper data key0 rest validTypes s Ht Hk Hi).
        destruct (dispatch env _ _ s) as [[C|e] s1]; [|eauto].
        destruct (accepts validTypes C); [|eauto].
        destruct (new_ env C _ s1) as [[node|e] s2]; eauto.
  - unfold parseItem. rewrite Ht. cbn. eauto.
Qed.

Lemma parseItems_acc (items : list RawNode) (validTypes : ValidTypes)
      (results : list YTNode) (s : ParserState) :
  parseItems env items validTypes results s =
    match parseItems env items validTypes [] s with
    | (Normal nodes, s') => (Normal (results ++ nodes), s')
    | (Throw e, s') => (Throw e, s')
    end.
Proof.
  revert results s. induction items as [|item rest IH]; intros results s.
  - cbn. rewrite app_nil_r. reflexivity.
  - cbn [parseItems]. unfold bind.
    destruct (parseItem env item validTypes s) as [[result|e] s1]; [|reflexivity].
    rewrite IH. rewrite (IH (match result with Some node => [] ++ [node] | None => [] end)).
    destruct (parseItems env rest validTypes [] s1) as [[nodes|e] s2]; [|reflexivity].
    destruct result; cbn; rewrite <- ?app_assoc; reflexivity.
Qed.

Lemma parseItems_app (pre post : list RawNode) (validTypes : ValidTypes)
      (results : list YTNode) (s : ParserState) :
  parseItems env (pre ++ post) validTypes results s =
    match parseItems env pre validTypes results s with
    | (Normal results', s') => parseItems env post validTypes results' s'
    | (Throw e, s') => (Throw e, s')
    end.
Proof.
  revert results s. induction pre as [|item rest IH]; intros results s.
  - reflexivity.
  - cbn [parseItems app]. unfold bind.
    destruct (parseItem env item validTypes s) as [[result|e] s1]; [|reflexivity].
    apply IH.
Qed.

Lemma parseItems_total (items : list RawNode) (validTypes : ValidTypes)
      (results : list YTNode) (s : ParserState) :
  exists nodes s', parseItems env items validTypes results s = (Normal nodes, s').
Proof.
  revert results s. induction items as [|item rest IH]; intros results s.
  - cbn. eauto.
  - cbn [parseItems]. unfold bind.
    destruct (parseItem_total item validTypes s) as (result & s1 & ->). apply IH.
Qed.

(** An array never makes [parseArray] throw. *)
Lemma parseArray_total (items : list RawNode) (validTypes : ValidTypes) (s : ParserState) :
  exists nodes s', parseArray env (JArr items) validTypes s = (Normal nodes, s').
Proof. apply parseItems_total. Qed.

End ItemParser.

(** C8.  [parseItem] never throws, whatever its input.  [parseArray]
    returns normally on every array; on any other input it throws
    ['Expected array but got a single item'] when the input is present
    (truthy) and returns an empty observed array, the state untouched, when
    it is absent.  In particular [parseArray(undefined)] is empty and
    [parseArray] of a single wrapper throws. *)
Theorem parse_item_never_throws_parse_array_shape
        (env : Env) (data : RawNode) (validTypes : ValidTypes) (s : ParserState) :
  (exists result s', parseItem env data validTypes s = (Normal result, s'))
  /\ match data with
     | JArr _ => exists nodes s', parseArray env data validTypes s = (Normal nodes, s')
     | _ =>
         parseArray env data validTypes s =
           if JS.truthy data
           then (Throw (ParsingError "Expected array but got a single item"), s)
           else (Normal [], s)
     end
  /\ parseArray env JUndefined validTypes s = (Normal [], s)
  /\ forall props,
       parseArray env (JObj props) validTypes s
       = (Throw (ParsingError "Expected array but got a single item"), s).
Proof.
  split; [apply parseItem_total|]. split; [|split; [reflexivity | reflexivity]].
  destruct data as [| |b|n|str|items|props]; try (apply parseArray_total);
    unfold parseArray, JS.truthy; try reflexivity.
  - destruct b; reflexivity.
  - destruct (n =? 0)%Z; reflexivity.
  - destruct (String.eqb str ""); reflexivity.
Qed.

(** C6.  A wrapper whose class is not ignored is first dispatched to its
    class [C].  With allowed types given, when the type tag of [C] equals
    the tag of none of them, [parseItem] returns empty and reports exactly
    one typecheck event, which carries the class name and the expected
    tags; the constructor is not invoked (any other constructors give the
    same outcome) and the memo is as dispatch left it.  When the tag equals
    the tag of an allowed type, the node that the constructor builds is
    returned and recorded, and [parseItem] reports nothing. *)
Theorem parse_item_type_filter
        (env : Env) (data : RawNode) (key0 : string) (rest : list string)
        (validTypes : ValidTypes) (s s1 : ParserState) (C : YTNodeConstructor) :
  JS.truthy data = true ->
  JS.Object_keys data = Normal (key0 :: rest) ->
  shouldIgnore (sanitizeClassName key0) = false ->
  validTypes <> AnyType ->
  dispatch env (sanitizeClassName key0) (JS.prop data key0) s = (Normal C, s1) ->
  (~ accepted validTypes C ->
     forall new',
       exists s',
         parseItem (with_constructors env new') data validTypes s = (Normal None, s')
         /\ reported s' =
              reported s1
                ++ [ev_typecheck (sanitizeClassName key0) (JS.prop data key0)
                      (expected_of validTypes)]
         /\ heap s' = heap s1 /\ MEMO s' = MEMO s1
         /\ RUNTIME_NODES s' = RUNTIME_NODES s1)
  /\ (~ accepted validTypes C -> type C = sanitizeClassName key0 ->
      parseItem env data validTypes s
      = (Normal None,
         report (ev_typecheck (type C) (JS.prop data key0) (expected_of validTypes)) s1))
  /\ (accepted validTypes C ->
      forall node s2,
        new_ env C (JS.prop data key0) s1 = (Normal node, s2) ->
        parseItem env data validTypes s
        = (Normal (Some node), (_addToMemo (sanitizeClassName key0) node s2).2)
        /\ reported (_addToMemo (sanitizeClassName key0) node s2).2 = reported s2).
Proof.
  intros Ht Hk Hi Hv Hd. split; [|split].
  - intros Hr new'. apply accepts_rejected in Hr.
    rewrite (parseItem_wrapper _ data key0 rest validTypes s Ht Hk Hi).
    change (dispatch (with_constructors env new')) with (dispatch env).
    rewrite Hd, Hr. eexists. split; [reflexivity|]. cbn. auto.
  - intros Hr Htag. apply accepts_rejected in Hr.
    rewrite (parseItem_wrapper _ data key0 rest validTypes s Ht Hk Hi), Hd, Hr, Htag.
    reflexivity.
  - intros Ha node s2 Hn. apply accepts_accepted in Ha.
    rewrite (parseItem_wrapper _ data key0 rest validTypes s Ht Hk Hi), Hd, Ha, Hn.
    split; [reflexivity|]. unfold _addToMemo. destruct (MEMO s2); reflexivity.
Qed.

Lemma parse_item_type_filter_witness :
  (exists s',
      parseItem (with_constructors Demo.env Demo.new_node) (Demo.video "a")
        (TypeList [Alert; AlertWithButton]) Demo.initial = (Normal None, s')
      /\ reported s' =
           [ev_typecheck "Video" (JObj [("videoId", JStr "a")])
              (ExpectedTypes ["Alert"; "AlertWithButton"])]
      /\ heap s' = [] /\ MEMO s' = None
      /\ RUNTIME_NODES s' = Demo.registry)
  /\ parseItem Demo.env (Demo.video "a") (OneType Alert) Demo.initial
     = (Normal None,
        report (ev_typecheck "Video" (JObj [("videoId", JStr "a")])
                  (ExpectedType "Alert")) Demo.initial)
  /\ parseItem Demo.env (Demo.video "a") (TypeList [Alert; node_class "Video"])
       Demo.initial
     = (Normal (Some (Demo.video_node "a")), Demo.initial).
Proof.
  split; [|split].
  - apply (proj1 (parse_item_type_filter Demo.env (Demo.video "a") "videoRenderer" []
                    (TypeList [Alert; AlertWithButton]) Demo.initial Demo.initial
                    (node_class "Video") eq_refl eq_refl eq_refl
                    ltac:(discriminate) eq_refl)).
    intros (t & [<- | [<- | []]] & Ht); discriminate Ht.
  - refine (proj1 (proj2 (parse_item_type_filter Demo.env (Demo.video "a")
                            "videoRenderer" [] (OneType Alert) Demo.initial
                            Demo.initial (node_class "Video") eq_refl eq_refl eq_refl
                            ltac:(discriminate) eq_refl))
              _ eq_refl).
    cbn. discriminate.
  - refine (proj1 (proj2 (proj2 (parse_item_type_filter Demo.env (Demo.video "a")
                                   "videoRenderer" []
                                   (TypeList [Alert; node_class "Video"]) Demo.initial
                                   Demo.initial (node_class "Video") eq_refl eq_refl
                                   eq_refl ltac:(discriminate) eq_refl))
                    _ (Demo.video_node "a") Demo.initial eq_refl)).
    exists (node_class "Video"). split; [right; left; reflexivity | reflexivity].
Defined.

Lemma parse_events_report (e : ParserError) (s : ParserState) :
  parse_events (report e s)
  = parse_events s ++ (if is_parse e then [e] else []).
Proof.
  unfold parse_events. cbn [reported report]. rewrite filter_app.
  f_equal. cbn. destruct (is_parse e); reflexivity.
Qed.

(** C7.  Let the constructor of one element [x] of a list throw.  Then
    [parseArray] does not throw: it returns the nodes parsed from the
    elements before [x] followed by the nodes parsed from the elements
    after [x], the slot of [x] is empty, and [x] causes exactly one parse
    event; when nothing else reports a parse event, that event is the only
    one added. *)
Theorem parse_array_survives_a_throwing_constructor
        (env : Env) (pre post : list RawNode) (x : RawNode) (validTypes : ValidTypes)
        (s s1 s1' s2 s3 : ParserState) (nodes_pre nodes_post : list YTNode)
        (key0 : string) (rest : list string) (C : YTNodeConstructor) (e : Exception) :
  parseArray env (JArr pre) validTypes s = (Normal nodes_pre, s1) ->
  JS.truthy x = true ->
  JS.Object_keys x = Normal (key0 :: rest) ->
  shouldIgnore (sanitizeClassName key0) = false ->
  dispatch env (sanitizeClassName key0) (JS.prop x key0) s1 = (Normal C, s1') ->
  accepted validTypes C ->
  new_ env C (JS.prop x key0) s1' = (Throw e, s2) ->
  parseArray env (JArr post) validTypes
    (report (ev_parse (sanitizeClassName key0) (JS.prop x key0) e) s2)
  = (Normal nodes_post, s3) ->
  parseArray env (JArr (pre ++ x :: post)) validTypes s
  = (Normal (nodes_pre ++ nodes_post), s3)
  /\ parseItem env x validTypes s1
     = (Normal None, report (ev_parse (sanitizeClassName key0) (JS.prop x key0) e) s2)
  /\ (parse_events s1 = parse_events s ->
      parse_events s2 = parse_events s1 ->
      parse_events s3
      = parse_events (report (ev_parse (sanitizeClassName key0) (JS.prop x key0) e) s2) ->
      parse_events s3
      = parse_events s ++ [ev_parse (sanitizeClassName key0) (JS.prop x key0) e]).
Proof.
  intros Hpre Ht Hk Hi Hd Ha Hn Hpost.
  assert (Hx : parseItem env x validTypes s1
               = (Normal None,
                  report (ev_parse (sanitizeClassName key0) (JS.prop x key0) e) s2)).
  { rewrite (parseItem_wrapper env x key0 rest validTypes s1 Ht Hk Hi), Hd.
    apply accepts_accepted in Ha. rewrite Ha, Hn. reflexivity. }
  split; [|split; [exact Hx|]].
  - unfold parseArray in *. rewrite parseItems_app, Hpre.
    cbn [parseItems]. unfold bind. rewrite Hx.
    rewrite parseItems_acc, Hpost. reflexivity.
  - intros H1 H2 H3. rewrite H3, parse_events_report, H2, H1. reflexivity.
Qed.

Lemma parse_array_survives_a_throwing_constructor_witness :
  parseArray Demo.env
    (JArr ([Demo.video "a"]
             ++ JObj [("brokenVideoRenderer", JNull)] :: [Demo.video "b"]))
    AnyType Demo.initial
  = (Normal ([Demo.video_node "a"] ++ [Demo.video_node "b"]),
     report (ev_parse "BrokenVideo" JNull (Error "broken body")) Demo.initial)
  /\ parse_events
       (report (ev_parse "BrokenVideo" JNull (Error "broken body")) Demo.initial)
     = parse_events Demo.initial
         ++ [ev_parse "BrokenVideo" JNull (Error "broken body")].
Proof.
  pose proof (parse_array_survives_a_throwing_constructor Demo.env
                [Demo.video "a"] [Demo.video "b"]
                (JObj [("brokenVideoRenderer", JNull)]) AnyType
                Demo.initial Demo.initial Demo.initial Demo.initial
                (report (ev_parse "BrokenVideo" JNull (Error "broken body"))
                   Demo.initial)
                [Demo.video_node "a"] [Demo.video_node "b"]
                "brokenVideoRenderer" [] (node_class "BrokenVideo")
                (Error "broken body")
                eq_refl eq_refl eq_refl eq_refl eq_refl I eq_refl eq_refl) as H.
  split; [exact (proj1 H) | exact (proj2 (proj2 H) eq_refl eq_refl eq_refl)].
Defined.

(** ** Keys of commands keep their suffix *)

Section Suffixes.

Import JSString.

Lemma ends_with_app (suffix pre : string) : ends_with suffix (pre +:+ suffix) = true.
Proof.
  induction pre as [|c r IH].
  - change ("" +:+ suffix) with suffix.
    destruct suffix; cbn [ends_with]; rewrite String.eqb_refl; reflexivity.
  - change (String c r +:+ suffix) with (String c (r +:+ suffix)).
    cbn [ends_with]. rewrite IH. destruct (String.eqb _ _); reflexivity.
Qed.

Lemma ends_with_inv (suffix s : string) :
  ends_with suffix s = true -> exists pre, s = pre +:+ suffix.
Proof.
  induction s as [|c r IH].
  - cbn [ends_with]. destruct (String.eqb "" suffix) eqn:E; [|destruct suffix; discriminate].
    apply String.eqb_eq in E. subst. exists "". reflexivity.
  - cbn [ends_with]. destruct (String.eqb (String c r) suffix) eqn:E.
    + apply String.eqb_eq in E. intros _. exists "". rewrite <- E. reflexivity.
    + intros H. destruct (IH H) as [pre ->]. exists (String c pre). reflexivity.
Qed.

(** A literal that starts before [u] in [t +:+ u] and reaches into it
    holds the first character of [u]. *)
Lemma prefix_reaches (p t u : string) :
  String.prefix p (t +:+ u) = true -> String.length t < String.length p ->
  String.get (String.length t) p = String.get 0 u.
Proof.
  revert p. induction t as [|c r IH]; intros p Hp Hl.
  - destruct p as [|a p]; [cbn in Hl; lia|].
    change ("" +:+ u) with u in Hp. destruct u as [|b u]; [discriminate Hp|].
    cbn in Hp. revert Hp. destruct (ascii_dec a b); [subst; reflexivity | intros [=]].
  - destruct p as [|a p]; [cbn in Hl; lia|].
    change (String c r +:+ u) with (String c (r +:+ u)) in Hp.
    cbn in Hp, Hl. revert Hp. destruct (ascii_dec a c); [|intros [=]].
    intros Hp. cbn. apply IH; [exact Hp | lia].
Qed.

Lemma occurs_get (c : ascii) (p : string) (n : nat) :
  occurs c p = false -> String.get n p <> Some c.
Proof.
  revert n. induction p as [|a r IH]; intros n H; [destruct n; discriminate|].
  cbn in H. apply orb_false_iff in H as [Ha Hr].
  destruct n; cbn.
  - intros [= ->]. rewrite Ascii.eqb_refl in Ha. discriminate.
  - apply IH, Hr.
Qed.

Lemma first_match_In alts (s p : string) :
  first_match alts s = Some p -> In p alts /\ String.prefix p s = true.
Proof.
  induction alts as [|a alts IH]; [discriminate|].
  cbn [first_match]. destruct (String.prefix a s) eqn:E.
  - intros [= <-]. split; [left; reflexivity | exact E].
  - intros H. destruct (IH H). split; [right|]; assumption.
Qed.

(** A global replacement leaves a suffix alone that it would leave alone on
    its own and whose first character is in none of the literals. *)
Lemma replace_scan_suffix alts by_ (c : ascii) (u : string) :
  forallb (fun p => negb (occurs c p)) alts = true ->
  replace_scan alts by_ 0 (String c u) = String c u ->
  forall pre skip, skip <= String.length pre ->
    exists pre', replace_scan alts by_ skip (pre +:+ String c u) = pre' +:+ String c u.
Proof.
  intros Halts Hu. induction pre as [|a r IH]; intros skip Hs.
  - cbn in Hs. assert (skip = 0) as -> by lia. exists "". exact Hu.
  - change (String a r +:+ String c u) with (String a (r +:+ String c u)).
    cbn [replace_scan]. destruct skip as [|k].
    + destruct (first_match alts (String a (r +:+ String c u))) as [p|] eqn:E.
      * destruct (first_match_In _ _ _ E) as [Hin Hp].
        assert (String.length p <= S (String.length r)) as Hl.
        { destruct (le_lt_dec (String.length p) (S (String.length r))) as [|Hlt];
            [assumption|exfalso].
          pose proof (prefix_reaches p (String a r) (String c u) Hp Hlt) as Hg.
          rewrite forallb_forall in Halts. specialize (Halts p Hin).
          apply negb_true_iff in Halts.
          exact (occurs_get c p _ Halts Hg). }
        destruct (IH (String.length p - 1)) as [pre' ->]; [lia|].
        exists (by_ +:+ pre').
        clear. induction by_ as [|b by_ IHb]; [reflexivity|].
        change (String b (by_ +:+ pre' +:+ String c u)
                = String b ((by_ +:+ pre') +:+ String c u)).
        f_equal. exact IHb.
      * destruct (IH 0) as [pre' ->]; [lia|]. exists (String a pre'). reflexivity.
    + cbn in Hs. apply IH. lia.
Qed.

Lemma trimStart_suffix (c : ascii) (u pre : string) :
  is_space c = false ->
  exists pre', trimStart (pre +:+ String c u) = pre' +:+ String c u.
Proof.
  intros Hc. induction pre as [|a r IH].
  - exists "". change ("" +:+ String c u) with (String c u).
    cbn [trimStart]. rewrite Hc. reflexivity.
  - change (String a r +:+ String c u) with (String a (r +:+ String c u)).
    cbn [trimStart]. destruct (is_space a); [exact IH|].
    exists (String a r). reflexivity.
Qed.

Lemma trimEnd_suffix (c : ascii) (u pre : string) :
  trimEnd (String c u) = String c u ->
  trimEnd (pre +:+ String c u) = pre +:+ String c u.
Proof.
  intros Hu. induction pre as [|a r IH]; [exact Hu|].
  change (String a r +:+ String c u) with (String a (r +:+ String c u)).
  cbn [trimEnd]. rewrite IH. destruct r; reflexivity.
Qed.

Lemma capitalize_suffix (c : ascii) (u pre : string) :
  is_lower c = false ->
  exists pre',
    toUpperCase (charAt 0 (pre +:+ String c u)) +:+ slice 1 (pre +:+ String c u)
    = pre' +:+ String c u.
Proof.
  intros Hc. destruct pre as [|a r].
  - exists "". change ("" +:+ String c u) with (String c u).
    cbn [charAt String.get toUpperCase slice]. unfold upper_char. rewrite Hc.
    reflexivity.
  - exists (String (upper_char a) r). reflexivity.
Qed.

(** The sanitized name of a key keeps the suffix of the key. *)
Lemma sanitizeClassName_suffix (c : ascii) (u key : string) :
  is_lower c = false -> is_space c = false ->
  occurs c "Renderer" || occurs c "Model" || occurs c "Radio" = false ->
  replace_g ["Renderer"; "Model"] "" (String c u) = String c u ->
  replace_g ["Radio"] "Mix" (String c u) = String c u ->
  trimEnd (String c u) = String c u ->
  ends_with (String c u) key = true ->
  ends_with (String c u) (sanitizeClassName key) = true.
Proof.
  intros Hl Hs Ho H1 H2 H3 Hk.
  apply orb_false_iff in Ho as [Ho Ho3]. apply orb_false_iff in Ho as [Ho1 Ho2].
  destruct (ends_with_inv _ _ Hk) as [pre ->].
  unfold sanitizeClassName, replace_g, trim.
  destruct (capitalize_suffix c u pre Hl) as [p1 ->].
  destruct (replace_scan_suffix ["Renderer"; "Model"] "" c u) with (pre := p1) (skip := 0)
    as [p2 ->]; [cbn [forallb]; rewrite Ho1, Ho2; reflexivity | exact H1 | lia |].
  destruct (replace_scan_suffix ["Radio"] "Mix" c u) with (pre := p2) (skip := 0)
    as [p3 ->]; [cbn [forallb]; rewrite Ho3; reflexivity | exact H2 | lia |].
  destruct (trimStart_suffix c u p3 Hs) as [p4 ->].
  rewrite (trimEnd_suffix c u p4 H3).
  apply ends_with_app.
Qed.

(** None of the ignored names has one of the three suffixes. *)
Lemma ignored_names_are_no_commands :
  forallb (fun ignored =>
             negb (command_regexp ignored || endpoint_regexp ignored
                   || action_regexp ignored))
    (elements IGNORED_LIST) = true.
Proof. vm_compute. reflexivity. Qed.

(** The IGNORED test of [parseCommand] never fires: the sanitized name of a
    key with one of the three suffixes has that suffix, and no ignored name
    has one. *)
Lemma command_never_ignored (key : string) :
  command_regexp key || endpoint_regexp key || action_regexp key = true ->
  shouldIgnore (sanitizeClassName key) = false.
Proof.
  intros Hk.
  assert (command_regexp (sanitizeClassName key)
          || endpoint_regexp (sanitizeClassName key)
          || action_regexp (sanitizeClassName key) = true) as Hs.
  { unfold command_regexp, endpoint_regexp, action_regexp in *.
    apply orb_true_iff in Hk as [Hk|Hk]; [apply orb_true_iff in Hk as [Hk|Hk]|].
    - rewrite (sanitizeClassName_suffix _ _ key) by (reflexivity || exact Hk).
      reflexivity.
    - rewrite (sanitizeClassName_suffix "E" "ndpoint" key)
        by (reflexivity || exact Hk).
      rewrite orb_true_r. reflexivity.
    - rewrite (sanitizeClassName_suffix "A" "ction" key)
        by (reflexivity || exact Hk).
      rewrite orb_true_r. reflexivity. }
  unfold shouldIgnore. apply bool_decide_eq_false. intros Hin.
  apply elem_of_elements in Hin.
  pose proof ignored_names_are_no_commands as Hall.
  rewrite forallb_forall in Hall.
  apply list_elem_of_In in Hin. specialize (Hall _ Hin).
  rewrite Hs in Hall. discriminate.
Qed.

End Suffixes.

(** ** The command parser *)

Section CommandParser.

Variable env : Env.

Lemma Object_keys_Normal (data : RawNode) (keys : list string) :
  JS.Object_keys data = Normal keys -> JS.nullish data = false.
Proof. unfold JS.Object_keys. destruct (JS.nullish data); [discriminate | reflexivity]. Qed.

(** One turn of the loop of [parseCommand]. *)
Lemma parseCommand_keys_cons (data : RawNode) (key : string) (rest : list string)
      (s : ParserState) :
  JS.nullish data = false ->
  parseCommand_keys env data (key :: rest) s =
    if command_regexp key || endpoint_regexp key || action_regexp key then
      if shouldIgnore (sanitizeClassName key) then (Normal None, s)
      else
        match RUNTIME_NODES s !! sanitizeClassName key with
        | Some C =>
            match new_ env C (JS.prop data key) s with
            | (Normal node, s') => (Normal (Some node), s')
            | (Throw e, s') =>
                parseCommand_keys env data rest
                  (report (ev_parse (sanitizeClassName key) (JS.prop data key) e) s')
            end
        | None => parseCommand_keys env data rest s
        end
    else parseCommand_keys env data rest s.
Proof.
  intros Hn. cbn [parseCommand_keys]. unfold bind at 1. unfold lift at 1.
  rewrite (get_not_nullish data key Hn).
  destruct (command_regexp key || endpoint_regexp key || action_regexp key);
    [|reflexivity].
  destruct (shouldIgnore (sanitizeClassName key)); [reflexivity|].
  unfold bind, try_catch, bind, hasParser, getParserByName, ERROR_HANDLER, ret.
  cbv beta iota.
  destruct (RUNTIME_NODES s !! sanitizeClassName key) as [C|] eqn:HC.
  - rewrite bool_decide_eq_true_2 by eauto. cbv beta iota. rewrite HC.
    destruct (new_ env C (JS.prop data key) s) as [[node|e] s']; reflexivity.
  - rewrite bool_decide_eq_false_2 by (intros [? ?]; discriminate). reflexivity.
Qed.

Lemma parseCommand_Normal_keys (data : RawNode) (keys : list string) (s : ParserState) :
  JS.Object_keys data = Normal keys ->
  parseCommand env data s = parseCommand_keys env data keys s.
Proof.
  intros Hk. unfold parseCommand, bind, try_catch, lift. rewrite Hk. reflexivity.
Qed.

Lemma parseCommand_keys_passed_over (data : RawNode) (pre rest : list string)
      (s : ParserState) :
  JS.nullish data = false ->
  Forall (passed_over s) pre ->
  parseCommand_keys env data (pre ++ rest) s = parseCommand_keys env data rest s.
Proof.
  intros Hn. induction 1 as [|key pre Hkey _ IH]; [reflexivity|].
  cbn [app]. rewrite (parseCommand_keys_cons data key (pre ++ rest) s Hn).
  destruct Hkey as [-> | [-> ->]]; [exact IH|].
  destruct (command_regexp key || endpoint_regexp key || action_regexp key); exact IH.
Qed.

End CommandParser.

(** C1 (amended).  [parseCommand] scans the keys in declared order.  A key
    that has none of the suffixes [Command], [Endpoint], [Action] is passed
    over, and so is, with no event and no stub synthesis, a key with such a
    suffix whose sanitized name is not registered; when only such keys are
    there, the result is empty and the state is untouched.  The sanitized
    name of a key with one of the suffixes is never in the IGNORED set, so
    the test of line 673 does not end the scan.  At the first key with a
    suffix and a registered class the constructor is invoked on the value of
    the key: on success that node is returned, and if the constructor
    throws, exactly one parse error event is reported for that key and the
    scan goes on with the later keys. *)
Theorem parse_command_scan (env : Env) (data : RawNode) (s : ParserState) :
  (JS.nullish data = true -> parseCommand env data s = (Normal None, s))
  /\ (forall keys,
         JS.Object_keys data = Normal keys ->
         Forall (passed_over s) keys ->
         parseCommand env data s = (Normal None, s))
  /\ (forall pre key post,
         JS.Object_keys data = Normal (pre ++ key :: post) ->
         Forall (passed_over s) pre ->
         command_regexp key || endpoint_regexp key || action_regexp key = true ->
         shouldIgnore (sanitizeClassName key) = false
         /\ (forall C,
                RUNTIME_NODES s !! sanitizeClassName key = Some C ->
                (forall node s',
                    new_ env C (JS.prop data key) s = (Normal node, s') ->
                    parseCommand env data s = (Normal (Some node), s'))
                /\ (forall e s',
                       new_ env C (JS.prop data key) s = (Throw e, s') ->
                       parseCommand env data s
                       = parseCommand_keys env data post
                           (report (ev_parse (sanitizeClassName key) (JS.prop data key) e)
                              s')))).
Proof.
  split; [|split].
  - intros Hn. unfold parseCommand, bind, try_catch, lift, JS.Object_keys.
    rewrite Hn. reflexivity.
  - intros keys Hk Hp. rewrite (parseCommand_Normal_keys env data keys s Hk).
    rewrite <- (app_nil_r keys).
    apply (parseCommand_keys_passed_over env data keys [] s
             (Object_keys_Normal _ _ Hk) Hp).
  - intros pre key post Hk Hp Hkey.
    pose proof (Object_keys_Normal _ _ Hk) as Hn.
    pose proof (command_never_ignored key Hkey) as Hi.
    split; [exact Hi|].
    rewrite (parseCommand_Normal_keys env data _ s Hk).
    rewrite (parseCommand_keys_passed_over env data pre (key :: post) s Hn Hp).
    rewrite (parseCommand_keys_cons env data key post s Hn), Hkey, Hi.
    intros C ->. split; intros ? s' ->; reflexivity.
Qed.

Lemma parse_command_scan_witness :
  parseCommand Demo.env Demo.command Demo.initial
  = parseCommand_keys Demo.env Demo.command ["watchEndpoint"]
      (report (ev_parse "BrokenCommand" JNull (Error "broken body")) Demo.initial)
  /\ parseCommand Demo.env
       (JObj [("clickTrackingParams", JStr "x");
              ("watchEndpoint", JObj [("videoId", JStr "v")])])
       Demo.initial
     = (Normal (Some Demo.watch_endpoint), Demo.initial)
  /\ parseCommand Demo.env
       (JObj [("clickTrackingParams", JStr "x"); ("unknownCommand", JObj [])])
       Demo.initial
     = (Normal None, Demo.initial).
Proof.
  split; [|split].
  - refine (proj2 (proj2 (proj2 (proj2 (parse_command_scan Demo.env Demo.command
                                          Demo.initial))
                            ["clickTrackingParams"] "brokenCommand" ["watchEndpoint"]
                            eq_refl _ eq_refl)
                     (node_class "BrokenCommand") eq_refl)
              (Error "broken body") Demo.initial eq_refl).
    constructor; [left; reflexivity | constructor].
  - refine (proj1 (proj2 (proj2 (proj2 (parse_command_scan Demo.env
                                          (JObj [("clickTrackingParams", JStr "x");
                                                 ("watchEndpoint",
                                                  JObj [("videoId", JStr "v")])])
                                          Demo.initial))
                            ["clickTrackingParams"] "watchEndpoint" []
                            eq_refl _ eq_refl)
                     (node_class "WatchEndpoint") eq_refl)
              Demo.watch_endpoint Demo.initial eq_refl).
    constructor; [left; reflexivity | constructor].
  - refine (proj1 (proj2 (parse_command_scan Demo.env
                            (JObj [("clickTrackingParams", JStr "x");
                                   ("unknownCommand", JObj [])])
                            Demo.initial))
              ["clickTrackingParams"; "unknownCommand"] eq_refl _).
    constructor; [left; reflexivity|].
    constructor; [right; split; reflexivity | constructor].
Defined.

(** C1 as stated fails.  In [Demo.command] the first key with a command
    suffix is [brokenCommand]; its class is registered and its constructor
    throws.  The result is not empty: the later sibling [watchEndpoint] is
    dispatched and its node returned. *)
Lemma parse_command_dispatches_a_later_sibling :
  JS.Object_keys Demo.command
  = Normal ["clickTrackingParams"; "brokenCommand"; "watchEndpoint"]
  /\ command_regexp "clickTrackingParams" || endpoint_regexp "clickTrackingParams"
     || action_regexp "clickTrackingParams" = false
  /\ command_regexp "brokenCommand" = true
  /\ RUNTIME_NODES Demo.initial !! sanitizeClassName "brokenCommand"
     = Some (node_class "BrokenCommand")
  /\ new_ Demo.env (node_class "BrokenCommand") (JS.prop Demo.command "brokenCommand")
       Demo.initial
     = (Throw (Error "broken body"), Demo.initial)
  /\ parseCommand Demo.env Demo.command Demo.initial
     = (Normal (Some Demo.watch_endpoint),
        report (ev_parse "BrokenCommand" JNull (Error "broken body")) Demo.initial).
Proof. repeat split; reflexivity. Qed.

(** ** The comment mutation pass *)

Lemma applyCommentsMutations_without_mutations
      (env : Env) (memo : nat) (s : ParserState) :
  Memo.getType CommentView (deref memo s) <> [] ->
  applyCommentsMutations env memo JUndefined s
  = (Throw (TypeError "Cannot read properties of undefined (reading 'find')"),
     report (ev_mutation_data_missing "CommentView") s).
Proof.
  intros Hne. unfold applyCommentsMutations, bind at 1, Memo_getType.
  destruct (Memo.getType CommentView (deref memo s)) as [|comment_view rest];
    [congruence|].
  reflexivity.
Qed.

(** C2 fails on the code.  With a comment view in the memo and no
    mutations list, [applyCommentsMutations] reports
    [mutation_data_missing] and then throws the [TypeError] of
    [mutations.find]: it does not return normally. *)
Theorem comment_views_without_mutations_throw :
  Memo.getType CommentView (deref 0 (Demo.holding Demo.comment_memo))
  = [Demo.comment_view]
  /\ applyCommentsMutations Demo.env 0 JUndefined (Demo.holding Demo.comment_memo)
     = (Throw (TypeError "Cannot read properties of undefined (reading 'find')"),
        report (ev_mutation_data_missing "CommentView")
          (Demo.holding Demo.comment_memo)).
Proof.
  split; [reflexivity|].
  apply applyCommentsMutations_without_mutations. discriminate.
Qed.

(** ** The mutation passes *)

Section MutationPasses.

Variable env : Env.

Lemma nodes_at_update_node (memo : nat) (classname : string) (i : nat)
      (f : YTNode -> YTNode) (s : ParserState) :
  nodes_at (update_node memo classname i f s).2 memo classname
  = alter f i (nodes_at s memo classname).
Proof.
  unfold nodes_at, deref, update_node. cbn [snd heap set_heap].
  rewrite list_lookup_alter_eq. destruct (heap s !! memo) as [m|]; cbn; [|reflexivity].
  rewrite lookup_alter_eq. destruct (m !! classname); reflexivity.
Qed.

Lemma only_nodes_at_refl (memo : nat) (classname : string) (s : ParserState) :
  only_nodes_at memo classname s s.
Proof. repeat split. Qed.

Lemma only_nodes_at_trans (memo : nat) (classname : string) (s1 s2 s3 : ParserState) :
  only_nodes_at memo classname s1 s2 -> only_nodes_at memo classname s2 s3 ->
  only_nodes_at memo classname s1 s3.
Proof.
  intros (A1 & A2 & A3 & A4 & A5 & A6) (B1 & B2 & B3 & B4 & B5 & B6).
  repeat split; try congruence.
  - intros other Ho. rewrite B5, A5; auto.
  - intros k Hk. rewrite B6, A6; auto.
Qed.

Lemma only_nodes_at_update_node (memo : nat) (classname : string) (i : nat)
      (f : YTNode -> YTNode) (s : ParserState) :
  only_nodes_at memo classname s (update_node memo classname i f s).2.
Proof.
  unfold update_node. cbn [snd]. repeat split; cbn [MEMO heap set_heap].
  - apply length_alter.
  - intros other Ho. apply list_lookup_alter_ne. congruence.
  - intros k Hk. unfold deref. cbn [heap set_heap]. rewrite list_lookup_alter_eq.
    destruct (heap s !! memo) as [m|]; cbn; [|reflexivity].
    apply lookup_alter_ne. congruence.
Qed.

Lemma reported_update_node (memo : nat) (classname : string) (i : nat)
      (f : YTNode -> YTNode) (s : ParserState) :
  reported (update_node memo classname i f s).2 = reported s.
Proof. reflexivity. Qed.

(** The mutation that [find] returns and the choice read from it. *)
Lemma find_first_choice (mutations : list RawNode) (key : RawNode) :
  Forall (fun m => is_record m = true) mutations ->
  exists mutation,
    array_find (has_choice_id key) mutations = Normal mutation
    /\ choice_of mutation = Normal (first_choice mutations key).
Proof.
  induction 1 as [|m rest Hm _ IH]; cbn [array_find first_choice].
  - exists JUndefined. split; reflexivity.
  - unfold is_record in Hm. apply andb_true_iff in Hm as [Hm Hp].
    apply negb_true_iff in Hm, Hp.
    unfold has_choice_id, and_then. rewrite (get_not_nullish m "payload" Hm).
    fold (choice_id m). destruct (JS.strict_equals (choice_id m) key).
    + exists m. split; [reflexivity|]. unfold choice_of, and_then.
      rewrite Hm, (get_not_nullish m "payload" Hm). apply get_not_nullish, Hp.
    + exact IH.
Qed.

Lemma valid_choice_not_nullish (choice : RawNode) :
  valid_choice choice = true -> JS.nullish choice = false.
Proof. destruct choice; cbn; congruence. Qed.

(** The loop over the menu items, when every mutation is a record. *)
Lemma multi_select_loop_records (memo : nat) (mutations : list RawNode)
      (items done : list YTNode) (missing : list string) (s : ParserState) :
  Forall (fun m => is_record m = true) mutations ->
  nodes_at s memo (type MusicMultiSelectMenuItem) = done ++ items ->
  exists s',
    multi_select_loop memo (JArr mutations) (length done) items missing s
    = (Normal (missing ++ failed_titles mutations items), s')
    /\ nodes_at s' memo (type MusicMultiSelectMenuItem)
       = done ++ (patched mutations <$> items)
    /\ reported s' = reported s
    /\ only_nodes_at memo (type MusicMultiSelectMenuItem) s s'.
Proof.
  intros Hrec. revert done missing s.
  induction items as [|item rest IH]; intros done missing s Hnodes.
  - exists s. cbn. rewrite app_nil_r. repeat split; auto.
  - cbn [multi_select_loop]. unfold bind at 1. unfold lift at 1. cbn [as_array].
    destruct (find_first_choice mutations (field item "form_item_entity_key") Hrec)
      as (mutation & Hfind & Hchoice).
    unfold bind at 1. unfold lift at 1. rewrite Hfind.
    unfold bind at 1. unfold lift at 1. rewrite Hchoice.
    fold (choice_for mutations item).
    unfold failed_titles. rewrite filter_cons. unfold patched at 1. cbn [fmap list_fmap].
    destruct (valid_choice (choice_for mutations item)) eqn:Hv.
    + unfold bind at 1. unfold lift at 1.
      rewrite (get_not_nullish _ "selected" (valid_choice_not_nullish _ Hv)).
      unfold bind at 1.
      pose (s1 := (update_node memo (type MusicMultiSelectMenuItem) (length done)
                     (set_field "selected"
                        (JS.prop (choice_for mutations item) "selected")) s).2).
      change (update_node memo (type MusicMultiSelectMenuItem) (length done)
                (set_field "selected" (JS.prop (choice_for mutations item) "selected")) s)
        with (Normal tt, s1).
      assert (Hn1 : nodes_at s1 memo (type MusicMultiSelectMenuItem)
                    = (done ++ [set_field "selected"
                                  (JS.prop (choice_for mutations item) "selected") item])
                        ++ rest).
      { unfold s1. rewrite nodes_at_update_node, Hnodes.
        rewrite alter_app_r_alt by lia. rewrite Nat.sub_diag. cbn.
        rewrite <- app_assoc. reflexivity. }
      destruct (IH _ missing s1 Hn1) as (s' & Hrun & Hn' & Hr' & Hf').
      rewrite length_app in Hrun. cbn [length] in Hrun.
      rewrite Nat.add_1_r in Hrun. rewrite decide_False by congruence.
      exists s'. split; [exact Hrun|]. split; [|split].
      * rewrite Hn', <- app_assoc. reflexivity.
      * rewrite Hr'. reflexivity.
      * eapply only_nodes_at_trans; [apply only_nodes_at_update_node | exact Hf'].
    + assert (Hn1 : nodes_at s memo (type MusicMultiSelectMenuItem)
                    = (done ++ [item]) ++ rest).
      { rewrite Hnodes, <- app_assoc. reflexivity. }
      destruct (IH _ (missing ++ ["'" +:+ JS.to_string (field item "title") +:+ "'"])
                  s Hn1) as (s' & Hrun & Hn' & Hr' & Hf').
      rewrite length_app in Hrun. cbn [length] in Hrun.
      rewrite Nat.add_1_r in Hrun. rewrite decide_True by reflexivity.
      exists s'. split; [|split; [|split]]; auto.
      * rewrite Hrun. cbn [fmap list_fmap]. rewrite <- app_assoc. reflexivity.
      * rewrite Hn', <- app_assoc. reflexivity.
Qed.


Lemma nodes_at_getType (s : ParserState) (memo : nat) (C : YTNodeConstructor) :
  Memo.getType C (deref memo s) = nodes_at s memo (type C).
Proof. reflexivity. Qed.

Lemma only_nodes_at_report (memo : nat) (classname : string) (e : ParserError)
      (s s' : ParserState) :
  only_nodes_at memo classname s s' -> only_nodes_at memo classname s (report e s').
Proof. intros H. exact H. Qed.

(** *** The store keeps its node counts *)








(** *** The heat-map pass *)





Lemma lookup_Memo_add (classname : string) (node : YTNode)
      (memo : gmap string (list YTNode)) (k : string) :
  Memo.add classname node memo !! k
  = if decide (classname = k) then Some (default [] (memo !! classname) ++ [node])
    else memo !! k.
Proof.
  unfold Memo.add. destruct (memo !! classname) as [l|] eqn:E;
    rewrite lookup_insert; destruct (decide (classname = k)); reflexivity.
Qed.


End MutationPasses.

(** C3 (amended).  In the MusicMultiSelectMenuItem pass, with a list of
    mutation records: for every MusicMultiSelectMenuItem node of the memo
    the pass takes the first mutation whose
    [payload.musicFormBooleanChoice.id] is strictly equal to the
    [form_item_entity_key] of the node; if that choice has a [selected]
    that is not [undefined] and a truthy [opaqueToken], the [selected] field
    of the node is set to it; every other node contributes its quoted title
    to one aggregated [mutation_data_invalid] event with the total count,
    the failed count and the failed titles, which is reported when at least
    one node failed.  Nothing else changes.  And if the memo has such nodes
    while the mutations list is absent, one [mutation_data_missing] event is
    reported instead. *)
Theorem multi_select_pass (memo : nat) (mutations : RawNode) (s : ParserState) :
  (Memo.getType MusicMultiSelectMenuItem (deref memo s) <> [] ->
   JS.truthy mutations = false ->
   applyMutations_MusicMultiSelectMenuItem memo mutations s
   = (Normal tt, report (ev_mutation_data_missing "MusicMultiSelectMenuItem") s))
  /\ (forall ms,
         mutations = JArr ms ->
         Forall (fun m => is_record m = true) ms ->
         exists s',
           applyMutations_MusicMultiSelectMenuItem memo mutations s = (Normal tt, s')
           /\ Memo.getType MusicMultiSelectMenuItem (deref memo s')
              = patched ms <$> Memo.getType MusicMultiSelectMenuItem (deref memo s)
           /\ reported s'
              = reported s
                  ++ match failed_titles ms
                             (Memo.getType MusicMultiSelectMenuItem (deref memo s)) with
                     | [] => []
                     | titles =>
                         [ev_mutation_data_invalid "MusicMultiSelectMenuItem"
                            (length (Memo.getType MusicMultiSelectMenuItem (deref memo s)))
                            (length titles) titles]
                     end
           /\ only_nodes_at memo "MusicMultiSelectMenuItem" s s').
Proof.
  split.
  - intros Hne Hf. unfold applyMutations_MusicMultiSelectMenuItem, bind, Memo_getType.
    destruct (Memo.getType MusicMultiSelectMenuItem (deref memo s)); [congruence|].
    rewrite Hf. reflexivity.
  - intros ms -> Hrec.
    unfold applyMutations_MusicMultiSelectMenuItem, bind at 1, Memo_getType.
    cbn [JS.truthy negb]. rewrite andb_false_r. unfold bind at 1.
    destruct (multi_select_loop_records memo ms
                (Memo.getType MusicMultiSelectMenuItem (deref memo s)) [] [] s Hrec
                eq_refl) as (s1 & Hrun & Hn & Hr & Hf).
    cbn [length app] in Hrun. rewrite Hrun. cbn [app] in Hn |- *.
    destruct (failed_titles ms (Memo.getType MusicMultiSelectMenuItem (deref memo s)))
      as [|title titles] eqn:Ht; cbn [length Nat.ltb Nat.leb].
    + exists s1. rewrite app_nil_r. repeat split; auto; apply Hf.
    + eexists. split; [reflexivity|]. split; [exact Hn|]. split.
      * cbn [reported report]. rewrite Hr. reflexivity.
      * exact Hf.
Qed.

Lemma multi_select_pass_witness :
  applyMutations_MusicMultiSelectMenuItem 0 JUndefined (Demo.holding Demo.two_items)
  = (Normal tt,
     report (ev_mutation_data_missing "MusicMultiSelectMenuItem")
       (Demo.holding Demo.two_items))
  /\ exists s',
    applyMutations_MusicMultiSelectMenuItem 0 (JArr Demo.one_choice)
      (Demo.holding Demo.two_items) = (Normal tt, s')
    /\ Memo.getType MusicMultiSelectMenuItem (deref 0 s')
       = patched Demo.one_choice
           <$> Memo.getType MusicMultiSelectMenuItem
                 (deref 0 (Demo.holding Demo.two_items))
    /\ reported s'
       = reported (Demo.holding Demo.two_items)
           ++ match failed_titles Demo.one_choice
                      (Memo.getType MusicMultiSelectMenuItem
                         (deref 0 (Demo.holding Demo.two_items))) with
              | [] => []
              | titles =>
                  [ev_mutation_data_invalid "MusicMultiSelectMenuItem"
                     (length (Memo.getType MusicMultiSelectMenuItem
                                (deref 0 (Demo.holding Demo.two_items))))
                     (length titles) titles]
              end
    /\ only_nodes_at 0 "MusicMultiSelectMenuItem" (Demo.holding Demo.two_items) s'.
Proof.
  split.
  - apply (proj1 (multi_select_pass 0 JUndefined (Demo.holding Demo.two_items)));
      [discriminate | reflexivity].
  - apply (proj2 (multi_select_pass 0 (JArr Demo.one_choice)
                    (Demo.holding Demo.two_items)) Demo.one_choice eq_refl).
    repeat constructor.
Defined.

(** The scenario of the specification: of two menu items only the first
    has a matching choice. *)
Example multi_select_scenario :
  exists s',
    applyMutations_MusicMultiSelectMenuItem 0 (JArr Demo.one_choice)
      (Demo.holding Demo.two_items) = (Normal tt, s')
    /\ Memo.getType MusicMultiSelectMenuItem (deref 0 s')
       = [ set_field "selected" (JBool true) (Demo.item "K1" "one");
           Demo.item "K2" "two" ]
    /\ reported s'
       = [ev_mutation_data_invalid "MusicMultiSelectMenuItem" 2 1 ["'two'"]].
Proof. eexists. repeat split; reflexivity. Qed.

(** C3 as stated fails.  The second of [Demo.duplicate_choices] has the
    key of the menu item, a defined [selected] and an [opaqueToken]; yet
    the node is left as it was and reported as failed, because [find]
    stops at the first mutation with that key. *)
Lemma multi_select_pass_takes_the_first_match :
  Memo.getType MusicMultiSelectMenuItem (deref 0 (Demo.holding Demo.menu_memo))
  = [Demo.menu_item]
  /\ (exists mutation,
         In mutation Demo.duplicate_choices
         /\ choice_id mutation = field Demo.menu_item "form_item_entity_key"
         /\ valid_choice (JS.prop (JS.prop mutation "payload") "musicFormBooleanChoice")
            = true)
  /\ applyMutations_MusicMultiSelectMenuItem 0 (JArr Demo.duplicate_choices)
       (Demo.holding Demo.menu_memo)
     = (Normal tt,
        report (ev_mutation_data_invalid "MusicMultiSelectMenuItem" 1 1 ["'T'"])
          (Demo.holding Demo.menu_memo)).
Proof.
  split; [reflexivity|]. split; [|reflexivity].
  eexists. split; [right; left; reflexivity|]. split; reflexivity.
Qed.



(** The scenario of the specification: a memo with no heat-map node and
    one heat-map entity among the mutations. *)
Example heat_map_scenario :
  exists s',
    applyMutations Demo.env 0 (JArr [Demo.heat_map]) (Demo.holding ∅) = (Normal tt, s')
    /\ deref 0 s' !! "MacroMarkersListEntity" = Some [Demo.heat_map_node]
    /\ reported s' = [].
Proof. eexists. repeat split; reflexivity. Qed.

(** ** Runs that return, and fields of nodes *)

Section Steps.

Lemma bind_returns {A B} (m : M A) (f : A -> M B) (s s' : ParserState) (b : B) :
  bind m f s = (Normal b, s') ->
  exists a s1, m s = (Normal a, s1) /\ f a s1 = (Normal b, s').
Proof.
  unfold bind. destruct (m s) as [[a|e] s1]; [eauto | intros [=]].
Qed.

Lemma lift_returns {A} (c : Completion A) (s s' : ParserState) (a : A) :
  lift c s = (Normal a, s') -> c = Normal a /\ s' = s.
Proof. unfold lift. intros [= -> ->]. auto. Qed.

Lemma assoc_set_prop (k k' : string) (v : RawNode) (props : list (string * RawNode)) :
  JS.assoc k' (JS.set_prop k v props)
  = if String.eqb k k' then Some v else JS.assoc k' props.
Proof.
  induction props as [|[k0 v0] props IH]; cbn [JS.set_prop JS.assoc].
  - destruct (String.eqb k k'); reflexivity.
  - destruct (String.eqb k0 k) eqn:E.
    + apply String.eqb_eq in E. subst k0. cbn [JS.assoc].
      destruct (String.eqb k k'); reflexivity.
    + cbn [JS.assoc]. rewrite IH. destruct (String.eqb k0 k') eqn:E'; [|reflexivity].
      apply String.eqb_eq in E'. subst k0. rewrite String.eqb_sym, E. reflexivity.
Qed.

Lemma field_set_field (k : string) (v : RawNode) (node : YTNode) :
  field (set_field k v node) k = v.
Proof. unfold field, set_field. cbn. rewrite assoc_set_prop, String.eqb_refl. reflexivity. Qed.

Lemma same_but_set_field (k : string) (v : RawNode) (node : YTNode) :
  same_but k node (set_field k v node).
Proof.
  split; [reflexivity|]. intros k' Hk. unfold field, set_field. cbn.
  rewrite assoc_set_prop. destruct (String.eqb k k') eqn:E; [|reflexivity].
  apply String.eqb_eq in E. congruence.
Qed.

Lemma same_but_refl (k : string) (node : YTNode) : same_but k node node.
Proof. split; reflexivity. Qed.

Lemma same_but_trans (k : string) (a b c : YTNode) :
  same_but k a b -> same_but k b c -> same_but k a c.
Proof.
  intros [A1 A2] [B1 B2]. split; [congruence|].
  intros k' Hk. rewrite B2, A2; auto.
Qed.

End Steps.

(** ** The memo discipline *)

Create HintDb touches.

Section MemoDiscipline.

Variable env : Env.
Hypothesis Henv : respects_memo env.

Lemma touches_weaken {A} (allowed allowed' : nat -> Prop) (m : M A) :
  (forall memo, allowed memo -> allowed' memo) ->
  touches allowed m -> touches allowed' m.
Proof.
  intros Hsub Hm s. destruct (Hm s) as (H1 & H2 & H3). repeat split; auto.
Qed.

Lemma touches_pure {A} (allowed : nat -> Prop) (m : M A) :
  (forall s, (m s).2 = s) -> touches allowed m.
Proof. intros H s. rewrite H. repeat split. Qed.

Lemma touches_ret {A} allowed (a : A) : touches allowed (ret a).
Proof. apply touches_pure. reflexivity. Qed.

Lemma touches_throw {A} allowed (e : Exception) : touches allowed (@throw A e).
Proof. apply touches_pure. reflexivity. Qed.

Lemma touches_lift {A} allowed (c : Completion A) : touches allowed (lift c).
Proof. apply touches_pure. reflexivity. Qed.

Lemma touches_bind {A B} allowed (m : M A) (k : A -> M B) :
  touches allowed m -> (forall a, touches allowed (k a)) -> touches allowed (bind m k).
Proof.
  intros Hm Hk s. unfold bind. destruct (Hm s) as (H1 & H2 & H3).
  destruct (m s) as [[a|e] s1]; cbn [snd] in *; [|auto].
  destruct (Hk a s1) as (K1 & K2 & K3). repeat split; try congruence.
  intros memo Ha Hne. rewrite K3, H3; auto. congruence.
Qed.

Lemma touches_try_catch {A} allowed (body : M A) (handler : Exception -> M A) :
  touches allowed body -> (forall e, touches allowed (handler e)) ->
  touches allowed (try_catch body handler).
Proof.
  intros Hm Hk s. unfold try_catch. destruct (Hm s) as (H1 & H2 & H3).
  destruct (body s) as [[a|e] s1]; cbn [snd] in *; [auto|].
  destruct (Hk e s1) as (K1 & K2 & K3). repeat split; try congruence.
  intros memo Ha Hne. rewrite K3, H3; auto. congruence.
Qed.

Lemma touches_ERROR_HANDLER allowed (e : ParserError) : touches allowed (ERROR_HANDLER e).
Proof. intros s. repeat split. Qed.

Lemma touches_hasParser allowed (classname : string) : touches allowed (hasParser classname).
Proof. apply touches_pure. reflexivity. Qed.

Lemma touches_getParserByName allowed (classname : string) :
  touches allowed (getParserByName classname).
Proof.
  apply touches_pure. intros s. unfold getParserByName.
  destruct (RUNTIME_NODES s !! classname); reflexivity.
Qed.

Lemma touches_addToMemo allowed (classname : string) (result : YTNode) :
  touches allowed (_addToMemo classname result).
Proof.
  intros s. unfold _addToMemo. destruct (MEMO s) as [memo|] eqn:E; cbn; [|auto].
  rewrite E. repeat split; [apply length_alter|].
  intros other _ Hne. apply list_lookup_alter_ne. congruence.
Qed.

Lemma touches_new allowed (C : YTNodeConstructor) (data : RawNode) :
  touches allowed (new_ env C data).
Proof. eapply touches_weaken; [|apply Henv]. intros ? []. Qed.

Lemma touches_generateRuntimeClass allowed (classname : string) (data : RawNode) :
  touches allowed (generateRuntimeClass env classname data).
Proof. eapply touches_weaken; [|apply Henv]. intros ? []. Qed.

Lemma touches_CommentView_applyMutations allowed (node : YTNode) (a b c d : RawNode) :
  touches allowed (CommentView_applyMutations env node a b c d).
Proof. eapply touches_weaken; [|apply Henv]. intros ? []. Qed.

Lemma touches_new_Format allowed (format : RawNode) (cache : gmap string string) :
  touches allowed (new_Format env format cache).
Proof. eapply touches_weaken; [|apply Henv]. intros ? []. Qed.

#[local] Hint Resolve touches_ret touches_throw touches_lift touches_ERROR_HANDLER
  touches_hasParser touches_getParserByName touches_addToMemo touches_new
  touches_generateRuntimeClass touches_CommentView_applyMutations
  touches_new_Format : touches.

(** Goals [touches allowed m] are solved along the structure of [m]. *)
Ltac touch :=
  repeat match goal with
    | |- touches _ (bind _ _) => apply touches_bind; [|intros ?]
    | |- touches _ (try_catch _ _) => apply touches_try_catch; [|intros ?]
    | |- touches _ (if ?b then _ else _) => destruct b
    | |- touches _ (match ?x with _ => _ end) => destruct x
    | |- touches _ _ => solve [auto with touches]
    end.

Lemma touches_parseItem allowed (data : RawNode) (validTypes : ValidTypes) :
  touches allowed (parseItem env data validTypes).
Proof. unfold parseItem, construct. touch. Qed.

#[local] Hint Resolve touches_parseItem : touches.

Lemma touches_parseItems allowed (items : list RawNode) (validTypes : ValidTypes)
      (results : list YTNode) :
  touches allowed (parseItems env items validTypes results).
Proof.
  revert results. induction items as [|item rest IH]; intros results;
    cbn [parseItems]; touch.
Qed.

#[local] Hint Resolve touches_parseItems : touches.

Lemma touches_parseArray allowed (data : RawNode) (validTypes : ValidTypes) :
  touches allowed (parseArray env data validTypes).
Proof. unfold parseArray. touch. Qed.

Lemma touches_parse allowed (data : RawNode) (requireArray : bool)
      (validTypes : ValidTypes) :
  touches allowed (parse env data requireArray validTypes).
Proof. unfold parse. touch. Qed.

#[local] Hint Resolve touches_parseArray touches_parse : touches.

Lemma touches_first_of allowed (data : RawNode)
      (cases : list (string * YTNodeConstructor)) :
  touches allowed (first_of env data cases).
Proof.
  induction cases as [|[key C] rest IH]; cbn [first_of]; touch.
Qed.

#[local] Hint Resolve touches_first_of : touches.

Lemma touches_parseRR_map allowed (actions : list RawNode) :
  touches allowed (parseRR_map env actions).
Proof. induction actions as [|action rest IH]; cbn [parseRR_map]; touch. Qed.

#[local] Hint Resolve touches_parseRR_map : touches.

Lemma touches_parseRR allowed (actions : RawNode) : touches allowed (parseRR env actions).
Proof. unfold parseRR. touch. Qed.

Lemma touches_parseLC allowed (data : RawNode) : touches allowed (parseLC env data).
Proof. unfold parseLC. touch. Qed.

Lemma touches_parseC allowed (data : RawNode) : touches allowed (parseC env data).
Proof. unfold parseC. touch. Qed.

Lemma touches_parseActions allowed (data : RawNode) :
  touches allowed (parseActions env data).
Proof. unfold parseActions. touch. Qed.

#[local] Hint Resolve touches_parseRR touches_parseLC touches_parseC touches_parseActions
  : touches.

Lemma touches_parseFormats_map allowed (formats : list RawNode)
      (cache : gmap string string) :
  touches allowed (parseFormats_map env formats cache).
Proof.
  revert cache. induction formats as [|format rest IH]; intros cache;
    cbn [parseFormats_map]; touch.
Qed.

#[local] Hint Resolve touches_parseFormats_map : touches.

Lemma touches_parseFormats allowed (formats : RawNode) (cache : gmap string string) :
  touches allowed (parseFormats env formats cache).
Proof. unfold parseFormats. touch. Qed.

Lemma touches_entries_map allowed (entries : list RawNode) :
  touches allowed (entries_map env entries).
Proof. induction entries as [|entry rest IH]; cbn [entries_map]; touch. Qed.

#[local] Hint Resolve touches_parseFormats touches_entries_map : touches.

Lemma touches_when_truthy {A} allowed (v : RawNode) (m : M A) :
  touches allowed m -> touches allowed (when_truthy v m).
Proof. intros H. unfold when_truthy. touch. Qed.

Lemma touches_parse_entries allowed (data : Raw.IRawResponse) :
  touches allowed (parse_entries env data).
Proof. unfold parse_entries. apply touches_when_truthy. touch. Qed.

Lemma touches_parse_plain_sections allowed (data : Raw.IRawResponse) :
  touches allowed (parse_plain_sections env data).
Proof.
  unfold parse_plain_sections, parse_playability_status, parse_streaming_data,
    when_truthy.
  touch.
Qed.


(** *** The mutation passes change the memo they are given *)

Lemma touches_update_node (memo : nat) (classname : string) (i : nat)
      (f : YTNode -> YTNode) :
  touches (eq memo) (update_node memo classname i f).
Proof.
  intros s. unfold update_node. cbn. repeat split; [apply length_alter|].
  intros other Hne _. apply list_lookup_alter_ne. exact Hne.
Qed.

Lemma touches_Memo_add (memo : nat) (classname : string) (node : YTNode) :
  touches (eq memo) (Memo_add memo classname node).
Proof.
  intros s. unfold Memo_add. cbn. repeat split; [apply length_alter|].
  intros other Hne _. apply list_lookup_alter_ne. exact Hne.
Qed.

Lemma touches_Memo_getType allowed (memo : nat) (C : YTNodeConstructor) :
  touches allowed (Memo_getType memo C).
Proof. apply touches_pure. reflexivity. Qed.

#[local] Hint Resolve touches_update_node touches_Memo_add touches_Memo_getType
  : touches.

Lemma touches_multi_select_loop (memo : nat) (mutations : RawNode) (i : nat)
      (items : list YTNode) (missing : list string) :
  touches (eq memo) (multi_select_loop memo mutations i items missing).
Proof.
  revert i missing. induction items as [|item rest IH]; intros i missing;
    cbn [multi_select_loop]; touch.
Qed.

Lemma touches_heat_map_loop (memo : nat) (heat : list RawNode) :
  touches (eq memo) (heat_map_loop env memo heat).
Proof. induction heat as [|m rest IH]; cbn [heat_map_loop]; touch. Qed.

Lemma touches_comment_view_loop (memo : nat) (mutations : RawNode) (i : nat)
      (items : list YTNode) :
  touches (eq memo) (comment_view_loop env memo mutations i items).
Proof.
  revert i. induction items as [|item rest IH]; intros i;
    cbn [comment_view_loop]; touch.
Qed.

#[local] Hint Resolve touches_multi_select_loop touches_heat_map_loop
  touches_comment_view_loop : touches.

Lemma touches_applyMutations (memo : nat) (mutations : RawNode) :
  touches (eq memo) (applyMutations env memo mutations).
Proof.
  unfold applyMutations, applyMutations_MusicMultiSelectMenuItem,
    applyMutations_MacroMarkersListEntity.
  touch.
Qed.

Lemma touches_applyCommentsMutations (memo : nat) (mutations : RawNode) :
  touches (eq memo) (applyCommentsMutations env memo mutations).
Proof. unfold applyCommentsMutations. touch. Qed.

Lemma touches_apply_mutation_passes (data : Raw.IRawResponse) (own : MemoSections.t) :
  touches (fun memo => In memo (memo_sections_memos own))
    (apply_mutation_passes env data own).
Proof.
  unfold apply_mutation_passes. apply touches_bind; [|intros _].
  - eapply touches_weaken; [|apply touches_applyMutations].
    intros memo <-. left. reflexivity.
  - eapply touches_weaken; [|apply touches_applyCommentsMutations].
    intros memo <-. right. right. left. reflexivity.
Qed.

(** *** The first memos stay as they were *)

Lemma stable_refl (n : nat) (s : ParserState) : stable n s s.
Proof. split; reflexivity. Qed.

Lemma stable_trans (n : nat) (s1 s2 s3 : ParserState) :
  stable n s1 s2 -> stable n s2 s3 -> stable n s1 s3.
Proof. intros [A1 A2] [B1 B2]. split; [lia | congruence]. Qed.

Lemma stable_lookup (n : nat) (s s' : ParserState) (memo : nat) :
  stable n s s' -> memo < n -> heap s' !! memo = heap s !! memo.
Proof.
  intros [_ H] Hlt. rewrite <- (lookup_take_lt (heap s') n memo Hlt), H.
  apply lookup_take_lt, Hlt.
Qed.

Lemma stable_le (n n' : nat) (s s' : ParserState) :
  n' <= n -> stable n s s' -> stable n' s s'.
Proof.
  intros Hle [H1 H2]. split; [exact H1|].
  rewrite <- (Nat.min_l n' n Hle), <- !take_take. f_equal. exact H2.
Qed.

Lemma touches_stable (allowed : nat -> Prop) {A} (m : M A) (n : nat) (s : ParserState) :
  touches allowed m ->
  (forall memo, allowed memo -> n <= memo) ->
  MEMO s = None ->
  MEMO (m s).2 = None /\ length (heap (m s).2) = length (heap s) /\ stable n s (m s).2.
Proof.
  intros Hm Ha Hs. destruct (Hm s) as (H1 & H2 & H3).
  split; [congruence|]. split; [exact H2|]. split; [lia|].
  apply list_eq. intros i. destruct (decide (i < n)) as [Hlt|Hge].
  - rewrite !lookup_take_lt by exact Hlt. apply H3; [|congruence].
    intros Hi. apply Ha in Hi. lia.
  - rewrite !lookup_take_ge by lia. reflexivity.
Qed.

Lemma bounded_mono (n l l' : nat) (memos : list nat) :
  l <= l' ->
  Forall (fun memo => n <= memo < l) memos -> Forall (fun memo => n <= memo < l') memos.
Proof.
  intros Hle H. eapply Forall_impl; [exact H|]. cbv beta. intros memo Hm. lia.
Qed.

Lemma grows_ret {A} (n : nat) (known : list nat) (memos_of : A -> list nat) (a : A) :
  (forall memo, In memo (memos_of a) -> In memo known) ->
  grows n known memos_of (ret a).
Proof.
  intros Hsub s Hs Hn Hk. cbn. split; [exact Hs|]. split; [apply stable_refl|].
  apply Forall_forall. intros memo Hin. apply list_elem_of_In, Hsub in Hin.
  exact (proj1 (Forall_forall _ _) Hk memo (proj2 (list_elem_of_In _ _) Hin)).
Qed.

Lemma grows_bind {A B} (n : nat) (known : list nat) (f : A -> list nat)
      (g : B -> list nat) (m : M A) (k : A -> M B) :
  grows n known f m ->
  (forall a, grows n (known ++ f a) g (k a)) ->
  grows n known g (bind m k).
Proof.
  intros Hm Hk s Hs Hn Hkn. unfold bind. specialize (Hm s Hs Hn Hkn).
  destruct (m s) as [[a|e] s1]; [|exact Hm].
  destruct Hm as (Hs1 & Hst & Hf).
  assert (Hle : length (heap s) <= length (heap s1)) by apply Hst.
  specialize (Hk a s1 Hs1 ltac:(lia)
                ltac:(apply Forall_app; split;
                      [exact (bounded_mono _ _ _ _ Hle Hkn) | exact Hf])).
  destruct (k a s1) as [[b|e] s2].
  - destruct Hk as (Hs2 & Hst2 & Hg). split; [exact Hs2|].
    split; [exact (stable_trans _ _ _ _ Hst Hst2) | exact Hg].
  - exact (stable_trans _ _ _ _ Hst Hk).
Qed.

Lemma grows_touches {A} (allowed : nat -> Prop) (n : nat) (known : list nat) (m : M A) :
  touches allowed m ->
  (forall memo, allowed memo -> In memo known) ->
  grows n known (fun _ => []) m.
Proof.
  intros Hm Ha s Hs Hn Hk.
  assert (Hb : forall memo, allowed memo -> n <= memo).
  { intros memo Hmemo. apply Ha, list_elem_of_In in Hmemo.
    exact (proj1 (proj1 (Forall_forall _ _) Hk memo Hmemo)). }
  destruct (touches_stable allowed m n s Hm Hb Hs) as (H1 & H2 & H3).
  destruct (m s) as [[a|e] s1]; cbn [snd] in *; [|exact H3].
  split; [exact H1|]. split; [exact H3 | constructor].
Qed.

Lemma grows_quiet {A} (n : nat) (known : list nat) (m : M A) :
  touches no_memo m -> grows n known (fun _ => []) m.
Proof. intros Hm. apply (grows_touches no_memo); [exact Hm | intros ? []]. Qed.

Lemma grows_memos_of {A} (n : nat) (known : list nat) (f g : A -> list nat) (m : M A) :
  (forall a memo, In memo (g a) -> In memo (f a) \/ In memo known) ->
  grows n known f m -> grows n known g m.
Proof.
  intros Hsub Hm s Hs Hn Hk. specialize (Hm s Hs Hn Hk).
  destruct (m s) as [[a|e] s1]; [|exact Hm].
  destruct Hm as (H1 & H2 & H3). split; [exact H1|]. split; [exact H2|].
  apply Forall_forall. intros memo Hin. apply list_elem_of_In in Hin.
  destruct (Hsub a memo Hin) as [Hf|Hkn].
  - exact (proj1 (Forall_forall _ _) H3 memo (proj2 (list_elem_of_In _ _) Hf)).
  - pose proof (proj1 (Forall_forall _ _) Hk memo (proj2 (list_elem_of_In _ _) Hkn))
      as Hb.
    cbv beta in Hb. destruct H2 as [Hle _]. lia.
Qed.

(** A section creates its memo behind the memos that are there. *)
Lemma created_memo {A} (m : M A) (s : ParserState) :
  touches no_memo m ->
  let s1 := (_createMemo s).2 in
  MEMO (m s1).2 = Some (length (heap s))
  /\ length (heap (m s1).2) = S (length (heap s))
  /\ forall n, n <= length (heap s) -> stable n s (m s1).2.
Proof.
  intros Hm s1. destruct (Hm s1) as (H1 & H2 & H3).
  assert (Hlen : length (heap s1) = S (length (heap s)))
    by (unfold s1, _createMemo; cbn; rewrite length_app; cbn; lia).
  split; [rewrite H1; reflexivity|]. split; [congruence|].
  intros n Hn. split; [lia|].
  apply list_eq. intros i. destruct (decide (i < n)) as [Hlt|Hge].
  - rewrite !lookup_take_lt by exact Hlt. rewrite H3.
    + unfold s1, _createMemo. cbn. apply lookup_app_l. lia.
    + intros [].
    + unfold s1, _createMemo. cbn. intros [= E]. lia.
  - rewrite !lookup_take_ge by lia. reflexivity.
Qed.

Lemma grows_memo_section {A} (n : nat) (known : list nat) (m : M A) :
  touches no_memo m ->
  grows n known (fun r => [r.2]) (memo_section m).
Proof.
  intros Hm s Hs Hn Hk. destruct (created_memo m s Hm) as (H1 & H2 & H3).
  unfold memo_section, bind. change (_createMemo s) with (Normal tt, (_createMemo s).2).
  cbv beta iota.
  destruct (m (_createMemo s).2) as [[v|e] s2]; cbn [snd] in *; [|apply H3, Hn].
  unfold _getMemo. rewrite H1. cbn.
  split; [reflexivity|]. split; [apply (H3 n Hn)|].
  constructor; [lia | constructor].
Qed.

Lemma grows_items_section (n : nat) (known : list nat) (data : Raw.IRawResponse) :
  grows n known (fun r => match r.2 with Some memo => [memo] | None => [] end)
    (items_section env data).
Proof.
  intros s Hs Hn Hk.
  destruct (created_memo (parse env (Raw.items data) false AnyType) s
              (touches_parse _ _ _ _)) as (H1 & H2 & H3).
  unfold items_section, bind.
  change (_createMemo s) with (Normal tt, (_createMemo s).2). cbv beta iota.
  destruct (parse env (Raw.items data) false AnyType (_createMemo s).2)
    as [[items|e] s2]; cbn [snd] in *; [|apply H3, Hn].
  destruct (present items); unfold _getMemo, ret, _clearMemo; rewrite ?H1; cbn.
  - split; [reflexivity|]. split; [apply (H3 n Hn)|]. constructor; [lia | constructor].
  - split; [reflexivity|]. split; [apply (H3 n Hn) | constructor].
Qed.


Lemma grows_parse_memo_sections (n : nat) (known : list nat) (data : Raw.IRawResponse) :
  grows n known memo_sections_memos (parse_memo_sections env data).
Proof.
  unfold parse_memo_sections.
  do 9 (eapply grows_bind;
        [ apply grows_memo_section; unfold when_truthy; touch
        | intros [? ?]; cbn [snd] ]).
  eapply grows_bind; [apply grows_items_section | intros [items items_memo]; cbn [snd]].
  apply grows_ret. unfold memo_sections_memos. cbn [MemoSections.contents_memo
    MemoSections.on_response_received_actions_memo
    MemoSections.on_response_received_endpoints_memo
    MemoSections.on_response_received_commands_memo
    MemoSections.continuation_contents_memo MemoSections.actions_memo
    MemoSections.live_chat_item_context_menu_supported_renderers_memo
    MemoSections.header_memo MemoSections.sidebar_memo MemoSections.items_memo].
  intros memo. rewrite !in_app_iff. cbn [In]. tauto.
Qed.

Lemma parseResponse_unfold (data : Raw.IRawResponse) :
  parseResponse env data =
    (let* own := parse_memo_sections env data in
     let* _ := apply_mutation_passes env data own in
     let* plain := parse_plain_sections env data in
     let* player_response :=
       match Raw.playerResponse data with
       | Some inner => let* child := parseResponse env inner in ret (Some child)
       | None => ret None
       end in
     let* watch_next_response :=
       match Raw.watchNextResponse data with
       | Some inner => let* child := parseResponse env inner in ret (Some child)
       | None => ret None
       end in
     let* entries := parse_entries env data in
     ret (parsed_data data own plain player_response watch_next_response entries)).
Proof. destruct data. reflexivity. Qed.

Lemma with_memo_Some {A} (v : option A) (memo memo' : nat) :
  with_memo v memo = Some memo' -> memo = memo'.
Proof. destruct v; cbn; congruence. Qed.

Lemma memos_parsed_data (data : Raw.IRawResponse) (own : MemoSections.t)
      (plain : PlainSections.t) (pr wn : option Out.IParsedResponse)
      (entries : option (list YTNode)) (memo : nat) :
  In memo (Out.memos (parsed_data data own plain pr wn entries)) ->
  In memo (memo_sections_memos own).
Proof.
  unfold Out.memos. intros Hin. apply list_elem_of_In, list_elem_of_omap in Hin.
  destruct Hin as (o & Hin & Ho). cbn in Ho. subst o.
  unfold memo_sections_memos. apply in_app_iff.
  apply list_elem_of_In in Hin. cbn [In parsed_data Out.contents_memo
    Out.on_response_received_actions_memo Out.on_response_received_endpoints_memo
    Out.on_response_received_commands_memo Out.continuation_contents_memo
    Out.actions_memo Out.live_chat_item_context_menu_supported_renderers_memo
    Out.header_memo Out.sidebar_memo Out.items_memo] in Hin.
  repeat (destruct Hin as [Hin|Hin];
          [try (apply with_memo_Some in Hin; subst memo; left; cbn [In]; tauto)|]).
  - right. rewrite Hin. left. reflexivity.
  - destruct Hin.
Qed.

Lemma grows_parseResponse (k : nat) :
  forall data, nesting data <= k ->
  forall n known, grows n known Out.all_memos (parseResponse env data).
Proof.
  induction k as [|k IH]; intros data Hk n known.
  { destruct data; cbn in Hk; lia. }
  assert (Hnested : forall (o : option Raw.IRawResponse) known',
             match o with Some inner => nesting inner | None => 0 end <= k ->
             grows n known' nested_memos
               (match o with
                | Some inner => let* child := parseResponse env inner in ret (Some child)
                | None => ret None
                end)).
  { intros [inner|] known' Hle.
    - eapply grows_bind; [apply (IH inner Hle)|].
      intros child. apply grows_ret. cbn. intros memo Hin. apply in_app_iff. auto.
    - apply grows_ret. intros memo []. }
  assert (H1 : match Raw.playerResponse data with
               | Some inner => nesting inner | None => 0 end <= k)
    by (destruct data; cbn in *; lia).
  assert (H2 : match Raw.watchNextResponse data with
               | Some inner => nesting inner | None => 0 end <= k)
    by (destruct data; cbn in *; lia).
  rewrite parseResponse_unfold.
  eapply grows_bind; [apply grows_parse_memo_sections | intros own].
  eapply grows_bind;
    [ apply (grows_touches (fun memo => In memo (memo_sections_memos own)));
      [ apply touches_apply_mutation_passes
      | intros memo Hin; apply in_app_iff; auto ]
    | intros ? ].
  eapply grows_bind; [apply grows_quiet, touches_parse_plain_sections | intros plain].
  eapply grows_bind; [apply (Hnested _ _ H1) | intros pr].
  eapply grows_bind; [apply (Hnested _ _ H2) | intros wn].
  eapply grows_bind; [apply grows_quiet, touches_parse_entries | intros entries].
  apply grows_ret. intros memo Hin.
  change (Out.all_memos (parsed_data data own plain pr wn entries))
    with (Out.memos (parsed_data data own plain pr wn entries)
            ++ nested_memos pr ++ nested_memos wn) in Hin.
  rewrite !in_app_iff in Hin. rewrite !in_app_iff. cbn [In].
  destruct Hin as [Hin|[Hin|Hin]]; [|tauto|tauto].
  apply memos_parsed_data in Hin. tauto.
Qed.

Lemma parseResponse_any_MEMO (data : Raw.IRawResponse) (s : ParserState) :
  parseResponse env data s = parseResponse env data (set_MEMO None s).
Proof.
  rewrite parseResponse_unfold. unfold bind at 1. unfold bind at 7.
  assert (H : parse_memo_sections env data s
              = parse_memo_sections env data (set_MEMO None s))
    by reflexivity.
  rewrite H. reflexivity.
Qed.

(** *** The bodies of the sections *)

Lemma touches_section_body {A} (v : RawNode) (m : M A) :
  touches no_memo m -> touches no_memo (when_truthy v m).
Proof.
  intros Hm. unfold when_truthy. destruct (JS.truthy v); [|apply touches_ret].
  apply touches_bind; [exact Hm | intros a; apply touches_ret].
Qed.

Lemma touches_joined {A} (m : M (option (option A))) :
  touches no_memo m -> touches no_memo (let* r := m in ret (mjoin r)).
Proof. intros Hm. apply touches_bind; [exact Hm | intros r; apply touches_ret]. Qed.

End MemoDiscipline.

Lemma grows_nested (env : Env) (Henv : respects_memo env)
      (o : option Raw.IRawResponse) (n : nat) (known : list nat) :
  grows n known nested_memos
    (match o with
     | Some inner => let* child := parseResponse env inner in ret (Some child)
     | None => ret None
     end).
Proof.
  destruct o as [inner|].
  - eapply grows_bind; [apply (grows_parseResponse env Henv (nesting inner) inner)|].
    + reflexivity.
    + intros child. apply grows_ret. cbn. intros memo Hin. apply in_app_iff. auto.
  - apply grows_ret. intros memo [].
Qed.

Lemma respects_memo_Demo : respects_memo Demo.env.
Proof.
  repeat split; cbn; try reflexivity;
    unfold Demo.new_node; destruct (String.prefix _ _); reflexivity.
Qed.

(** *** The memo of a section holds the nodes of the section *)

Section MemoContents.

Variable env : Env.
Hypothesis Henv : respects_memo env.
Hypothesis Hadd : only_adds env.

(** What a memo holds, and the steps that keep it. *)

Lemma holds_same_heap (s s' : ParserState) (memo : nat) (node : YTNode) :
  heap s' !! memo = heap s !! memo -> holds s memo node -> holds s' memo node.
Proof.
  intros E (classname & node' & Hin & Hs). exists classname, node'.
  split; [|exact Hs]. unfold nodes_at, deref in *. rewrite E. exact Hin.
Qed.

Lemma keeps_nodes_held {A} (memo : nat) (m : M A) : keeps_nodes m -> keeps_held memo m.
Proof.
  intros Hm s node (classname & node' & Hin & Hs). exists classname, node'.
  split; [apply Hm, Hin | exact Hs].
Qed.

Lemma keeps_held_pure {A} (memo : nat) (m : M A) :
  (forall s, heap (m s).2 = heap s) -> keeps_held memo m.
Proof. intros H s node. apply holds_same_heap. rewrite H. reflexivity. Qed.

Lemma keeps_held_bind {A B} (memo : nat) (m : M A) (k : A -> M B) :
  keeps_held memo m -> (forall a, keeps_held memo (k a)) -> keeps_held memo (bind m k).
Proof.
  intros Hm Hk s node Hn. unfold bind. specialize (Hm s node Hn).
  destruct (m s) as [[a|e] s1]; cbn [snd] in *; [apply Hk, Hm | exact Hm].
Qed.

Lemma keeps_held_try_catch {A} (memo : nat) (body : M A) (handler : Exception -> M A) :
  keeps_held memo body -> (forall e, keeps_held memo (handler e)) ->
  keeps_held memo (try_catch body handler).
Proof.
  intros Hm Hk s node Hn. unfold try_catch. specialize (Hm s node Hn).
  destruct (body s) as [[a|e] s1]; cbn [snd] in *; [exact Hm | apply Hk, Hm].
Qed.

Lemma keeps_held_ret {A} memo (a : A) : keeps_held memo (ret a).
Proof. apply keeps_held_pure. reflexivity. Qed.

Lemma keeps_held_throw {A} memo (e : Exception) : keeps_held memo (@throw A e).
Proof. apply keeps_held_pure. reflexivity. Qed.

Lemma keeps_held_lift {A} memo (c : Completion A) : keeps_held memo (lift c).
Proof. apply keeps_held_pure. reflexivity. Qed.

Lemma keeps_held_ERROR_HANDLER memo (e : ParserError) : keeps_held memo (ERROR_HANDLER e).
Proof. apply keeps_held_pure. reflexivity. Qed.

Lemma keeps_held_hasParser memo (classname : string) : keeps_held memo (hasParser classname).
Proof. apply keeps_held_pure. reflexivity. Qed.

Lemma keeps_held_getParserByName memo (classname : string) :
  keeps_held memo (getParserByName classname).
Proof.
  apply keeps_held_pure. intros s. unfold getParserByName.
  destruct (RUNTIME_NODES s !! classname); reflexivity.
Qed.

Lemma keeps_held_new memo (C : YTNodeConstructor) (data : RawNode) :
  keeps_held memo (new_ env C data).
Proof. apply keeps_nodes_held, Hadd. Qed.

Lemma keeps_held_generateRuntimeClass memo (classname : string) (data : RawNode) :
  keeps_held memo (generateRuntimeClass env classname data).
Proof. apply keeps_nodes_held, Hadd. Qed.

(** The nodes behind a memo after a change of the memo. *)
Lemma nodes_at_alter (f : gmap string (list YTNode) -> gmap string (list YTNode))
      (target memo : nat) (classname : string) (s : ParserState) :
  memo < length (heap s) ->
  nodes_at (set_heap (alter f target (heap s)) s) memo classname
  = if decide (target = memo) then default [] (f (deref memo s) !! classname)
    else nodes_at s memo classname.
Proof.
  intros Hlt. unfold nodes_at, deref. cbn [heap set_heap].
  destruct (decide (target = memo)) as [->|Hne].
  - rewrite list_lookup_alter_eq.
    destruct (lookup_lt_is_Some_2 _ _ Hlt) as [m ->]. reflexivity.
  - rewrite list_lookup_alter_ne by exact Hne. reflexivity.
Qed.

Lemma nodes_at_out_of_range (s : ParserState) (memo : nat) (classname : string) :
  length (heap s) <= memo -> nodes_at s memo classname = [].
Proof.
  intros Hle. unfold nodes_at, deref. rewrite lookup_ge_None_2 by exact Hle. reflexivity.
Qed.

Lemma holds_in_range (s : ParserState) (memo : nat) (node : YTNode) :
  holds s memo node -> memo < length (heap s).
Proof.
  intros (classname & node' & Hin & _). destruct (decide (memo < length (heap s))); auto.
  rewrite nodes_at_out_of_range in Hin by lia. inversion Hin.
Qed.

Lemma keeps_held_Memo_add memo (target : nat) (classname : string) (node : YTNode) :
  keeps_held memo (Memo_add target classname node).
Proof.
  intros s held Hh. pose proof (holds_in_range _ _ _ Hh) as Hlt.
  destruct Hh as (c & node' & Hin & Hs). exists c, node'. split; [|exact Hs].
  unfold Memo_add. cbn [snd]. rewrite nodes_at_alter by exact Hlt.
  destruct (decide (target = memo)) as [_|_]; [|exact Hin].
  rewrite lookup_Memo_add. destruct (decide (classname = c)) as [->|_]; [|exact Hin].
  cbn. apply elem_of_app. left. exact Hin.
Qed.

Lemma keeps_held_addToMemo memo (classname : string) (node : YTNode) :
  keeps_held memo (_addToMemo classname node).
Proof.
  intros s held Hh. unfold _addToMemo. destruct (MEMO s) as [target|]; [|exact Hh].
  exact (keeps_held_Memo_add memo target classname node s held Hh).
Qed.

(** The assignment of the multi-select pass. *)
Lemma keeps_held_patch memo (target i : nat) (v : RawNode) :
  keeps_held memo
    (update_node target (type MusicMultiSelectMenuItem) i (set_field "selected" v)).
Proof.
  intros s held Hh. pose proof (holds_in_range _ _ _ Hh) as Hlt.
  destruct Hh as (c & node' & Hin & Hsame & Hc).
  destruct (decide (target = memo /\ c = type MusicMultiSelectMenuItem)) as [[-> ->]|Hne].
  - apply list_elem_of_lookup in Hin as [j Hj].
    destruct (decide (i = j)) as [->|Hij].
    + exists (type MusicMultiSelectMenuItem), (set_field "selected" v node').
      split; [|split].
      * rewrite nodes_at_update_node. apply list_elem_of_lookup. exists j.
        rewrite list_lookup_alter_eq, Hj. reflexivity.
      * eapply same_but_trans; [exact Hsame | apply same_but_set_field].
      * intros Hx. congruence.
    + exists (type MusicMultiSelectMenuItem), node'. split; [|split; assumption].
      rewrite nodes_at_update_node. apply list_elem_of_lookup. exists j.
      rewrite list_lookup_alter_ne by exact Hij. exact Hj.
  - exists c, node'. split; [|split; assumption].
    unfold update_node. cbn [snd]. rewrite nodes_at_alter by exact Hlt.
    destruct (decide (target = memo)) as [->|_]; [|exact Hin].
    rewrite lookup_alter_ne; [exact Hin|]. intros <-. apply Hne. auto.
Qed.

(** Goals [keeps_held memo m] are solved along the structure of [m]. *)
Ltac held :=
  repeat match goal with
    | |- keeps_held _ (bind _ _) => apply keeps_held_bind; [|intros ?]
    | |- keeps_held _ (try_catch _ _) => apply keeps_held_try_catch; [|intros ?]
    | |- keeps_held _ (if ?b then _ else _) => destruct b
    | |- keeps_held _ (match ?x with _ => _ end) => destruct x
    | |- keeps_held _ _ =>
        solve [ auto using keeps_held_ret, keeps_held_throw, keeps_held_lift,
                  keeps_held_ERROR_HANDLER, keeps_held_hasParser,
                  keeps_held_getParserByName, keeps_held_new,
                  keeps_held_generateRuntimeClass, keeps_held_Memo_add,
                  keeps_held_addToMemo, keeps_held_patch ]
    end.

Lemma keeps_held_parseItem memo (data : RawNode) (validTypes : ValidTypes) :
  keeps_held memo (parseItem env data validTypes).
Proof. unfold parseItem, construct. held. Qed.

Lemma keeps_held_parseItems memo (items : list RawNode) (validTypes : ValidTypes)
      (results : list YTNode) :
  keeps_held memo (parseItems env items validTypes results).
Proof.
  revert results. induction items as [|item rest IH]; intros results;
    cbn [parseItems]; [held|].
  apply keeps_held_bind; [apply keeps_held_parseItem | intros ?; apply IH].
Qed.

Lemma keeps_held_multi_select_loop memo (target : nat) (mutations : RawNode) (i : nat)
      (items : list YTNode) (missing : list string) :
  keeps_held memo (multi_select_loop target mutations i items missing).
Proof.
  revert i missing. induction items as [|item rest IH]; intros i missing;
    cbn [multi_select_loop]; [held|].
  do 3 (apply keeps_held_bind; [apply keeps_held_lift | intros ?]).
  destruct (valid_choice _); [|apply IH].
  apply keeps_held_bind; [apply keeps_held_lift | intros ?].
  apply keeps_held_bind; [apply keeps_held_patch | intros ?]. apply IH.
Qed.

Lemma keeps_held_heat_map_loop memo (target : nat) (heat : list RawNode) :
  keeps_held memo (heat_map_loop env target heat).
Proof.
  induction heat as [|m rest IH]; cbn [heat_map_loop]; [held|].
  do 2 (apply keeps_held_bind; [apply keeps_held_lift | intros ?]).
  apply keeps_held_bind; [apply keeps_held_new | intros ?].
  apply keeps_held_bind; [apply keeps_held_Memo_add | intros ?]. apply IH.
Qed.

Lemma keeps_held_applyMutations memo (target : nat) (mutations : RawNode) :
  keeps_held memo (applyMutations env target mutations).
Proof.
  unfold applyMutations, applyMutations_MusicMultiSelectMenuItem,
    applyMutations_MacroMarkersListEntity.
  apply keeps_held_bind.
  - apply keeps_held_bind; [apply keeps_held_pure; reflexivity | intros items].
    destruct (_ && _); [apply keeps_held_ERROR_HANDLER|].
    apply keeps_held_bind; [apply keeps_held_multi_select_loop | intros ?]. held.
  - intros _. destruct (JS.truthy mutations); [|held].
    do 2 (apply keeps_held_bind; [apply keeps_held_lift | intros ?]).
    apply keeps_held_heat_map_loop.
Qed.

(** A pass on another memo leaves the memo as it is. *)
Lemma keeps_held_touches {A} (memo target : nat) (m : M A) :
  touches (eq target) m -> target <> memo ->
  (forall s, MEMO s = None -> forall node, holds s memo node -> holds (m s).2 memo node).
Proof.
  intros Hm Hne s Hs node. apply holds_same_heap.
  destruct (Hm s) as (_ & _ & H). apply H; [exact Hne | congruence].
Qed.

(** What [parseItem] returns is in the active memo. *)
Lemma parseItem_records (data : RawNode) (validTypes : ValidTypes)
      (s s' : ParserState) (memo : nat) (node : YTNode) :
  MEMO s = Some memo -> memo < length (heap s) ->
  parseItem env data validTypes s = (Normal (Some node), s') ->
  holds s' memo node.
Proof.
  intros Hm Hlt H.
  destruct (JS.truthy data) eqn:Ht;
    [|unfold parseItem in H; rewrite Ht in H; cbn in H; unfold ret in H; congruence].
  pose proof (Object_keys_truthy data Ht) as Hk.
  destruct ((JS.own_entries data).*1) as [|key0 rest] eqn:Hkeys;
    [unfold parseItem in H; rewrite Ht, Hk in H; cbn in H; unfold bind, lift, ret in H; congruence|].
  destruct (shouldIgnore (sanitizeClassName key0)) eqn:Hi.
  { unfold parseItem in H. rewrite Ht, Hk in H. cbn [negb] in H.
    unfold bind, lift in H. rewrite Hi in H. cbn in H. unfold ret in H. congruence. }
  rewrite (parseItem_wrapper env data key0 rest validTypes s Ht Hk Hi) in H.
  assert (Hd : touches no_memo (dispatch env (sanitizeClassName key0) (JS.prop data key0))).
  { unfold dispatch. apply touches_bind; [apply touches_hasParser | intros b].
    destruct b; [apply touches_getParserByName
                | apply touches_generateRuntimeClass, Henv]. }
  destruct (Hd s) as (D1 & D2 & _).
  destruct (dispatch env _ _ s) as [[C|e] s1]; [|congruence]. cbn [snd] in *.
  destruct (accepts validTypes C); [|congruence].
  destruct (touches_new env Henv no_memo C (JS.prop data key0) s1) as (N1 & N2 & _).
  destruct (new_ env C _ s1) as [[built|e] s2]; [|congruence]. cbn [snd] in *.
  injection H as <- <-. unfold _addToMemo. rewrite N1, D1, Hm. cbn [snd].
  exists (sanitizeClassName key0), built. split; [|split; [apply same_but_refl | auto]].
  rewrite nodes_at_alter by (cbn; lia). rewrite decide_True by reflexivity.
  rewrite lookup_Memo_add, decide_True by reflexivity. cbn.
  apply elem_of_app. right. apply list_elem_of_singleton. reflexivity.
Qed.


Lemma parseItems_records (items : list RawNode) (validTypes : ValidTypes) (memo : nat) :
  forall (results : list YTNode) (s s' : ParserState) (nodes : list YTNode),
    MEMO s = Some memo -> memo < length (heap s) ->
    Forall (holds s memo) results ->
    parseItems env items validTypes results s = (Normal nodes, s') ->
    Forall (holds s' memo) nodes.
Proof.
  induction items as [|item rest IH]; intros results s s' nodes Hm Hlt Hres H.
  - cbn in H. injection H as <- <-. exact Hres.
  - cbn [parseItems] in H. apply bind_returns in H as (result & s1 & H1 & H).
    destruct (touches_parseItem env Henv no_memo item validTypes s) as (T1 & T2 & _).
    rewrite H1 in T1, T2. cbn [snd] in T1, T2.
    apply (IH _ s1 s' nodes) in H; [exact H | congruence | lia |].
    assert (Hkept : Forall (holds s1 memo) results).
    { eapply List.Forall_impl; [|exact Hres]. intros node Hn.
      pose proof (keeps_held_parseItem memo item validTypes s node Hn) as K.
      rewrite H1 in K. exact K. }
    destruct result as [node|]; [|exact Hkept].
    apply Forall_app. split; [exact Hkept|]. constructor; [|constructor].
    exact (parseItem_records item validTypes s s1 memo node Hm Hlt H1).
Qed.

Lemma parse_records (data : RawNode) (requireArray : bool) (validTypes : ValidTypes)
      (s s' : ParserState) (memo : nat) (p : Parsed) :
  MEMO s = Some memo -> memo < length (heap s) ->
  parse env data requireArray validTypes s = (Normal p, s') ->
  Forall (holds s' memo) (Parsed_nodes p).
Proof.
  intros Hm Hlt H. unfold parse in H.
  destruct (JS.truthy data); cbn [negb] in H; [|injection H as <- <-; constructor].
  destruct data;
    try (destruct requireArray; [discriminate H|];
         apply bind_returns in H as (result & s1 & H1 & H); injection H as <- <-;
         destruct result as [node|]; cbn; [|constructor];
         constructor; [|constructor];
         exact (parseItem_records _ validTypes s s1 memo node Hm Hlt H1)).
  apply bind_returns in H as (nodes & s1 & H1 & H). injection H as <- <-.
  apply (parseItems_records _ _ memo [] s s1 nodes Hm Hlt (Forall_nil_2 _)) in H1.
  destruct requireArray; exact H1.
Qed.

Lemma parseActions_records (data : RawNode) (s s' : ParserState) (memo : nat)
      (p : Parsed) :
  MEMO s = Some memo -> memo < length (heap s) ->
  parseActions env data s = (Normal p, s') ->
  Forall (holds s' memo) (Parsed_nodes p).
Proof.
  intros Hm Hlt H. unfold parseActions in H.
  destruct data;
    try (apply bind_returns in H as (result & s1 & H1 & H); injection H as <- <-;
         destruct result as [node|]; cbn; [|constructor];
         constructor; [|constructor];
         exact (parseItem_records _ AnyType s s1 memo node Hm Hlt H1)).
  apply bind_returns in H as (stripped & s1 & H1 & H).
  apply lift_returns in H1 as [_ ->].
  exact (parse_records _ _ _ s s' memo p Hm Hlt H).
Qed.


Lemma holds_stable (n : nat) (s s' : ParserState) (memo : nat) (node : YTNode) :
  stable n s s' -> memo < n -> holds s memo node -> holds s' memo node.
Proof. intros Hst Hlt. apply holds_same_heap. exact (stable_lookup _ _ _ _ Hst Hlt). Qed.

(** A section leaves its nodes in the memo that it created. *)
Lemma memo_section_holds {A} (m : M A) (nodes_of : A -> list YTNode) (post : A -> Prop)
      (s s1 : ParserState) (v : A) (vm : nat) :
  touches no_memo m ->
  records nodes_of m ->
  (forall s0 s0' v0, m s0 = (Normal v0, s0') -> post v0) ->
  memo_section m s = (Normal (v, vm), s1) ->
  vm = length (heap s) /\ MEMO s1 = None /\ length (heap s1) = S (length (heap s))
  /\ stable (length (heap s)) s s1 /\ Forall (holds s1 vm) (nodes_of v) /\ post v.
Proof.
  intros Hm Hrec Hpost H. destruct (created_memo m s Hm) as (C1 & C2 & C3).
  unfold memo_section in H.
  apply bind_returns in H as ([] & s0 & H0 & H).
  apply bind_returns in H as (v0 & s2 & H2 & H).
  apply bind_returns in H as (memo & s3 & H3 & H).
  apply bind_returns in H as ([] & s4 & H4 & H).
  injection H as -> -> ->.
  assert (E0 : s0 = (_createMemo s).2) by (rewrite H0; reflexivity). subst s0.
  rewrite H2 in C1, C2, C3. cbn [snd] in C1, C2, C3.
  unfold _getMemo in H3. rewrite C1 in H3. injection H3 as <- <-.
  unfold _clearMemo in H4. injection H4 as <-.
  split; [reflexivity|]. split; [reflexivity|]. split; [exact C2|].
  split; [apply C3; lia|]. split; [|exact (Hpost _ _ _ H2)].
  assert (F : Forall (holds s2 (length (heap s))) (nodes_of v)).
  { apply (Hrec (_createMemo s).2 s2 (length (heap s)) v); [reflexivity | | exact H2].
    cbn. rewrite length_app. cbn. lia. }
  eapply List.Forall_impl; [|exact F]. intros node. apply holds_same_heap. reflexivity.
Qed.

Lemma when_truthy_returns {A} (v : RawNode) (m : M A) (s s' : ParserState)
      (r : option A) :
  when_truthy v m s = (Normal r, s') ->
  (JS.truthy v = true /\ exists a, r = Some a /\ m s = (Normal a, s'))
  \/ (JS.truthy v = false /\ r = None /\ s' = s).
Proof.
  unfold when_truthy. destruct (JS.truthy v).
  - intros H. apply bind_returns in H as (a & s1 & H1 & H). injection H as <- <-.
    left. eauto.
  - intros [= <- <-]. right. auto.
Qed.

Lemma parse_present (data : RawNode) (s s' : ParserState) (p : Parsed) :
  JS.truthy data = true ->
  parse env data false AnyType s = (Normal p, s') -> present p = Some p.
Proof.
  intros Ht H. unfold parse in H. rewrite Ht in H. cbn [negb] in H.
  destruct data; apply bind_returns in H as (r & s1 & _ & H); injection H as <- <-;
    reflexivity.
Qed.

Lemma parseActions_present (data : RawNode) (s s' : ParserState) (p : Parsed) :
  parseActions env data s = (Normal p, s') -> present p = Some p.
Proof.
  intros H. unfold parseActions in H.
  destruct data;
    try (apply bind_returns in H as (r & s1 & _ & H); injection H as <- <-; reflexivity).
  apply bind_returns in H as (stripped & s1 & H1 & H).
  exact (parse_present (JArr stripped) s1 s' p eq_refl H).
Qed.

Lemma Forall_holds_stable (n : nat) (s s' : ParserState) (memo : nat)
      (nodes : list YTNode) :
  stable n s s' -> memo < n -> Forall (holds s memo) nodes -> Forall (holds s' memo) nodes.
Proof.
  intros Hst Hlt. apply List.Forall_impl. intros node. exact (holds_stable _ _ _ _ _ Hst Hlt).
Qed.

Lemma items_section_holds (data : Raw.IRawResponse) (s s1 : ParserState)
      (items : Parsed) (items_memo : option nat) :
  items_section env data s = (Normal (items, items_memo), s1) ->
  MEMO s1 = None /\ length (heap s1) = S (length (heap s))
  /\ stable (length (heap s)) s s1
  /\ items_memo = with_memo (present items) (length (heap s))
  /\ (JS.truthy (Raw.items data) = true -> present items = Some items)
  /\ Forall (holds s1 (length (heap s))) (Parsed_nodes items).
Proof.
  intros H.
  destruct (created_memo (parse env (Raw.items data) false AnyType) s
              (touches_parse env Henv _ _ _ _)) as (C1 & C2 & C3).
  unfold items_section in H.
  apply bind_returns in H as ([] & s0 & H0 & H).
  apply bind_returns in H as (v0 & s2 & H2 & H).
  apply bind_returns in H as (memo & s3 & H3 & H).
  apply bind_returns in H as ([] & s4 & H4 & H).
  injection H as -> -> ->.
  assert (E0 : s0 = (_createMemo s).2) by (rewrite H0; reflexivity). subst s0.
  rewrite H2 in C1, C2, C3. cbn [snd] in C1, C2, C3.
  unfold _clearMemo in H4. injection H4 as <-.
  assert (F : Forall (holds s2 (length (heap s))) (Parsed_nodes items)).
  { apply (parse_records (Raw.items data) false AnyType (_createMemo s).2 s2
             (length (heap s)) items);
      [reflexivity | | exact H2].
    cbn. rewrite length_app. cbn. lia. }
  assert (E3 : s3 = s2 /\ items_memo = with_memo (present items) (length (heap s))).
  { destruct (present items).
    - apply bind_returns in H3 as (memo & s5 & H5 & H3). injection H3 as <- <-.
      unfold _getMemo in H5. rewrite C1 in H5. injection H5 as <- <-. auto.
    - injection H3 as <- <-. auto. }
  destruct E3 as [-> E3].
  split; [reflexivity|]. split; [exact C2|]. split; [apply C3; lia|].
  split; [exact E3|]. split; [intros Ht; exact (parse_present _ _ _ _ Ht H2)|].
  eapply List.Forall_impl; [|exact F]. intros node. apply holds_same_heap. reflexivity.
Qed.


Lemma records_nothing_to_hold {A} (m : M A) : records (fun _ => []) m.
Proof. intros s s' memo v _ _ _. constructor. Qed.

Lemma records_parse (data : RawNode) : records Parsed_nodes (parse env data false AnyType).
Proof. intros s s' memo v. apply parse_records. Qed.

Lemma section_nodes_present (p : Parsed) : section_nodes (present p) = Parsed_nodes p.
Proof. destruct p; reflexivity. Qed.

Lemma records_when_parse (data : RawNode) :
  records (fun r => section_nodes (mjoin (present <$> r)))
    (when_truthy data (parse env data false AnyType)).
Proof.
  intros s s' memo r Hm Hlt H.
  apply when_truthy_returns in H as [(_ & p & -> & H)|(_ & -> & _)]; [|constructor].
  cbn. rewrite section_nodes_present. exact (parse_records _ _ _ _ _ _ _ Hm Hlt H).
Qed.

Lemma records_when_parseActions (data : RawNode) :
  records (fun r => section_nodes (mjoin (present <$> r)))
    (when_truthy data (parseActions env data)).
Proof.
  intros s s' memo r Hm Hlt H.
  apply when_truthy_returns in H as [(_ & p & -> & H)|(_ & -> & _)]; [|constructor].
  cbn. rewrite section_nodes_present. exact (parseActions_records _ _ _ _ _ Hm Hlt H).
Qed.

Lemma records_when_parseItem (data : RawNode) :
  records option_list
    (let* r := when_truthy data (parseItem env data AnyType) in ret (mjoin r)).
Proof.
  intros s s' memo r Hm Hlt H. apply bind_returns in H as (r0 & s1 & H1 & H).
  injection H as <- <-.
  apply when_truthy_returns in H1 as [(_ & p & -> & H)|(_ & -> & _)]; [|constructor].
  destruct p as [node|]; cbn; [|constructor]. constructor; [|constructor].
  exact (parseItem_records _ _ _ _ _ _ Hm Hlt H).
Qed.

Lemma sure_when_truthy {A} (data : RawNode) (m : M A) (s s' : ParserState)
      (r : option A) :
  when_truthy data m s = (Normal r, s') -> JS.truthy data = true -> is_Some r.
Proof.
  intros H Ht. apply when_truthy_returns in H as [(_ & a & -> & _)|(Hf & _)]; [eauto|].
  congruence.
Qed.

Lemma sure_when_present (data : RawNode) (m : M Parsed) (s s' : ParserState)
      (r : option Parsed) :
  (JS.truthy data = true ->
   forall s0 s0' p, m s0 = (Normal p, s0') -> present p = Some p) ->
  when_truthy data m s = (Normal r, s') -> JS.truthy data = true ->
  is_Some (mjoin (present <$> r)).
Proof.
  intros Hp H Ht. apply when_truthy_returns in H as [(_ & a & -> & H)|(Hf & _)];
    [|congruence].
  cbn. rewrite (Hp Ht _ _ _ H). eauto.
Qed.

(** A node of a section that is there, and the memo of the section. *)
Lemma section_in_memo {A} (o : option A) (nodes : list YTNode) (memo e : nat)
      (s : ParserState) :
  (o = None -> nodes = []) -> memo <> e -> Forall (holds s memo) nodes ->
  forall node, node ∈ nodes ->
    exists m, with_memo o memo = Some m /\ m <> e /\ holds s m node.
Proof.
  intros Ho Hne F node Hin. destruct o as [a|].
  - exists memo. split; [reflexivity|]. split; [exact Hne|].
    exact (proj1 (List.Forall_forall _ _) F node (proj1 (list_elem_of_In _ _) Hin)).
  - rewrite Ho in Hin by reflexivity. inversion Hin.
Qed.


(** A memo that a section has left stays as it is in the sections after
    it: the steps from the state of the goal to the last state. *)
Ltac later :=
  repeat (eapply stable_trans; [eapply stable_le; [|eassumption]; lia|]);
  apply stable_refl.

(** The sections with a memo: when they are done, each section that
    [parse], [parseItem] or [parseActions] produced has its memo, which
    holds the nodes of the section and is not the memo of the endpoints. *)
Lemma parse_memo_sections_hold (data : Raw.IRawResponse) (s s' : ParserState)
      (own : MemoSections.t) (plain : PlainSections.t)
      (pr wn : option Out.IParsedResponse) (entries : option (list YTNode)) :
  parse_memo_sections env data s = (Normal own, s') ->
  MEMO s' = None
  /\ MemoSections.on_response_received_endpoints_memo own < length (heap s')
  /\ Forall (fun section => JS.truthy section.1 = true -> is_Some section.2)
       (sure_sections data (parsed_data data own plain pr wn entries))
  /\ Forall (fun section =>
               forall node, node ∈ section.1 ->
                 exists memo, section.2 = Some memo
                   /\ memo <> MemoSections.on_response_received_endpoints_memo own
                   /\ holds s' memo node)
       (memo_sections_nodes (parsed_data data own plain pr wn entries)).
Proof.
  intros H. unfold parse_memo_sections in H.
  apply bind_returns in H as ([v1 m1] & s1 & H1 & H).
  apply bind_returns in H as ([v2 m2] & s2 & H2 & H).
  apply bind_returns in H as ([v3 m3] & s3 & H3 & H).
  apply bind_returns in H as ([v4 m4] & s4 & H4 & H).
  apply bind_returns in H as ([v5 m5] & s5 & H5 & H).
  apply bind_returns in H as ([v6 m6] & s6 & H6 & H).
  apply bind_returns in H as ([v7 m7] & s7 & H7 & H).
  apply bind_returns in H as ([v8 m8] & s8 & H8 & H).
  apply bind_returns in H as ([v9 m9] & s9 & H9 & H).
  apply bind_returns in H as ([v10 m10] & s10 & H10 & H).
  injection H as <- <-.
  apply (memo_section_holds _ Parsed_nodes
           (fun p => JS.truthy (Raw.contents data) = true -> present p = Some p)) in H1
      as (E1 & M1 & L1 & S1 & F1 & P1);
    [ | apply touches_parse, Henv | apply records_parse
      | intros s0 s0' p Hp Ht; exact (parse_present _ _ _ _ Ht Hp) ].
  apply (memo_section_holds _ (fun _ => [])
           (fun r => JS.truthy (Raw.onResponseReceivedActions data) = true -> is_Some r))
    in H2 as (E2 & M2 & L2 & S2 & _ & P2);
    [ | apply touches_section_body, touches_parseRR, Henv | apply records_nothing_to_hold
      | intros s0 s0' r; apply sure_when_truthy ].
  apply (memo_section_holds _ (fun _ => [])
           (fun r => JS.truthy (Raw.onResponseReceivedEndpoints data) = true -> is_Some r))
    in H3 as (E3 & M3 & L3 & S3 & _ & P3);
    [ | apply touches_section_body, touches_parseRR, Henv | apply records_nothing_to_hold
      | intros s0 s0' r; apply sure_when_truthy ].
  apply (memo_section_holds _ (fun _ => [])
           (fun r => JS.truthy (Raw.onResponseReceivedCommands data) = true -> is_Some r))
    in H4 as (E4 & M4 & L4 & S4 & _ & P4);
    [ | apply touches_section_body, touches_parseRR, Henv | apply records_nothing_to_hold
      | intros s0 s0' r; apply sure_when_truthy ].
  apply (memo_section_holds _ (fun _ => []) (fun _ => True))
    in H5 as (E5 & M5 & L5 & S5 & _ & _);
    [ | apply touches_joined, touches_section_body, touches_parseLC, Henv
      | apply records_nothing_to_hold | auto ].
  apply (memo_section_holds _ (fun r => section_nodes (mjoin (present <$> r)))
           (fun r => JS.truthy (Raw.actions data) = true
                     -> is_Some (mjoin (present <$> r))))
    in H6 as (E6 & M6 & L6 & S6 & F6 & P6);
    [ | apply touches_section_body, touches_parseActions, Henv
      | apply records_when_parseActions
      | intros s0 s0' r; apply sure_when_present; intros _ ? ? ?;
        apply parseActions_present ].
  apply (memo_section_holds _ option_list (fun _ => True))
    in H7 as (E7 & M7 & L7 & S7 & F7 & _);
    [ | apply touches_joined, touches_section_body, touches_parseItem, Henv
      | apply records_when_parseItem | auto ].
  apply (memo_section_holds _ (fun r => section_nodes (mjoin (present <$> r)))
           (fun r => JS.truthy (Raw.header data) = true
                     -> is_Some (mjoin (present <$> r))))
    in H8 as (E8 & M8 & L8 & S8 & F8 & P8);
    [ | apply touches_section_body, touches_parse, Henv
      | apply records_when_parse
      | intros s0 s0' r; apply sure_when_present; intros Ht ? ? ?;
        apply parse_present, Ht ].
  apply (memo_section_holds _ option_list (fun _ => True))
    in H9 as (E9 & M9 & L9 & S9 & F9 & _);
    [ | apply touches_joined, touches_section_body, touches_parseItem, Henv
      | apply records_when_parseItem | auto ].
  apply items_section_holds in H10 as (M10 & L10 & S10 & E10 & P10 & F10).
  split; [exact M10|]. split; [cbn; lia|]. split.
  - unfold sure_sections. cbn [parsed_data Out.contents_memo
      Out.on_response_received_actions_memo Out.on_response_received_endpoints_memo
      Out.on_response_received_commands_memo Out.actions_memo Out.header_memo
      Out.items_memo MemoSections.contents MemoSections.contents_memo
      MemoSections.on_response_received_actions
      MemoSections.on_response_received_actions_memo
      MemoSections.on_response_received_endpoints
      MemoSections.on_response_received_endpoints_memo
      MemoSections.on_response_received_commands
      MemoSections.on_response_received_commands_memo
      MemoSections.actions MemoSections.actions_memo MemoSections.header
      MemoSections.header_memo MemoSections.items MemoSections.items_memo].
    repeat constructor; cbn [fst snd]; intros Ht.
    + rewrite (P1 Ht). cbn. eauto.
    + destruct (P2 Ht) as [? ->]. cbn. eauto.
    + destruct (P3 Ht) as [? ->]. cbn. eauto.
    + destruct (P4 Ht) as [? ->]. cbn. eauto.
    + destruct (P6 Ht) as [? ->]. cbn. eauto.
    + destruct (P8 Ht) as [? ->]. cbn. eauto.
    + rewrite E10, (P10 Ht). cbn. eauto.
  - assert (K1 : stable (S m1) s1 s10) by later.
    assert (K6 : stable (S m6) s6 s10) by later.
    assert (K7 : stable (S m7) s7 s10) by later.
    assert (K8 : stable (S m8) s8 s10) by later.
    assert (K9 : stable (S m9) s9 s10) by later.
    unfold memo_sections_nodes. cbn [parsed_data Out.contents Out.contents_memo
      Out.actions Out.actions_memo Out.live_chat_item_context_menu_supported_renderers
      Out.live_chat_item_context_menu_supported_renderers_memo Out.header
      Out.header_memo Out.sidebar Out.sidebar_memo Out.items Out.items_memo
      MemoSections.contents MemoSections.contents_memo
      MemoSections.on_response_received_endpoints_memo
      MemoSections.actions MemoSections.actions_memo
      MemoSections.live_chat_item_context_menu_supported_renderers
      MemoSections.live_chat_item_context_menu_supported_renderers_memo
      MemoSections.header MemoSections.header_memo MemoSections.sidebar
      MemoSections.sidebar_memo MemoSections.items MemoSections.items_memo].
    repeat constructor; cbn [fst snd].
    + apply section_in_memo; [intros ->; reflexivity | lia |].
      rewrite section_nodes_present.
      exact (Forall_holds_stable _ _ _ _ _ K1 (Nat.lt_succ_diag_r _) F1).
    + apply section_in_memo; [intros ->; reflexivity | lia |].
      exact (Forall_holds_stable _ _ _ _ _ K6 (Nat.lt_succ_diag_r _) F6).
    + apply section_in_memo; [intros ->; reflexivity | lia |].
      exact (Forall_holds_stable _ _ _ _ _ K7 (Nat.lt_succ_diag_r _) F7).
    + apply section_in_memo; [intros ->; reflexivity | lia |].
      exact (Forall_holds_stable _ _ _ _ _ K8 (Nat.lt_succ_diag_r _) F8).
    + apply section_in_memo; [intros ->; reflexivity | lia |].
      exact (Forall_holds_stable _ _ _ _ _ K9 (Nat.lt_succ_diag_r _) F9).
    + rewrite E10. apply section_in_memo; [intros ->; reflexivity | lia |].
      rewrite section_nodes_present. exact F10.
Qed.


(** The stages of a run of [parseResponse]: after the mutation passes no
    memo that is there changes any more. *)
Lemma parseResponse_stages (data : Raw.IRawResponse) (s s' : ParserState)
      (p : Out.IParsedResponse) :
  parseResponse env data s = (Normal p, s') ->
  exists own plain pr wn entries s1 s2,
    parse_memo_sections env data s = (Normal own, s1)
    /\ apply_mutation_passes env data own s1 = (Normal tt, s2)
    /\ p = parsed_data data own plain pr wn entries
    /\ MEMO s1 = None
    /\ stable (length (heap s2)) s2 s'.
Proof.
  intros H. rewrite parseResponse_unfold in H.
  apply bind_returns in H as (own & s1 & H1 & H).
  apply bind_returns in H as ([] & s2 & H2 & H).
  apply bind_returns in H as (plain & s3 & H3 & H).
  apply bind_returns in H as (pr & s4 & H4 & H).
  apply bind_returns in H as (wn & s5 & H5 & H).
  apply bind_returns in H as (entries & s6 & H6 & H).
  injection H as <- <-.
  exists own, plain, pr, wn, entries, s1, s2.
  destruct (parse_memo_sections_hold data s s1 own plain pr wn entries H1) as (M1 & _).
  split; [exact H1|]. split; [exact H2|]. split; [reflexivity|]. split; [exact M1|].
  destruct (touches_apply_mutation_passes env Henv data own s1) as (M2 & _).
  rewrite H2 in M2. cbn [snd] in M2. rewrite M1 in M2.
  pose proof (grows_quiet (length (heap s2)) [] (parse_plain_sections env data)
                (touches_parse_plain_sections env Henv no_memo data) s2 M2
                (le_n _) (List.Forall_nil _)) as G3.
  rewrite H3 in G3. destruct G3 as (M3 & St3 & _).
  pose proof (grows_nested env Henv (Raw.playerResponse data) (length (heap s2)) []
                s3 M3 (proj1 St3) (List.Forall_nil _)) as G4.
  rewrite H4 in G4. destruct G4 as (M4 & St4 & _).
  pose proof (grows_nested env Henv (Raw.watchNextResponse data) (length (heap s2)) []
                s4 M4 ltac:(destruct St3, St4; lia) (List.Forall_nil _)) as G5.
  rewrite H5 in G5. destruct G5 as (M5 & St5 & _).
  pose proof (grows_quiet (length (heap s2)) [] (parse_entries env data)
                (touches_parse_entries env Henv no_memo data) s5 M5
                ltac:(destruct St3, St4, St5; lia) (List.Forall_nil _)) as G6.
  rewrite H6 in G6. destruct G6 as (_ & St6 & _).
  exact (stable_trans _ _ _ _ St3
           (stable_trans _ _ _ _ St4 (stable_trans _ _ _ _ St5 St6))).
Qed.

(** The mutation passes leave a memo that is not the memo of the
    endpoints with the nodes that it holds. *)
Lemma passes_keep_held (data : Raw.IRawResponse) (own : MemoSections.t)
      (s s' : ParserState) (memo : nat) (node : YTNode) :
  MEMO s = None ->
  memo <> MemoSections.on_response_received_endpoints_memo own ->
  apply_mutation_passes env data own s = (Normal tt, s') ->
  holds s memo node -> holds s' memo node.
Proof.
  intros Hs Hne H Hh. unfold apply_mutation_passes in H.
  apply bind_returns in H as ([] & s1 & H1 & H).
  pose proof (keeps_held_applyMutations memo (MemoSections.contents_memo own)
                (mutations_of data) s node Hh) as K1.
  destruct (touches_applyMutations env Henv (MemoSections.contents_memo own)
              (mutations_of data) s) as (M1 & _).
  rewrite H1 in K1, M1. cbn [snd] in K1, M1.
  pose proof (keeps_held_touches memo
                (MemoSections.on_response_received_endpoints_memo own) _
                (touches_applyCommentsMutations env Henv _ (mutations_of data))
                ltac:(congruence) s1 ltac:(congruence) node K1) as K2.
  rewrite H in K2. exact K2.
Qed.

(** A parsed response: the sections that are sure to have a memo, and
    the nodes of the sections in their memos. *)
Lemma response_sections_hold (data : Raw.IRawResponse) (s s' : ParserState)
      (p : Out.IParsedResponse) :
  parseResponse env data s = (Normal p, s') ->
  has_its_memos data p /\ memos_hold_sections s' p.
Proof.
  intros H. unfold has_its_memos, memos_hold_sections.
  destruct (parseResponse_stages data s s' p H)
    as (own & plain & pr & wn & entries & s1 & s2 & H1 & H2 & -> & M1 & St).
  destruct (parse_memo_sections_hold data s s1 own plain pr wn entries H1)
    as (_ & _ & Sure & Held).
  split; [exact Sure|].
  eapply List.Forall_impl; [|exact Held]. cbv beta.
  intros section Hsec node Hin. destruct (Hsec node Hin) as (memo & E & Hne & Hh).
  exists memo. split; [exact E|].
  apply (passes_keep_held data own s1 s2 memo node M1 Hne H2) in Hh.
  exact (holds_stable _ _ _ _ _ St (holds_in_range _ _ _ Hh) Hh).
Qed.


Lemma memos_hold_sections_stable (s s' : ParserState) (p : Out.IParsedResponse) :
  stable (length (heap s)) s s' -> memos_hold_sections s p -> memos_hold_sections s' p.
Proof.
  intros St. apply List.Forall_impl. intros section Hsec node Hin.
  destruct (Hsec node Hin) as (memo & E & Hh). exists memo. split; [exact E|].
  exact (holds_stable _ _ _ _ _ St (holds_in_range _ _ _ Hh) Hh).
Qed.

(** A nested response is parsed by a run of its own, which creates the
    memos of its result and leaves the memos that were there. *)
Lemma nested_step (o : option Raw.IRawResponse) (s s1 : ParserState)
      (r : option Out.IParsedResponse) :
  MEMO s = None ->
  match o with
  | Some inner => let* child := parseResponse env inner in ret (Some child)
  | None => ret None
  end s = (Normal r, s1) ->
  MEMO s1 = None
  /\ stable (length (heap s)) s s1
  /\ forall inner,
       o = Some inner ->
       exists child,
         r = Some child
         /\ parseResponse env inner s = (Normal child, s1)
         /\ Forall (fun memo => length (heap s) <= memo < length (heap s1))
              (Out.all_memos child)
         /\ has_its_memos inner child
         /\ memos_hold_sections s1 child.
Proof.
  intros Hs H.
  pose proof (grows_nested env Henv o (length (heap s)) [] s Hs (le_n _)
                (List.Forall_nil _)) as G.
  rewrite H in G. destruct G as (M1 & St & B).
  split; [exact M1|]. split; [exact St|].
  intros inner ->. apply bind_returns in H as (child & s2 & H1 & H).
  injection H as <- <-. exists child.
  split; [reflexivity|]. split; [exact H1|]. split; [exact B|].
  exact (response_sections_hold inner s s2 child H1).
Qed.

End MemoContents.

Lemma only_adds_Demo : only_adds Demo.env.
Proof.
  split; intros a data s memo classname node Hin; cbn.
  - unfold Demo.new_node. destruct (String.prefix _ _); exact Hin.
  - exact Hin.
Qed.

(** C9.  Let the classes and the generator reach memos only through the
    parser, and take no node out of a memo.  When [parseResponse] returns
    for a document that nests a [playerResponse] (or a
    [watchNextResponse]), the nested document was parsed by a run of
    [parseResponse] of its own, started in a state [s_mid], and its result
    is the [player_response] (the [watch_next_response]) of the outer
    result.
    - Every memo of the outer result existed when that run started, was
      left as it was by it, and is at the end what it was then: it holds no
      node of the inner document.
    - Every memo of the nested result was created by the nested run, is
      at the end what that run made of it, and is no memo of the outer
      result.
    - The nested result has a memo for each section of the inner document
      whose parser returns an object ([contents], the three
      [onResponseReceived] lists, [actions], [header], [items]).
    - At the end, every node at the top of a section of the nested result
      that [parse], [parseItem] or [parseActions] produced is held by the
      memo of that section.
    - The same two facts hold of the outer result: at the end its memos
      hold the nodes of its own sections. *)
Theorem nested_response_keeps_to_its_own_memos
        (env : Env) (data : Raw.IRawResponse) (s s' : ParserState)
        (p : Out.IParsedResponse) :
  respects_memo env ->
  only_adds env ->
  parseResponse env data s = (Normal p, s') ->
  (forall inner,
      Raw.playerResponse data = Some inner ->
      exists s_mid child s_mid',
        parseResponse env inner s_mid = (Normal child, s_mid')
        /\ Out.player_response p = Some child
        /\ Forall (fun memo =>
                     memo < length (heap s_mid)
                     /\ heap s_mid' !! memo = heap s_mid !! memo
                     /\ heap s' !! memo = heap s_mid !! memo)
             (Out.memos p)
        /\ Forall (fun memo =>
                     length (heap s_mid) <= memo < length (heap s_mid')
                     /\ heap s' !! memo = heap s_mid' !! memo
                     /\ memo ∉ Out.memos p)
             (Out.all_memos child)
        /\ has_its_memos inner child
        /\ memos_hold_sections s' child)
  /\ (forall inner,
         Raw.watchNextResponse data = Some inner ->
         exists s_mid child s_mid',
           parseResponse env inner s_mid = (Normal child, s_mid')
           /\ Out.watch_next_response p = Some child
           /\ Forall (fun memo =>
                        memo < length (heap s_mid)
                        /\ heap s_mid' !! memo = heap s_mid !! memo
                        /\ heap s' !! memo = heap s_mid !! memo)
                (Out.memos p)
           /\ Forall (fun memo =>
                        length (heap s_mid) <= memo < length (heap s_mid')
                        /\ heap s' !! memo = heap s_mid' !! memo
                        /\ memo ∉ Out.memos p)
                (Out.all_memos child)
           /\ has_its_memos inner child
           /\ memos_hold_sections s' child)
  /\ has_its_memos data p
  /\ memos_hold_sections s' p.
Proof.
  intros Henv Hadd H.
  pose proof (response_sections_hold env Henv Hadd data s s' p H) as Houter.
  rewrite parseResponse_any_MEMO, parseResponse_unfold in H by exact Henv.
  remember (set_MEMO None s) as s0 eqn:Hs0.
  assert (M0 : MEMO s0 = None) by (subst s0; reflexivity).
  clear Hs0.
  apply bind_returns in H as (own & s1 & H1 & H).
  apply bind_returns in H as ([] & s2 & H2 & H).
  apply bind_returns in H as (plain & s3 & H3 & H).
  apply bind_returns in H as (pr & s4 & H4 & H).
  apply bind_returns in H as (wn & s5 & H5 & H).
  apply bind_returns in H as (entries & s6 & H6 & H).
  injection H as <- <-.
  pose proof (grows_parse_memo_sections env Henv (length (heap s0)) [] data s0 M0
                (le_n _) (List.Forall_nil _)) as G1.
  rewrite H1 in G1. destruct G1 as (M1 & St1 & B1).
  pose proof (grows_touches (fun memo => In memo (memo_sections_memos own))
                (length (heap s0)) (memo_sections_memos own)
                (apply_mutation_passes env data own)
                (touches_apply_mutation_passes env Henv data own)
                (fun memo Hin => Hin) s1 M1 (proj1 St1) B1) as G2.
  rewrite H2 in G2. destruct G2 as (M2 & St2 & _).
  pose proof (grows_quiet (length (heap s0)) [] (parse_plain_sections env data)
                (touches_parse_plain_sections env Henv no_memo data) s2 M2
                ltac:(destruct St1, St2; lia) (List.Forall_nil _)) as G3.
  rewrite H3 in G3. destruct G3 as (M3 & St3 & _).
  assert (L3 : length (heap s1) <= length (heap s3)) by (destruct St2, St3; lia).
  destruct (nested_step env Henv Hadd _ s3 s4 pr M3 H4) as (M4 & St4 & N4).
  destruct (nested_step env Henv Hadd _ s4 s5 wn M4 H5) as (M5 & St5 & N5).
  pose proof (grows_quiet (length (heap s5)) [] (parse_entries env data)
                (touches_parse_entries env Henv no_memo data) s5 M5
                (le_n _) (List.Forall_nil _)) as G6.
  rewrite H6 in G6. destruct G6 as (_ & St6 & _).
  assert (Bown : forall memo,
             memo ∈ Out.memos (parsed_data data own plain pr wn entries) ->
             memo < length (heap s3)).
  { intros memo Hin. apply list_elem_of_In, memos_parsed_data, list_elem_of_In in Hin.
    pose proof (proj2 (proj1 (Forall_forall _ _) B1 memo Hin)). lia. }
  assert (L4 : length (heap s3) <= length (heap s4)) by apply St4.
  assert (L5 : length (heap s4) <= length (heap s5)) by apply St5.
  assert (T4 : stable (length (heap s4)) s4 s6).
  { exact (stable_trans _ _ _ _ St5 (stable_le _ _ _ _ L5 St6)). }
  split; [|split; [|exact Houter]]; intros inner Hinner.
  - destruct (N4 inner Hinner) as (child & -> & E & B & Sure & Held).
    exists s3, child, s4. split; [exact E|]. split; [reflexivity|].
    split; [|split; [|split; [exact Sure|]]].
    + apply Forall_forall. intros memo Hin. apply Bown in Hin.
      split; [exact Hin|]. split; [exact (stable_lookup _ _ _ _ St4 Hin)|].
      rewrite (stable_lookup _ _ _ _ T4) by lia.
      exact (stable_lookup _ _ _ _ St4 Hin).
    + eapply List.Forall_impl; [|exact B]. cbv beta. intros memo Hm.
      split; [exact Hm|]. split; [apply (stable_lookup _ _ _ _ T4); lia|].
      intros Hin. apply Bown in Hin. lia.
    + exact (memos_hold_sections_stable _ _ _ T4 Held).
  - destruct (N5 inner Hinner) as (child & -> & E & B & Sure & Held).
    exists s4, child, s5. split; [exact E|]. split; [reflexivity|].
    split; [|split; [|split; [exact Sure|]]].
    + apply Forall_forall. intros memo Hin. apply Bown in Hin.
      assert (Hlt : memo < length (heap s4)) by lia.
      split; [exact Hlt|]. split; [exact (stable_lookup _ _ _ _ St5 Hlt)|].
      rewrite (stable_lookup _ _ _ _ St6) by lia.
      exact (stable_lookup _ _ _ _ St5 Hlt).
    + eapply List.Forall_impl; [|exact B]. cbv beta. intros memo Hm.
      split; [exact Hm|]. split; [apply (stable_lookup _ _ _ _ St6); lia|].
      intros Hin. apply Bown in Hin. lia.
    + exact (memos_hold_sections_stable _ _ _ St6 Held).
Qed.

Lemma nested_response_keeps_to_its_own_memos_witness :
  exists p s',
    parseResponse Demo.env Demo.outer_document Demo.initial = (Normal p, s')
    /\ (exists s_mid child s_mid',
          parseResponse Demo.env Demo.inner_document s_mid = (Normal child, s_mid')
          /\ Out.player_response p = Some child
          /\ Forall (fun memo =>
                       memo < length (heap s_mid)
                       /\ heap s_mid' !! memo = heap s_mid !! memo
                       /\ heap s' !! memo = heap s_mid !! memo)
               (Out.memos p)
          /\ Forall (fun memo =>
                       length (heap s_mid) <= memo < length (heap s_mid')
                       /\ heap s' !! memo = heap s_mid' !! memo
                       /\ memo ∉ Out.memos p)
               (Out.all_memos child)
          /\ has_its_memos Demo.inner_document child
          /\ memos_hold_sections s' child)
    /\ has_its_memos Demo.outer_document p
    /\ memos_hold_sections s' p.
Proof.
  eexists _, _. split; [vm_compute; reflexivity|].
  lazymatch goal with
  | |- _ /\ has_its_memos _ ?p /\ memos_hold_sections ?s' _ =>
      pose proof (nested_response_keeps_to_its_own_memos Demo.env
                   Demo.outer_document Demo.initial s' p respects_memo_Demo
                   only_adds_Demo) as H
  end.
  lazymatch type of H with ?A -> _ => assert (Ha : A) by (vm_compute; reflexivity) end.
  specialize (H Ha).
  destruct H as (H & _ & Houter).
  split; [exact (H Demo.inner_document eq_refl) | exact Houter].
Defined.

(** The scenario of the specification: the nested response has one video
    in the memo of its contents; the outer response, which has no contents,
    has no contents memo, and its only memo, that of its header, holds the
    alert of the header and nothing else. *)
Example nested_response_scenario :
  exists p child s',
    parseResponse Demo.env Demo.outer_document Demo.initial = (Normal p, s')
    /\ Out.player_response p = Some child
    /\ Out.contents_memo p = None
    /\ Out.memos p = [7]
    /\ deref 7 s' = {[ "Alert" := [ {| node_type := "Alert";
                                       fields := [("text", JStr "hello")] |} ] ]}
    /\ Out.contents_memo child = Some 10
    /\ Memo.getType (node_class "Video") (deref 10 s')
       = [ {| node_type := "Video"; fields := [("videoId", JStr "v")] |} ].
Proof.
  eexists _, _, _.
  split; [vm_compute; reflexivity|].
  repeat (split; [vm_compute; reflexivity|]).
  vm_compute. reflexivity.
Qed.

(** ** Parsing with no active memo *)

Lemma plain_sections_run_without_memo
      (env : Env) (data : Raw.IRawResponse) (s s1 s2 : ParserState)
      (own : MemoSections.t) (u : unit) :
  respects_memo env ->
  parse_memo_sections env data s = (Normal own, s1) ->
  apply_mutation_passes env data own s1 = (Normal u, s2) ->
  MEMO s2 = None
  /\ MEMO (parse_plain_sections env data s2).2 = None
  /\ heap (parse_plain_sections env data s2).2 = heap s2.
Proof.
  intros Henv H1 H2.
  change (parse_memo_sections env data s)
    with (parse_memo_sections env data (set_MEMO None s)) in H1.
  pose proof (grows_parse_memo_sections env Henv 0 [] data (set_MEMO None s) eq_refl
                (Nat.le_0_l _) (List.Forall_nil _)) as G1.
  rewrite H1 in G1. destruct G1 as (M1 & St1 & B1).
  pose proof (grows_touches (fun memo => In memo (memo_sections_memos own)) 0
                (memo_sections_memos own) (apply_mutation_passes env data own)
                (touches_apply_mutation_passes env Henv data own)
                (fun memo Hin => Hin) s1 M1 (Nat.le_0_l _) B1) as G2.
  rewrite H2 in G2. destruct G2 as (M2 & _ & _).
  split; [exact M2|].
  destruct (touches_parse_plain_sections env Henv no_memo data s2) as (T1 & T2 & T3).
  split; [congruence|].
  apply list_eq. intros memo. apply T3; [intros [] | congruence].
Qed.

(** C10.  Adding to an absent memo is not an error: [_addToMemo] returns
    normally and changes nothing when no memo is active.  Only reading the
    active memo before one was created throws.  So a [parseItem] whose
    constructor succeeds while no memo is active returns the node it
    constructed, and the state is the one the constructor left.  This is
    how the sections of [parseResponse] from [continuation] to
    [bgChallenge] run (captions, storyboards, endscreen, cards among them):
    behind the sections with a memo and the mutation passes no memo is
    active, and these sections leave every memo as it is. *)
Theorem absent_memo_is_not_an_error (env : Env) :
  (forall classname result s,
      MEMO s = None -> _addToMemo classname result s = (Normal tt, s))
  /\ (forall s,
         _getMemo s =
           match MEMO s with
           | None =>
               (Throw (Error "Parser#getMemo() called before Parser#createMemo()"), s)
           | Some memo => (Normal memo, s)
           end)
  /\ (forall data key0 rest validTypes s C s1 node s2,
         JS.truthy data = true ->
         JS.Object_keys data = Normal (key0 :: rest) ->
         shouldIgnore (sanitizeClassName key0) = false ->
         dispatch env (sanitizeClassName key0) (JS.prop data key0) s = (Normal C, s1) ->
         accepted validTypes C ->
         new_ env C (JS.prop data key0) s1 = (Normal node, s2) ->
         MEMO s2 = None ->
         parseItem env data validTypes s = (Normal (Some node), s2))
  /\ (respects_memo env ->
      forall data s own s1 u s2,
        parse_memo_sections env data s = (Normal own, s1) ->
        apply_mutation_passes env data own s1 = (Normal u, s2) ->
        MEMO s2 = None
        /\ MEMO (parse_plain_sections env data s2).2 = None
        /\ heap (parse_plain_sections env data s2).2 = heap s2).
Proof.
  split; [|split; [|split]].
  - intros classname result s H. unfold _addToMemo. rewrite H. reflexivity.
  - intros s. reflexivity.
  - intros data key0 rest validTypes s C s1 node s2 Ht Hk Hi Hd Ha Hn Hm.
    rewrite (parseItem_wrapper env data key0 rest validTypes s Ht Hk Hi), Hd.
    apply accepts_accepted in Ha. rewrite Ha, Hn.
    unfold _addToMemo. rewrite Hm. reflexivity.
  - intros Henv data s own s1 u s2.
    apply (plain_sections_run_without_memo env data s s1 s2 own u Henv).
Qed.

Lemma absent_memo_is_not_an_error_witness :
  _addToMemo "Video" (Demo.video_node "a") Demo.initial = (Normal tt, Demo.initial)
  /\ parseItem Demo.env (Demo.video "a") (OneType (node_class "Video")) Demo.initial
     = (Normal (Some (Demo.video_node "a")), Demo.initial)
  /\ exists own s1 u s2,
       parse_memo_sections Demo.env Raw.empty Demo.initial = (Normal own, s1)
       /\ apply_mutation_passes Demo.env Raw.empty own s1 = (Normal u, s2)
       /\ MEMO s2 = None
       /\ MEMO (parse_plain_sections Demo.env Raw.empty s2).2 = None
       /\ heap (parse_plain_sections Demo.env Raw.empty s2).2 = heap s2.
Proof.
  split; [|split].
  - apply (proj1 (absent_memo_is_not_an_error Demo.env)). reflexivity.
  - apply (proj1 (proj2 (proj2 (absent_memo_is_not_an_error Demo.env)))
             (Demo.video "a") "videoRenderer" [] (OneType (node_class "Video"))
             Demo.initial (node_class "Video") Demo.initial);
      reflexivity.
  - eexists _, _, _, _. split; [vm_compute; reflexivity|].
    split; [vm_compute; reflexivity|].
    lazymatch goal with
    | |- MEMO ?s2 = None /\ _ =>
        refine (proj2 (proj2 (proj2 (absent_memo_is_not_an_error Demo.env)))
                  respects_memo_Demo Raw.empty Demo.initial _ _ tt s2 _ _);
          vm_compute; reflexivity
    end.
Defined.

(** ** The scenarios of the specification, run in the environment [Demo] *)

Example sanitize_video : sanitizeClassName "videoRenderer" = "Video".
Proof. reflexivity. Qed.

Example sanitize_radio : sanitizeClassName "musicRadioShelfRenderer" = "MusicMixShelf".
Proof. reflexivity. Qed.

(** A video and an ad: one node, no ad node, no event, one video in the
    memo of the contents. *)
Example scenario_video_and_ad :
  exists p memo s',
    parseResponse Demo.env
      (Raw.with_contents (JArr [Demo.video "a"; JObj [("adSlotRenderer", JObj [])]])
         Raw.empty)
      Demo.initial = (Normal p, s')
    /\ Out.contents p = Some (Parsed_super (Super_array [Demo.video_node "a"]))
    /\ Out.contents_memo p = Some memo
    /\ Memo.getType (node_class "Video") (deref memo s') = [Demo.video_node "a"]
    /\ reported s' = [].
Proof.
  eexists _, _, _. split; [vm_compute; reflexivity|].
  repeat (split; [vm_compute; reflexivity|]). vm_compute. reflexivity.
Qed.

Example scenario_radio_shelf :
  exists p s',
    parseResponse Demo.env
      (Raw.with_contents
         (JArr [JObj [("musicRadioShelfRenderer", JObj [("title", JStr "x")])]])
         Raw.empty)
      Demo.initial = (Normal p, s')
    /\ Out.contents p
       = Some (Parsed_super
                 (Super_array [ {| node_type := "MusicMixShelf";
                                   fields := [("title", JStr "x")] |} ])).
Proof. eexists _, _. split; vm_compute; reflexivity. Qed.

Example scenario_section_list_continuation :
  exists p s',
    parseResponse Demo.env
      (Raw.with_continuationContents
         (JObj [("sectionListContinuation", JObj [("contents", JArr [])])]) Raw.empty)
      Demo.initial = (Normal p, s')
    /\ Out.continuation_contents p
       = Some {| node_type := "SectionListContinuation";
                 fields := [("contents", JArr [])] |}.
Proof. eexists _, _. split; vm_compute; reflexivity. Qed.

Example scenario_response_received_actions :
  exists p s',
    parseResponse Demo.env
      (Raw.with_onResponseReceivedActions
         (JArr [ JObj [("appendContinuationItemsAction", JObj [])];
                 JObj [("unknownAction", JObj [])] ]) Raw.empty)
      Demo.initial = (Normal p, s')
    /\ Out.on_response_received_actions p
       = Some [ {| node_type := "AppendContinuationItemsAction"; fields := [] |} ].
Proof. eexists _, _. split; vm_compute; reflexivity. Qed.

(** A menu item and no [frameworkUpdates]: one [mutation_data_missing]. *)
Example scenario_menu_item_without_mutations :
  exists p s',
    parseResponse Demo.env
      (Raw.with_contents
         (JArr [JObj [("musicMultiSelectMenuItemRenderer",
                        JObj [("title", JStr "T"); ("formItemEntityKey", JStr "K")])]])
         Raw.empty)
      Demo.initial = (Normal p, s')
    /\ reported s' = [ev_mutation_data_missing "MusicMultiSelectMenuItem"].
Proof. eexists _, _. split; vm_compute; reflexivity. Qed.

(** No heat-map node in the contents, a heat-map entity among the
    mutations: the memo of the contents holds one MacroMarkersListEntity. *)
Example scenario_heat_map :
  exists p memo s',
    parseResponse Demo.env
      (Raw.with_contents (JArr [Demo.video "a"])
         (Raw.with_frameworkUpdates
            (JObj [("entityBatchUpdate", JObj [("mutations", JArr [Demo.heat_map])])])
            Raw.empty))
      Demo.initial = (Normal p, s')
    /\ Out.contents_memo p = Some memo
    /\ Memo.getType MacroMarkersListEntity (deref memo s') = [Demo.heat_map_node].
Proof.
  eexists _, _, _. split; [vm_compute; reflexivity|].
  split; vm_compute; reflexivity.
Qed.

(** Captions are parsed with no memo: the node is returned and no memo
    holds it. *)
Example scenario_captions :
  exists p s',
    parseResponse Demo.env
      (Raw.with_captions
         (JObj [("playerCaptionsTracklistRenderer", JObj [("captionTracks", JArr [])])])
         Raw.empty)
      Demo.initial = (Normal p, s')
    /\ Out.captions p
       = Some {| node_type := "PlayerCaptionsTracklist";
                 fields := [("captionTracks", JArr [])] |}
    /\ Forall (fun memo => memo = ∅) (heap s')
    /\ reported s' = [].
Proof.
  eexists _, _. split; [vm_compute; reflexivity|].
  split; [vm_compute; reflexivity|]. split; [|vm_compute; reflexivity].
  vm_compute. repeat constructor.
Qed.

(** The failure of C2 from end to end: the endpoints of a response append
    a comment view and the response has no [frameworkUpdates];
    [parseResponse] reports the missing mutations and throws. *)
Example scenario_comment_views_without_mutations :
  exists s',
    parseResponse Demo.env_nesting Demo.comments_document Demo.initial
    = (Throw (TypeError "Cannot read properties of undefined (reading 'find')"), s')
    /\ reported s' = [ev_mutation_data_missing "CommentView"].
Proof. eexists. split; vm_compute; reflexivity. Qed.

(** * Further properties of the parser and of its callers *)

(** ** The shapes of the inputs *)

Section Shapes.

Variable env : Env.

Lemma parse_array_case (items : list RawNode) (requireArray : bool)
      (validTypes : ValidTypes) (s : ParserState) :
  parse env (JArr items) requireArray validTypes s =
    match parseArray env (JArr items) validTypes s with
    | (Normal nodes, s') =>
        (Normal (if requireArray then Parsed_array nodes
                 else Parsed_super (Super_array nodes)), s')
    | (Throw e, s') => (Throw e, s')
    end.
Proof.
  unfold parse, parseArray, bind. cbn [JS.truthy negb].
  destruct (parseItems env items validTypes [] s) as [[nodes|e] s']; reflexivity.
Qed.

Lemma parse_single_case (data : RawNode) (validTypes : ValidTypes) (s : ParserState) :
  JS.truthy data = true -> JS.isArray data = false ->
  parse env data false validTypes s =
    match parseItem env data validTypes s with
    | (Normal result, s') => (Normal (Parsed_super (Super_item result)), s')
    | (Throw e, s') => (Throw e, s')
    end.
Proof.
  intros Ht Ha. unfold parse. rewrite Ht. cbn [negb].
  destruct data; try discriminate Ha; unfold bind;
    destruct (parseItem env _ validTypes s) as [[result|e] s']; reflexivity.
Qed.

End Shapes.

(** X1.  [parse] returns [null] for an absent input and leaves the state
    alone; for an array it returns what [parseArray] returns, bare when an
    array is required and wrapped otherwise; for a single item it returns
    what [parseItem] returns, wrapped.  It throws exactly when an array is
    required and a present input is not one, and then nothing has been
    parsed. *)
Theorem parse_throws_only_for_a_required_array
        (env : Env) (data : RawNode) (requireArray : bool) (validTypes : ValidTypes)
        (s : ParserState) :
  (JS.truthy data = false ->
   parse env data requireArray validTypes s = (Normal Parsed_null, s))
  /\ (JS.isArray data = true ->
      exists nodes s',
        parseArray env data validTypes s = (Normal nodes, s')
        /\ parse env data requireArray validTypes s
           = (Normal (if requireArray then Parsed_array nodes
                      else Parsed_super (Super_array nodes)), s'))
  /\ (JS.truthy data = true -> JS.isArray data = false -> requireArray = false ->
      exists result s',
        parseItem env data validTypes s = (Normal result, s')
        /\ parse env data requireArray validTypes s
           = (Normal (Parsed_super (Super_item result)), s'))
  /\ ((exists e s', parse env data requireArray validTypes s = (Throw e, s'))
      <-> (requireArray = true /\ JS.truthy data = true /\ JS.isArray data = false))
  /\ (forall e s',
         parse env data requireArray validTypes s = (Throw e, s') ->
         e = ParsingError "Expected array but got a single item" /\ s' = s).
Proof.
  assert (Harr : JS.isArray data = true ->
                 exists nodes s',
                   parseArray env data validTypes s = (Normal nodes, s')
                   /\ parse env data requireArray validTypes s
                      = (Normal (if requireArray then Parsed_array nodes
                                 else Parsed_super (Super_array nodes)), s')).
  { intros Ha. destruct data; try discriminate Ha.
    destruct (parseArray_total env items validTypes s) as (nodes & s' & E).
    exists nodes, s'. split; [exact E|]. rewrite parse_array_case, E. reflexivity. }
  assert (Hitem : JS.truthy data = true -> JS.isArray data = false ->
                  exists result s',
                    parseItem env data validTypes s = (Normal result, s')
                    /\ parse env data false validTypes s
                       = (Normal (Parsed_super (Super_item result)), s')).
  { intros Ht Ha. destruct (parseItem_total env data validTypes s) as (r & s' & E).
    exists r, s'. split; [exact E|]. rewrite parse_single_case, E by assumption.
    reflexivity. }
  assert (Hreq : JS.truthy data = true -> JS.isArray data = false ->
                 parse env data true validTypes s
                 = (Throw (ParsingError "Expected array but got a single item"), s)).
  { intros Ht Ha. unfold parse. rewrite Ht. destruct data; try discriminate Ha;
      reflexivity. }
  assert (Hnull : JS.truthy data = false ->
                  parse env data requireArray validTypes s = (Normal Parsed_null, s)).
  { intros Ht. unfold parse. rewrite Ht. reflexivity. }
  split; [exact Hnull|]. split; [exact Harr|].
  split; [intros Ht Ha ->; apply Hitem; assumption|].
  assert (Hcases : forall e s',
             parse env data requireArray validTypes s = (Throw e, s') ->
             requireArray = true /\ JS.truthy data = true /\ JS.isArray data = false).
  { intros e s' E. destruct (JS.truthy data) eqn:Ht.
    - destruct (JS.isArray data) eqn:Ha.
      + destruct (Harr eq_refl) as (? & ? & _ & E'). congruence.
      + destruct requireArray; [auto|].
        destruct (Hitem eq_refl eq_refl) as (? & ? & _ & E'). congruence.
    - rewrite (Hnull eq_refl) in E. discriminate E. }
  split.
  - split.
    + intros (e & s' & E). exact (Hcases e s' E).
    + intros (-> & Ht & Ha). eexists _, _. apply Hreq; assumption.
  - intros e s' E. destruct (Hcases e s' E) as (-> & Ht & Ha).
    rewrite (Hreq Ht Ha) in E. injection E as <- <-. auto.
Qed.

Section Commands.

Variable env : Env.

Lemma parseCommand_keys_total (data : RawNode) (keys : list string) :
  JS.nullish data = false ->
  forall s, exists result s', parseCommand_keys env data keys s = (Normal result, s').
Proof.
  intros Hn. induction keys as [|key rest IH]; intros s; [cbn; eauto|].
  rewrite (parseCommand_keys_cons env data key rest s Hn).
  destruct (command_regexp key || endpoint_regexp key || action_regexp key); [|apply IH].
  destruct (shouldIgnore (sanitizeClassName key)); [eauto|].
  destruct (RUNTIME_NODES s !! sanitizeClassName key) as [C|]; [|apply IH].
  destruct (new_ env C (JS.prop data key) s) as [[node|e] s']; [eauto | apply IH].
Qed.

Lemma parseCommand_total (data : RawNode) (s : ParserState) :
  exists result s', parseCommand env data s = (Normal result, s').
Proof.
  destruct (JS.Object_keys data) as [keys|e] eqn:Hk.
  - rewrite (parseCommand_Normal_keys env data keys s Hk).
    apply parseCommand_keys_total. exact (Object_keys_Normal _ _ Hk).
  - unfold parseCommand, bind, try_catch, lift. rewrite Hk. cbn. eauto.
Qed.

Lemma parseCommands_loop_total (commands : list RawNode) :
  forall results s,
  exists nodes s',
    parseCommands_loop env commands results s = (Normal (results ++ nodes), s')
    /\ length nodes <= length commands.
Proof.
  induction commands as [|item rest IH]; intros results s.
  - exists [], s. rewrite app_nil_r. split; [reflexivity | cbn; lia].
  - cbn [parseCommands_loop]. unfold bind.
    destruct (parseCommand_total item s) as (result & s1 & ->).
    destruct (IH (match result with Some node => results ++ [node] | None => results end) s1)
      as (nodes & s' & -> & Hl).
    destruct result as [node|].
    + exists (node :: nodes), s'. rewrite <- app_assoc. split; [reflexivity | cbn; lia].
    + exists nodes, s'. split; [reflexivity | cbn; lia].
Qed.

End Commands.

(** X2.  [parseCommand] never throws, whatever it is given: a value that
    has no keys ([undefined], [null], a number) gives [undefined] and the
    state is untouched, and an exception of a constructor is caught. *)
Theorem parse_command_never_throws (env : Env) (data : RawNode) (s : ParserState) :
  (exists result s', parseCommand env data s = (Normal result, s'))
  /\ (JS.own_entries data = [] -> parseCommand env data s = (Normal None, s)).
Proof.
  split; [apply parseCommand_total|].
  intros He. unfold parseCommand, bind, try_catch, lift, JS.Object_keys.
  destruct (JS.nullish data); [reflexivity|]. rewrite He. reflexivity.
Qed.

(** X3.  [parseCommands] returns normally on every array, with at most one
    node for each command; on any other input it throws ['Expected array
    but got a single item'] when the input is present and returns an empty
    array, the state untouched, when it is absent. *)
Theorem parse_commands_shape (env : Env) (commands : RawNode) (s : ParserState) :
  match commands with
  | JArr items =>
      exists nodes s',
        parseCommands env commands s = (Normal nodes, s')
        /\ length nodes <= length items
  | _ =>
      parseCommands env commands s =
        if JS.truthy commands
        then (Throw (ParsingError "Expected array but got a single item"), s)
        else (Normal [], s)
  end.
Proof.
  destruct commands as [| |b|n|str|items|props];
    try (unfold parseCommands, JS.truthy; reflexivity).
  - unfold parseCommands, JS.truthy. destruct b; reflexivity.
  - unfold parseCommands, JS.truthy. destruct (n =? 0)%Z; reflexivity.
  - unfold parseCommands, JS.truthy. destruct (String.eqb str ""); reflexivity.
  - destruct (parseCommands_loop_total env items [] s) as (nodes & s' & E & Hl).
    exists nodes, s'. split; [exact E | exact Hl].
Qed.

Section Continuations.

Variable env : Env.

Lemma first_of_hit (data : RawNode) (key : string) (C : YTNodeConstructor)
      (post : list (string * YTNodeConstructor)) (s : ParserState) :
  JS.nullish data = false ->
  JS.truthy (JS.prop data key) = true ->
  first_of env data ((key, C) :: post) s =
    match new_ env C (JS.prop data key) s with
    | (Normal node, s') => (Normal (Some node), s')
    | (Throw e, s') => (Throw e, s')
    end.
Proof.
  intros Hn Ht. cbn [first_of]. unfold bind at 1. unfold lift.
  rewrite (get_not_nullish data key Hn), Ht. unfold bind, ret.
  destruct (new_ env C (JS.prop data key) s) as [[node|e] s']; reflexivity.
Qed.

Lemma first_of_lacks (data : RawNode) (pre rest : list (string * YTNodeConstructor))
      (s : ParserState) :
  JS.nullish data = false ->
  lacks pre data = true ->
  first_of env data (pre ++ rest) s = first_of env data rest s.
Proof.
  intros Hn. induction pre as [|[key C] pre IH]; [reflexivity|].
  cbn [lacks forallb fst]. intros H. apply andb_true_iff in H as [Hk Hp].
  apply negb_true_iff in Hk.
  cbn [app first_of]. unfold bind at 1. unfold lift.
  rewrite (get_not_nullish data key Hn), Hk. apply IH, Hp.
Qed.

Lemma first_of_nullish (data : RawNode) (key : string) (C : YTNodeConstructor)
      (post : list (string * YTNodeConstructor)) (s : ParserState) :
  JS.nullish data = true ->
  first_of env data ((key, C) :: post) s
  = (Throw (TypeError (JS.cannot_read data key)), s).
Proof.
  intros Hn. cbn [first_of]. unfold bind, lift, JS.get. rewrite Hn. reflexivity.
Qed.

(** The callback of [parseRR] on one action. *)
Lemma parseRR_map_cons (action : RawNode) (rest : list RawNode) (s : ParserState) :
  parseRR_map env (action :: rest) s =
    match first_of env action response_actions s with
    | (Normal item, s1) =>
        match parseRR_map env rest s1 with
        | (Normal items, s2) =>
            (Normal (match item with Some node => node :: items | None => items end), s2)
        | (Throw e, s2) => (Throw e, s2)
        end
    | (Throw e, s1) => (Throw e, s1)
    end.
Proof.
  cbn [parseRR_map]. unfold bind at 1. fold response_actions.
  change (first_of env action _ s) with (first_of env action response_actions s).
  destruct (first_of env action response_actions s) as [[item|e] s1]; [|reflexivity].
  unfold bind, ret. destruct (parseRR_map env rest s1) as [[items|e] s2]; reflexivity.
Qed.

Lemma parseRR_map_skip (pre post : list RawNode) (action : RawNode) :
  JS.nullish action = false ->
  lacks response_actions action = true ->
  forall s, parseRR_map env (pre ++ action :: post) s = parseRR_map env (pre ++ post) s.
Proof.
  intros Hn Hl. induction pre as [|a pre IH]; intros s.
  - cbn [app]. rewrite parseRR_map_cons.
    rewrite <- (app_nil_r response_actions) at 1.
    rewrite (first_of_lacks action response_actions [] s Hn Hl). cbn [first_of]. unfold ret.
    destruct (parseRR_map env post s) as [[items|e] s2]; reflexivity.
  - cbn [app]. rewrite !parseRR_map_cons.
    destruct (first_of env a response_actions s) as [[item|e] s1]; [|reflexivity].
    rewrite IH. reflexivity.
Qed.

Lemma parseRR_map_nullish (items : list RawNode) :
  Exists (fun action => JS.nullish action = true) items ->
  forall s, exists e s', parseRR_map env items s = (Throw e, s').
Proof.
  induction 1 as [action rest Hn | action rest _ IH]; intros s;
    rewrite parseRR_map_cons.
  - unfold response_actions. rewrite (first_of_nullish action _ _ _ s Hn). eauto.
  - destruct (first_of env action response_actions s) as [[item|e] s1]; [|eauto].
    destruct (IH s1) as (e & s' & ->). eauto.
Qed.

End Continuations.

(** X4.  [parseLC] tries its eight continuation classes in the order of the
    source, not in the order of the keys of the document: the first class
    whose key holds a truthy value is constructed from that value and
    nothing else is looked at.  An exception of the constructor is not
    caught.  A value without any of the keys gives [null], the state
    untouched, and [undefined] or [null] makes it throw a [TypeError]. *)
Theorem parseLC_takes_the_first_class_of_its_list
        (env : Env) (data : RawNode) (s : ParserState) :
  parseLC env data = first_of env data continuation_classes
  /\ (JS.nullish data = true ->
      parseLC env data s
      = (Throw (TypeError (JS.cannot_read data "itemSectionContinuation")), s))
  /\ (JS.nullish data = false ->
      (lacks continuation_classes data = true -> parseLC env data s = (Normal None, s))
      /\ forall pre key C post,
           continuation_classes = pre ++ (key, C) :: post ->
           lacks pre data = true ->
           JS.truthy (JS.prop data key) = true ->
           parseLC env data s =
             match new_ env C (JS.prop data key) s with
             | (Normal node, s') => (Normal (Some node), s')
             | (Throw e, s') => (Throw e, s')
             end).
Proof.
  split; [reflexivity|]. split.
  - intros Hn. apply (first_of_nullish env data _ _ _ s Hn).
  - intros Hn. split.
    + intros Hl. change (parseLC env data s) with (first_of env data continuation_classes s).
      rewrite <- (app_nil_r continuation_classes).
      apply (first_of_lacks env data continuation_classes [] s Hn Hl).
    + intros pre key C post Hc Hl Ht.
      change (parseLC env data s) with (first_of env data continuation_classes s).
      rewrite Hc, (first_of_lacks env data pre _ s Hn Hl).
      apply first_of_hit; assumption.
Qed.

Lemma parseLC_takes_the_first_class_of_its_list_witness :
  parseLC Demo.env
    (JObj [ ("gridContinuation", JObj [("items", JArr [])]);
            ("sectionListContinuation", JObj [("contents", JArr [])]) ])
    Demo.initial
  = (Normal (Some {| node_type := "SectionListContinuation";
                     fields := [("contents", JArr [])] |}), Demo.initial).
Proof.
  apply (proj2 (proj2 (proj2 (parseLC_takes_the_first_class_of_its_list Demo.env
                                (JObj [ ("gridContinuation", JObj [("items", JArr [])]);
                                        ("sectionListContinuation",
                                          JObj [("contents", JArr [])]) ])
                                Demo.initial)) eq_refl)
           [("itemSectionContinuation", ItemSectionContinuation)]
           "sectionListContinuation" SectionListContinuation
           [ ("liveChatContinuation", LiveChatContinuation);
             ("musicPlaylistShelfContinuation", MusicPlaylistShelfContinuation);
             ("musicShelfContinuation", MusicShelfContinuation);
             ("gridContinuation", GridContinuation);
             ("playlistPanelContinuation", PlaylistPanelContinuation);
             ("continuationCommand", ContinuationCommand) ]
           eq_refl eq_refl eq_refl).
Defined.

(** X5.  [parseRR] needs an array of actions: on anything else, and on an
    array that holds [undefined] or [null], it throws.  An action that has
    none of the five keys of the callback is left out of the result, and the
    result and the state are what they are without it. *)
Theorem parseRR_skips_unknown_actions
        (env : Env) (actions : RawNode) (s : ParserState) :
  (JS.isArray actions = false ->
   exists msg, parseRR env actions s = (Throw (TypeError msg), s))
  /\ (forall items,
         actions = JArr items ->
         Exists (fun action => JS.nullish action = true) items ->
         exists e s', parseRR env actions s = (Throw e, s'))
  /\ (forall pre action post,
         actions = JArr (pre ++ action :: post) ->
         JS.nullish action = false ->
         lacks response_actions action = true ->
         parseRR env actions s = parseRR env (JArr (pre ++ post)) s).
Proof.
  split; [|split].
  - intros Ha. destruct actions; try discriminate Ha; eexists; reflexivity.
  - intros items -> Hex. apply (parseRR_map_nullish env items Hex s).
  - intros pre action post -> Hn Hl.
    apply (parseRR_map_skip env pre post action Hn Hl s).
Qed.

Lemma parseRR_skips_unknown_actions_witness :
  parseRR Demo.env
    (JArr ([JObj [("navigateAction", JObj [("endpoint", JStr "e")])]]
             ++ JObj [("signalAction", JObj [])] :: []))
    Demo.initial
  = parseRR Demo.env
      (JArr ([JObj [("navigateAction", JObj [("endpoint", JStr "e")])]] ++ []))
      Demo.initial
  /\ exists e s', parseRR Demo.env (JArr [JNull]) Demo.initial = (Throw e, s').
Proof.
  split.
  - apply (proj2 (proj2 (parseRR_skips_unknown_actions Demo.env
                           (JArr ([JObj [("navigateAction",
                                           JObj [("endpoint", JStr "e")])]]
                                    ++ JObj [("signalAction", JObj [])] :: []))
                           Demo.initial))
             [JObj [("navigateAction", JObj [("endpoint", JStr "e")])]]
             (JObj [("signalAction", JObj [])]) [] eq_refl eq_refl eq_refl).
  - apply (proj1 (proj2 (parseRR_skips_unknown_actions Demo.env (JArr [JNull])
                           Demo.initial)) [JNull] eq_refl).
    constructor. reflexivity.
Defined.

Section Actions.

Variable env : Env.

Lemma strip_nullish (items : list RawNode) :
  Exists (fun action => JS.nullish action = true) items ->
  strip_clickTrackingParams items
  = Throw (TypeError "Cannot convert undefined or null to object").
Proof.
  induction 1 as [action rest Hn | action rest _ IH]; cbn [strip_clickTrackingParams].
  - destruct action; try discriminate Hn; reflexivity.
  - rewrite IH. destruct action; try reflexivity.
Qed.

Lemma strip_present (items : list RawNode) :
  Forall (fun action => JS.nullish action = false) items ->
  strip_clickTrackingParams items = Normal (without_clickTrackingParams <$> items).
Proof.
  induction 1 as [|action rest Hn _ IH]; [reflexivity|].
  cbn [strip_clickTrackingParams fmap list_fmap]. rewrite IH.
  destruct action; try discriminate Hn; reflexivity.
Qed.

Lemma without_clickTrackingParams_idempotent (action : RawNode) :
  without_clickTrackingParams (without_clickTrackingParams action)
  = without_clickTrackingParams action.
Proof.
  destruct action as [| | | | | |props]; try reflexivity.
  cbn [without_clickTrackingParams]. f_equal.
  induction props as [|[k v] props IH]; [reflexivity|].
  cbn [filter list_filter]. destruct (decide _) as [Hk|Hk]; cbn [filter list_filter].
  - rewrite decide_True by exact Hk. f_equal. exact IH.
  - exact IH.
Qed.

End Actions.

(** X6.  Given an array, [parseActions] first deletes [clickTrackingParams]
    from every action and only then parses: an array that holds [undefined]
    or [null] makes it throw a [TypeError] before anything is parsed, and
    otherwise it returns, without throwing, the nodes that [parseArray]
    makes of the actions without their [clickTrackingParams], so that this
    key is never taken for the class of an action.  Anything else than an
    array goes to [parseItem] as it is. *)
Theorem parseActions_deletes_the_tracking_params_first
        (env : Env) (data : RawNode) (s : ParserState) :
  (forall items,
      data = JArr items ->
      Exists (fun action => JS.nullish action = true) items ->
      parseActions env data s
      = (Throw (TypeError "Cannot convert undefined or null to object"), s))
  /\ (forall items,
         data = JArr items ->
         Forall (fun action => JS.nullish action = false) items ->
         exists nodes s',
           parseArray env (JArr (without_clickTrackingParams <$> items)) AnyType s
           = (Normal nodes, s')
           /\ parseActions env data s = (Normal (Parsed_super (Super_array nodes)), s')
           /\ parseActions env (JArr (without_clickTrackingParams <$> items)) s
              = parseActions env data s)
  /\ (JS.isArray data = false ->
      exists result s',
        parseItem env data AnyType s = (Normal result, s')
        /\ parseActions env data s = (Normal (Parsed_super (Super_item result)), s')).
Proof.
  split; [|split].
  - intros items -> Hex. unfold parseActions, bind, lift.
    rewrite (strip_nullish items Hex). reflexivity.
  - intros items -> Hall.
    destruct (parseArray_total env (without_clickTrackingParams <$> items) AnyType s)
      as (nodes & s' & E).
    assert (H : parseActions env (JArr items) s
                = (Normal (Parsed_super (Super_array nodes)), s')).
    { unfold parseActions, bind at 1, lift. rewrite (strip_present items Hall).
      rewrite parse_array_case, E. reflexivity. }
    exists nodes, s'. split; [exact E|]. split; [exact H|]. rewrite H.
    unfold parseActions, bind at 1, lift. rewrite strip_present.
    + rewrite <- list_fmap_compose.
      rewrite (list_fmap_ext _ without_clickTrackingParams items)
        by (intros; apply without_clickTrackingParams_idempotent).
      rewrite parse_array_case, E. reflexivity.
    + apply Forall_fmap. eapply Forall_impl; [exact Hall|].
      intros action Hn. destruct action; try discriminate Hn; reflexivity.
  - intros Ha. destruct (parseItem_total env data AnyType s) as (result & s' & E).
    exists result, s'. split; [exact E|].
    destruct data; try discriminate Ha; unfold parseActions, bind; rewrite E; reflexivity.
Qed.

Lemma parseActions_deletes_the_tracking_params_first_witness :
  parseActions Demo.env (JArr [Demo.video "a"; JNull]) Demo.initial
  = (Throw (TypeError "Cannot convert undefined or null to object"), Demo.initial)
  /\ exists nodes s',
       parseArray Demo.env
         (JArr (without_clickTrackingParams
                  <$> [JObj [("clickTrackingParams", JStr "x");
                             ("videoRenderer", JObj [("videoId", JStr "a")])]]))
         AnyType Demo.initial
       = (Normal nodes, s')
       /\ parseActions Demo.env
            (JArr [JObj [("clickTrackingParams", JStr "x");
                         ("videoRenderer", JObj [("videoId", JStr "a")])]])
            Demo.initial
          = (Normal (Parsed_super (Super_array nodes)), s')
       /\ parseActions Demo.env
            (JArr (without_clickTrackingParams
                     <$> [JObj [("clickTrackingParams", JStr "x");
                                ("videoRenderer", JObj [("videoId", JStr "a")])]]))
            Demo.initial
          = parseActions Demo.env
              (JArr [JObj [("clickTrackingParams", JStr "x");
                           ("videoRenderer", JObj [("videoId", JStr "a")])]])
              Demo.initial.
Proof.
  split.
  - apply (proj1 (parseActions_deletes_the_tracking_params_first Demo.env
                    (JArr [Demo.video "a"; JNull]) Demo.initial)
             [Demo.video "a"; JNull] eq_refl).
    right. left. reflexivity.
  - apply (proj1 (proj2 (parseActions_deletes_the_tracking_params_first Demo.env
                           (JArr [JObj [("clickTrackingParams", JStr "x");
                                        ("videoRenderer",
                                          JObj [("videoId", JStr "a")])]])
                           Demo.initial))
             [JObj [("clickTrackingParams", JStr "x");
                    ("videoRenderer", JObj [("videoId", JStr "a")])]] eq_refl).
    constructor; [reflexivity | constructor].
Defined.

Section Formats.

Variable env : Env.

Lemma parseFormats_map_length (formats : list RawNode) :
  forall cache s nodes cache' s',
    parseFormats_map env formats cache s = (Normal (nodes, cache'), s') ->
    length nodes = length formats.
Proof.
  induction formats as [|format rest IH]; intros cache s nodes cache' s'.
  - cbn. intros [= <- _ _]. reflexivity.
  - cbn [parseFormats_map]. unfold bind at 1.
    destruct (new_Format env format cache s) as [[[node cache1]|e] s1]; [|discriminate].
    unfold bind at 1.
    destruct (parseFormats_map env rest cache1 s1) as [[[nodes1 cache2]|e] s2] eqn:E;
      [|discriminate].
    cbn. intros [= <- _ _]. cbn. f_equal. exact (IH _ _ _ _ _ E).
Qed.

Lemma parseFormats_map_total
      (Hnew : forall format cache s,
          exists r s', new_Format env format cache s = (Normal r, s'))
      (formats : list RawNode) :
  forall cache s,
  exists nodes cache' s',
    parseFormats_map env formats cache s = (Normal (nodes, cache'), s').
Proof.
  induction formats as [|format rest IH]; intros cache s; [cbn; eauto|].
  cbn [parseFormats_map]. unfold bind at 1.
  destruct (Hnew format cache s) as ([node cache1] & s1 & ->).
  unfold bind at 1. destruct (IH cache1 s1) as (nodes & cache2 & s2 & ->).
  cbn. eauto.
Qed.

End Formats.

(** X7.  [parseFormats] gives the empty list for [undefined] and [null],
    with the cache and the state as they were; a value that is not an array
    makes it throw a [TypeError]; for an array it returns one [Format] for
    each raw format, and it does return when the constructor of [Format]
    does. *)
Theorem parseFormats_one_format_each
        (env : Env) (formats : RawNode) (cache : gmap string string) (s : ParserState) :
  (JS.nullish formats = true -> parseFormats env formats cache s = (Normal ([], cache), s))
  /\ (JS.nullish formats = false -> JS.isArray formats = false ->
      exists msg, parseFormats env formats cache s = (Throw (TypeError msg), s))
  /\ (forall items nodes cache' s',
         formats = JArr items ->
         parseFormats env formats cache s = (Normal (nodes, cache'), s') ->
         length nodes = length items)
  /\ ((forall format cache0 s0,
          exists r s1, new_Format env format cache0 s0 = (Normal r, s1)) ->
      forall items,
        formats = JArr items ->
        exists nodes cache' s',
          parseFormats env formats cache s = (Normal (nodes, cache'), s')
          /\ length nodes = length items).
Proof.
  split; [|split; [|split]].
  - intros Hn. unfold parseFormats. rewrite Hn. reflexivity.
  - intros Hn Ha. unfold parseFormats. rewrite Hn.
    destruct formats; try discriminate Hn; try discriminate Ha; eexists; reflexivity.
  - intros items nodes cache' s' -> H.
    exact (parseFormats_map_length env items cache s nodes cache' s' H).
  - intros Hnew items ->.
    destruct (parseFormats_map_total env Hnew items cache s) as (nodes & cache' & s' & E).
    exists nodes, cache', s'. split; [exact E|].
    exact (parseFormats_map_length env items cache s nodes cache' s' E).
Qed.

Lemma parseFormats_one_format_each_witness :
  exists nodes cache' s',
    parseFormats Demo.env (JArr [JObj [("itag", JNum 18)]; JObj [("itag", JNum 22)]])
      ∅ Demo.initial
    = (Normal (nodes, cache'), s')
    /\ length nodes = 2.
Proof.
  apply (proj2 (proj2 (proj2 (parseFormats_one_format_each Demo.env
                                (JArr [JObj [("itag", JNum 18)]; JObj [("itag", JNum 22)]])
                                ∅ Demo.initial)))
           ltac:(intros format cache0 s0; eexists _, _; reflexivity)
           [JObj [("itag", JNum 18)]; JObj [("itag", JNum 22)]] eq_refl).
Defined.

Section Unseen.

Variable env : Env.

Lemma parseItem_unseen (item : RawNode) (validTypes : ValidTypes) (s : ParserState) :
  passes_unseen item = true -> parseItem env item validTypes s = (Normal None, s).
Proof.
  unfold passes_unseen, parseItem. destruct (JS.truthy item) eqn:Ht; [|reflexivity].
  cbn [negb orb]. rewrite (Object_keys_truthy item Ht).
  unfold bind at 1, lift. destruct ((JS.own_entries item).*1) as [|key0 rest];
    [reflexivity|].
  intros ->. reflexivity.
Qed.

End Unseen.

(** X8.  An element of the array that is falsy, that has no keys, or whose
    first key names an ignored class, is dropped by [parseArray] without a
    trace: no event, no node in the memo, and the result and the state are
    what they are for the array without that element. *)
Theorem parseArray_drops_what_it_ignores
        (env : Env) (pre post : list RawNode) (item : RawNode)
        (validTypes : ValidTypes) (s : ParserState) :
  passes_unseen item = true ->
  parseItem env item validTypes s = (Normal None, s)
  /\ parseArray env (JArr (pre ++ item :: post)) validTypes s
     = parseArray env (JArr (pre ++ post)) validTypes s.
Proof.
  intros Hu. split; [apply parseItem_unseen, Hu|].
  unfold parseArray. rewrite !parseItems_app.
  destruct (parseItems env pre validTypes [] s) as [[results|e] s1]; [|reflexivity].
  cbn [parseItems]. unfold bind at 1. rewrite (parseItem_unseen env item validTypes s1 Hu).
  reflexivity.
Qed.

Lemma parseArray_drops_what_it_ignores_witness :
  parseItem Demo.env (JObj [("adSlotRenderer", JObj [("id", JStr "ad")])]) AnyType
    Demo.initial
  = (Normal None, Demo.initial)
  /\ parseArray Demo.env
       (JArr ([Demo.video "a"]
                ++ JObj [("adSlotRenderer", JObj [("id", JStr "ad")])]
                :: [Demo.video "b"]))
       AnyType Demo.initial
     = parseArray Demo.env (JArr ([Demo.video "a"] ++ [Demo.video "b"])) AnyType
         Demo.initial.
Proof.
  apply (parseArray_drops_what_it_ignores Demo.env [Demo.video "a"] [Demo.video "b"]
           (JObj [("adSlotRenderer", JObj [("id", JStr "ad")])]) AnyType Demo.initial).
  vm_compute. reflexivity.
Defined.

(** ** The memo, the registry and the mutation lists *)

Section MemoOrder.

Lemma add_all_appends (adds : list (string * YTNode)) :
  forall s memo,
    MEMO s = Some memo ->
    MEMO (add_all adds s).2 = Some memo
    /\ length (heap (add_all adds s).2) = length (heap s)
    /\ (forall other, other <> memo ->
                      heap (add_all adds s).2 !! other = heap s !! other)
    /\ (memo < length (heap s) ->
        forall classname,
          nodes_at (add_all adds s).2 memo classname
          = nodes_at s memo classname ++ (filter (fun a => a.1 = classname) adds).*2)
    /\ RUNTIME_NODES (add_all adds s).2 = RUNTIME_NODES s
    /\ reported (add_all adds s).2 = reported s.
Proof.
  induction adds as [|[c n] adds IH]; intros s memo HM.
  - cbn. repeat split; auto. intros _ classname. rewrite app_nil_r. reflexivity.
  - cbn [add_all]. unfold bind, _addToMemo. rewrite HM.
    set (s1 := set_heap (alter (Memo.add c n) memo (heap s)) s).
    destruct (IH s1 memo HM) as (A1 & A2 & A3 & A4 & A5 & A6).
    split; [exact A1|]. split; [rewrite A2; apply length_alter|].
    split; [intros other Ho; rewrite (A3 other Ho); apply list_lookup_alter_ne; congruence|].
    split; [|split; [exact A5 | exact A6]].
    intros Hlt classname. rewrite A4 by (unfold s1; cbn; rewrite length_alter; exact Hlt).
    assert (Hs1 : nodes_at s1 memo classname
                  = nodes_at s memo classname ++ (if decide (c = classname) then [n] else [])).
    { unfold nodes_at, deref, s1. cbn [heap set_heap]. rewrite list_lookup_alter_eq.
      destruct (lookup_lt_is_Some_2 _ _ Hlt) as [m Hm]. rewrite Hm. cbn.
      rewrite lookup_Memo_add. destruct (decide (c = classname)) as [->|Hne].
      - reflexivity.
      - rewrite app_nil_r. reflexivity. }
    rewrite Hs1, <- app_assoc. f_equal.
    rewrite filter_cons. cbn [fst]. destruct (decide (c = classname)); reflexivity.
Qed.

End MemoOrder.

(** X9.  After [_createMemo()] the active memo is a new, empty [Memo], and
    the memos made before stay as they are whatever is added from then on.
    [_getMemo()] returns the new memo, and that memo holds under every
    class name exactly the nodes that [_addToMemo] was given under that
    name, in the order of the calls. *)
Theorem memo_holds_the_nodes_in_the_order_added
        (s : ParserState) (adds : list (string * YTNode)) :
  _getMemo (add_all adds (_createMemo s).2).2
  = (Normal (length (heap s)), (add_all adds (_createMemo s).2).2)
  /\ (forall classname,
         nodes_at (add_all adds (_createMemo s).2).2 (length (heap s)) classname
         = (filter (fun a => a.1 = classname) adds).*2)
  /\ (forall C,
         Memo.getType C (deref (length (heap s)) (add_all adds (_createMemo s).2).2)
         = (filter (fun a => a.1 = type C) adds).*2)
  /\ take (length (heap s)) (heap (add_all adds (_createMemo s).2).2) = heap s
  /\ length (heap (add_all adds (_createMemo s).2).2) = S (length (heap s)).
Proof.
  set (s1 := (_createMemo s).2).
  assert (HM : MEMO s1 = Some (length (heap s))) by reflexivity.
  assert (Hh : heap s1 = heap s ++ [∅]) by reflexivity.
  destruct (add_all_appends adds s1 _ HM) as (A1 & A2 & A3 & A4 & _ & _).
  assert (Hlt : length (heap s) < length (heap s1)) by (rewrite Hh, length_app; cbn; lia).
  assert (Hnodes : forall classname,
             nodes_at (add_all adds s1).2 (length (heap s)) classname
             = (filter (fun a => a.1 = classname) adds).*2).
  { intros classname. rewrite (A4 Hlt classname).
    unfold nodes_at at 1, deref. rewrite Hh, lookup_app_r by lia.
    rewrite Nat.sub_diag. cbn. rewrite lookup_empty. reflexivity. }
  split; [unfold _getMemo; rewrite A1; reflexivity|].
  split; [exact Hnodes|]. split; [intros C; rewrite nodes_at_getType; apply Hnodes|].
  split.
  - apply list_eq. intros i. destruct (decide (i < length (heap s))) as [Hi|Hi].
    + rewrite lookup_take_lt by exact Hi. rewrite A3 by lia.
      rewrite Hh, lookup_app_l by exact Hi. reflexivity.
    + rewrite lookup_take_ge by lia. symmetry. apply lookup_ge_None. lia.
  - rewrite A2, Hh, length_app. cbn. lia.
Qed.

(** X10.  [addRuntimeParser] puts a class into the registry and among the
    dynamic parsers, replacing a class of that name and touching no other
    name.  From then on [hasParser] finds the name, [getParserByName]
    returns the class, and [parseItem] constructs a wrapper of that name with
    it, without asking the generator; a name that is not in the registry
    makes [getParserByName] throw ['Module not found: NAME']. *)
Theorem addRuntimeParser_registers_the_class
        (env : Env) (classname : string) (C : YTNodeConstructor) (s : ParserState) :
  hasParser classname (addRuntimeParser classname C s).2
  = (Normal true, (addRuntimeParser classname C s).2)
  /\ getParserByName classname (addRuntimeParser classname C s).2
     = (Normal C, (addRuntimeParser classname C s).2)
  /\ (exists dynamic,
         getDynamicParsers (addRuntimeParser classname C s).2
         = (Normal dynamic, (addRuntimeParser classname C s).2)
         /\ dynamic !! classname = Some C
         /\ forall other, other <> classname -> dynamic !! other = DYNAMIC_NODES s !! other)
  /\ (forall other,
         other <> classname ->
         (hasParser other (addRuntimeParser classname C s).2).1 = (hasParser other s).1
         /\ (getParserByName other (addRuntimeParser classname C s).2).1
            = (getParserByName other s).1)
  /\ (forall other,
         RUNTIME_NODES s !! other = None ->
         getParserByName other s = (Throw (Error ("Module not found: " +:+ other)), s))
  /\ (forall data key0 rest validTypes,
         JS.truthy data = true ->
         JS.Object_keys data = Normal (key0 :: rest) ->
         sanitizeClassName key0 = classname ->
         shouldIgnore classname = false ->
         accepts validTypes C = true ->
         parseItem env data validTypes (addRuntimeParser classname C s).2 =
           match new_ env C (JS.prop data key0) (addRuntimeParser classname C s).2 with
           | (Normal node, s') => (Normal (Some node), (_addToMemo classname node s').2)
           | (Throw e, s') =>
               (Normal None, report (ev_parse classname (JS.prop data key0) e) s')
           end).
Proof.
  set (s1 := (addRuntimeParser classname C s).2).
  assert (HR : RUNTIME_NODES s1 = <[classname := C]> (RUNTIME_NODES s)) by reflexivity.
  assert (Hhas : hasParser classname s1 = (Normal true, s1)).
  { unfold hasParser. rewrite HR, lookup_insert_eq.
    rewrite bool_decide_eq_true_2 by eauto. reflexivity. }
  assert (Hget : getParserByName classname s1 = (Normal C, s1)).
  { unfold getParserByName. rewrite HR, lookup_insert_eq. reflexivity. }
  split; [exact Hhas|]. split; [exact Hget|]. split; [|split; [|split]].
  - exists (DYNAMIC_NODES s1). split; [reflexivity|]. split.
    + apply lookup_insert_eq.
    + intros other Ho. apply lookup_insert_ne. congruence.
  - intros other Ho. unfold hasParser, getParserByName. rewrite HR.
    rewrite lookup_insert_ne by congruence. cbn [fst].
    split; [reflexivity|]. destruct (RUNTIME_NODES s !! other); reflexivity.
  - intros other Hn. unfold getParserByName. rewrite Hn. reflexivity.
  - intros data key0 rest validTypes Ht Hk Hc Hi Ha.
    rewrite (parseItem_wrapper env data key0 rest validTypes s1 Ht Hk) by (rewrite Hc; exact Hi).
    rewrite Hc. unfold dispatch, bind. rewrite Hhas, Hget, Ha. reflexivity.
Qed.

Lemma addRuntimeParser_registers_the_class_witness :
  parseItem Demo.env (JObj [("tileRenderer", JObj [("id", JStr "t")])]) AnyType
    (addRuntimeParser "Tile" (node_class "Tile") Demo.initial).2
  = (Normal (Some {| node_type := "Tile"; fields := [("id", JStr "t")] |}),
     (addRuntimeParser "Tile" (node_class "Tile") Demo.initial).2).
Proof.
  apply (proj2 (proj2 (proj2 (proj2 (proj2
           (addRuntimeParser_registers_the_class Demo.env "Tile" (node_class "Tile")
              Demo.initial)))))
           (JObj [("tileRenderer", JObj [("id", JStr "t")])]) "tileRenderer" [] AnyType
           eq_refl eq_refl eq_refl eq_refl eq_refl).
Defined.

Section MutationShapes.

Variable env : Env.

Lemma array_filter_heat_map_nullish (items : list RawNode) :
  Exists (fun mutation => JS.nullish mutation = true) items ->
  exists e, array_filter is_heat_map items = Throw e.
Proof.
  induction 1 as [mutation rest Hn | mutation rest _ [e IH]]; cbn [array_filter].
  - unfold is_heat_map, and_then, JS.get. rewrite Hn. eauto.
  - rewrite IH. destruct (is_heat_map mutation) as [b|e']; eauto.
Qed.

Lemma not_array_as_array (v : RawNode) (method : string) :
  JS.isArray v = false -> exists msg, as_array v method = Throw (TypeError msg).
Proof. destruct v; try discriminate; intros _; eexists; reflexivity. Qed.

End MutationShapes.

(** X11.  With no mutation list ([undefined], or any falsy value)
    [applyMutations] returns normally: it reports one
    [mutation_data_missing] event when the memo holds a
    MusicMultiSelectMenuItem and nothing otherwise, and it changes no
    memo. *)
Theorem applyMutations_without_mutations
        (env : Env) (memo : nat) (mutations : RawNode) (s : ParserState) :
  JS.truthy mutations = false ->
  applyMutations env memo mutations s
  = (Normal tt,
     if (0 <? length (nodes_at s memo "MusicMultiSelectMenuItem"))%nat
     then report (ev_mutation_data_missing "MusicMultiSelectMenuItem") s
     else s).
Proof.
  intros Ht. unfold applyMutations, applyMutations_MusicMultiSelectMenuItem,
    applyMutations_MacroMarkersListEntity, Memo_getType.
  unfold bind at 1. unfold bind at 1. rewrite nodes_at_getType, Ht.
  change (type MusicMultiSelectMenuItem) with "MusicMultiSelectMenuItem".
  destruct (nodes_at s memo "MusicMultiSelectMenuItem") as [|item items]; reflexivity.
Qed.

Lemma applyMutations_without_mutations_witness :
  applyMutations Demo.env 0 JUndefined (Demo.holding Demo.menu_memo)
  = (Normal tt,
     report (ev_mutation_data_missing "MusicMultiSelectMenuItem")
       (Demo.holding Demo.menu_memo))
  /\ applyMutations Demo.env 0 JUndefined (Demo.holding Demo.comment_memo)
     = (Normal tt, Demo.holding Demo.comment_memo).
Proof.
  split.
  - exact (applyMutations_without_mutations Demo.env 0 JUndefined
             (Demo.holding Demo.menu_memo) eq_refl).
  - exact (applyMutations_without_mutations Demo.env 0 JUndefined
             (Demo.holding Demo.comment_memo) eq_refl).
Defined.

(** X12.  A mutation list that is present must be an array of records: a
    truthy value that is not an array makes [applyMutations] throw a
    [TypeError] with nothing changed, and an array that holds [undefined]
    or [null] makes it throw as well. *)
Theorem applyMutations_needs_an_array_of_records
        (env : Env) (memo : nat) (mutations : RawNode) (s : ParserState) :
  (JS.truthy mutations = true -> JS.isArray mutations = false ->
   exists msg, applyMutations env memo mutations s = (Throw (TypeError msg), s))
  /\ (forall items,
         mutations = JArr items ->
         Exists (fun mutation => JS.nullish mutation = true) items ->
         exists e s', applyMutations env memo mutations s = (Throw e, s')).
Proof.
  split.
  - intros Ht Ha. unfold applyMutations, applyMutations_MusicMultiSelectMenuItem,
      applyMutations_MacroMarkersListEntity, Memo_getType.
    unfold bind at 1. unfold bind at 1. rewrite nodes_at_getType, Ht.
    destruct (not_array_as_array mutations "find" Ha) as [m1 H1].
    destruct (not_array_as_array mutations "filter" Ha) as [m2 H2].
    destruct (nodes_at s memo (type MusicMultiSelectMenuItem)) as [|item items].
    + exists m2. cbn. unfold bind, lift. rewrite H2. reflexivity.
    + exists m1. cbn [length Nat.ltb Nat.leb negb andb multi_select_loop].
      unfold bind, lift. rewrite H1. reflexivity.
  - intros items -> Hex. unfold applyMutations. unfold bind at 1.
    destruct (applyMutations_MusicMultiSelectMenuItem memo (JArr items) s)
      as [[[]|e] s1]; [|eauto].
    unfold applyMutations_MacroMarkersListEntity. cbn [JS.truthy as_array].
    unfold bind, lift. destruct (array_filter_heat_map_nullish items Hex) as [e ->].
    eauto.
Qed.

Lemma applyMutations_needs_an_array_of_records_witness :
  (exists msg,
      applyMutations Demo.env 0 (JObj [("mutations", JArr [])])
        (Demo.holding Demo.menu_memo)
      = (Throw (TypeError msg), Demo.holding Demo.menu_memo))
  /\ exists e s',
       applyMutations Demo.env 0 (JArr [Demo.heat_map; JNull])
         (Demo.holding Demo.comment_memo)
       = (Throw e, s').
Proof.
  split.
  - exact (proj1 (applyMutations_needs_an_array_of_records Demo.env 0
                    (JObj [("mutations", JArr [])]) (Demo.holding Demo.menu_memo))
             eq_refl eq_refl).
  - apply (proj2 (applyMutations_needs_an_array_of_records Demo.env 0
                    (JArr [Demo.heat_map; JNull]) (Demo.holding Demo.comment_memo))
             [Demo.heat_map; JNull] eq_refl).
    right. left. reflexivity.
Defined.

(** ** The response parser and the active memo *)

Section Reentrancy.

Variable env : Env.
Hypothesis Henv : respects_memo env.

Lemma throws_with_a_memo_bind {A B} (m : M A) (k : A -> M B) :
  throws_with_a_memo m -> (forall a, throws_with_a_memo (k a)) ->
  throws_with_a_memo (bind m k).
Proof.
  intros Hm Hk s Hs. unfold bind. specialize (Hm s Hs).
  destruct (m s) as [[a|e] s1]; [apply Hk, Hm | exact Hm].
Qed.

Lemma throws_with_a_memo_ret {A} (a : A) : throws_with_a_memo (ret a).
Proof. intros s Hs. exact Hs. Qed.

Lemma throws_with_a_memo_section {A} (m : M A) :
  touches no_memo m -> throws_with_a_memo (memo_section m).
Proof.
  intros Hm s _. destruct (created_memo m s Hm) as (H1 & _ & _).
  unfold memo_section, bind. change (_createMemo s) with (Normal tt, (_createMemo s).2).
  cbv beta iota.
  destruct (m (_createMemo s).2) as [[v|e] s2]; cbn [snd] in *.
  - unfold _getMemo. rewrite H1. reflexivity.
  - rewrite H1. eauto.
Qed.

Lemma throws_with_a_memo_items (data : Raw.IRawResponse) :
  throws_with_a_memo (items_section env data).
Proof.
  intros s _.
  destruct (created_memo (parse env (Raw.items data) false AnyType) s
              (touches_parse env Henv _ _ _ _)) as (H1 & _ & _).
  unfold items_section, bind.
  change (_createMemo s) with (Normal tt, (_createMemo s).2). cbv beta iota.
  destruct (parse env (Raw.items data) false AnyType (_createMemo s).2)
    as [[items|e] s2]; cbn [snd] in *; [|rewrite H1; eauto].
  destruct (present items); unfold _getMemo, ret, _clearMemo; rewrite ?H1; reflexivity.
Qed.

Lemma throws_with_a_memo_sections (data : Raw.IRawResponse) :
  throws_with_a_memo (parse_memo_sections env data).
Proof.
  unfold parse_memo_sections.
  apply throws_with_a_memo_bind;
    [apply throws_with_a_memo_section, (touches_parse env Henv) | intros [? ?]].
  do 3 (apply throws_with_a_memo_bind;
        [ apply throws_with_a_memo_section, touches_section_body,
            (touches_parseRR env Henv)
        | intros [? ?] ]).
  apply throws_with_a_memo_bind;
    [ apply throws_with_a_memo_section, touches_joined, touches_section_body,
        (touches_parseLC env Henv)
    | intros [? ?] ].
  apply throws_with_a_memo_bind;
    [ apply throws_with_a_memo_section, touches_section_body,
        (touches_parseActions env Henv)
    | intros [? ?] ].
  apply throws_with_a_memo_bind;
    [ apply throws_with_a_memo_section, touches_joined, touches_section_body,
        (touches_parseItem env Henv)
    | intros [? ?] ].
  apply throws_with_a_memo_bind;
    [ apply throws_with_a_memo_section, touches_section_body, (touches_parse env Henv)
    | intros [? ?] ].
  apply throws_with_a_memo_bind;
    [ apply throws_with_a_memo_section, touches_joined, touches_section_body,
        (touches_parseItem env Henv)
    | intros [? ?] ].
  apply throws_with_a_memo_bind; [apply throws_with_a_memo_items | intros [? ?]].
  apply throws_with_a_memo_ret.
Qed.

Lemma parse_memo_sections_any_MEMO (data : Raw.IRawResponse) (s : ParserState) :
  parse_memo_sections env data s = parse_memo_sections env data (set_MEMO None s).
Proof. reflexivity. Qed.

Lemma parse_optional_total (data : RawNode) (validTypes : ValidTypes) (s : ParserState) :
  exists p s', parse env data false validTypes s = (Normal p, s').
Proof.
  destruct (JS.truthy data) eqn:Ht.
  - destruct (JS.isArray data) eqn:Ha.
    + destruct data; try discriminate Ha. rewrite parse_array_case.
      destruct (parseArray_total env items validTypes s) as (nodes & s' & ->). eauto.
    + rewrite parse_single_case by assumption.
      destruct (parseItem_total env data validTypes s) as (r & s' & ->). eauto.
  - unfold parse. rewrite Ht. cbn. eauto.
Qed.

Lemma memo_section_returns {A} (m : M A) (s : ParserState) :
  touches no_memo m ->
  (forall s0, exists v s1, m s0 = (Normal v, s1)) ->
  exists v s1,
    memo_section m s = (Normal (v, length (heap s)), s1)
    /\ MEMO s1 = None /\ length (heap s1) = S (length (heap s)).
Proof.
  intros Hm Ht. destruct (created_memo m s Hm) as (H1 & H2 & _).
  unfold memo_section, bind. change (_createMemo s) with (Normal tt, (_createMemo s).2).
  cbv beta iota. destruct (Ht (_createMemo s).2) as (v & s1 & E). rewrite E in *.
  cbn [snd] in *. unfold _getMemo. rewrite H1. cbn. eauto.
Qed.

End Reentrancy.

(** X13.  [parseResponse] neither uses nor keeps the memo that is active
    when it is called: it does what it does when none is active, it changes
    none of the memos that exist at the call, and when it returns no memo is
    active and every memo of its result is one that it created. *)
Theorem parseResponse_drops_the_active_memo
        (env : Env) (data : Raw.IRawResponse) (s : ParserState) :
  respects_memo env ->
  parseResponse env data s = parseResponse env data (set_MEMO None s)
  /\ stable (length (heap s)) s (parseResponse env data s).2
  /\ forall r s',
       parseResponse env data s = (Normal r, s') ->
       MEMO s' = None
       /\ Forall (fun memo => length (heap s) <= memo < length (heap s')) (Out.all_memos r).
Proof.
  intros Henv.
  pose proof (parseResponse_any_MEMO env data s) as Hany.
  pose proof (grows_parseResponse env Henv (nesting data) data (le_n _)
                (length (heap s)) [] (set_MEMO None s) eq_refl (le_n _)
                (List.Forall_nil _)) as Hg.
  rewrite <- Hany in Hg. split; [exact Hany|].
  destruct (parseResponse env data s) as [[r|e] s1]; cbn [snd].
  - destruct Hg as (H1 & H2 & H3). split; [exact H2|].
    intros r' s' [= <- <-]. split; [exact H1 | exact H3].
  - split; [exact Hg|]. intros r' s' [=].
Qed.

Lemma parseResponse_drops_the_active_memo_witness :
  parseResponse Demo.env Demo.outer_document (set_MEMO (Some 0) (Demo.holding ∅))
  = parseResponse Demo.env Demo.outer_document (set_MEMO None (set_MEMO (Some 0) (Demo.holding ∅)))
  /\ stable 1 (set_MEMO (Some 0) (Demo.holding ∅))
       (parseResponse Demo.env Demo.outer_document
          (set_MEMO (Some 0) (Demo.holding ∅))).2.
Proof.
  pose proof (parseResponse_drops_the_active_memo Demo.env Demo.outer_document
                (set_MEMO (Some 0) (Demo.holding ∅)) respects_memo_Demo) as H.
  split; [exact (proj1 H) | exact (proj1 (proj2 H))].
Defined.

(** X14.  No section of [parseResponse] is guarded: when the part of it
    that parses with a memo (lines 233-320) throws, [parseResponse] throws
    that exception and the memo of the section that failed stays the active
    one.  It does throw there for a response whose
    [onResponseReceivedActions] is present and not an array. *)
Theorem parseResponse_throws_with_the_memo_active
        (env : Env) (data : Raw.IRawResponse) (s : ParserState) :
  respects_memo env ->
  (forall e s',
      parse_memo_sections env data s = (Throw e, s') ->
      parseResponse env data s = (Throw e, s') /\ is_Some (MEMO s'))
  /\ (JS.truthy (Raw.onResponseReceivedActions data) = true ->
      JS.isArray (Raw.onResponseReceivedActions data) = false ->
      exists msg s',
        parseResponse env data s = (Throw (TypeError msg), s')
        /\ MEMO s' = Some (S (length (heap s)))).
Proof.
  intros Henv.
  assert (Hthrow : forall e s',
             parse_memo_sections env data s = (Throw e, s') ->
             parseResponse env data s = (Throw e, s') /\ is_Some (MEMO s')).
  { intros e s' E. split.
    - rewrite parseResponse_unfold. unfold bind at 1. rewrite E. reflexivity.
    - pose proof (throws_with_a_memo_sections env Henv data (set_MEMO None s) eq_refl)
        as H.
      rewrite <- parse_memo_sections_any_MEMO, E in H. exact H. }
  split; [exact Hthrow|].
  intros Ht Ha.
  destruct (not_array_as_array _ "map" Ha) as [msg Hmsg].
  destruct (memo_section_returns (parse env (Raw.contents data) false AnyType) s
              (touches_parse env Henv _ _ _ _)
              (parse_optional_total env _ _))
    as (contents & s1 & E1 & HM1 & Hl1).
  exists msg, (_createMemo s1).2.
  assert (E : parse_memo_sections env data s
              = (Throw (TypeError msg), (_createMemo s1).2)).
  { unfold parse_memo_sections. unfold bind at 1. rewrite E1.
    unfold bind at 1. unfold memo_section at 1. unfold bind at 1.
    change (_createMemo s1) with (Normal tt, (_createMemo s1).2). cbv beta iota.
    unfold bind at 1. unfold when_truthy. rewrite Ht. unfold bind at 1.
    unfold parseRR, bind at 1, lift. rewrite Hmsg. reflexivity. }
  split; [exact (proj1 (Hthrow _ _ E))|].
  cbn. rewrite Hl1. reflexivity.
Qed.

Lemma parseResponse_throws_with_the_memo_active_witness :
  exists msg s',
    parseResponse Demo.env
      (Raw.with_onResponseReceivedActions (JObj [("navigateAction", JObj [])]) Raw.empty)
      Demo.initial
    = (Throw (TypeError msg), s')
    /\ MEMO s' = Some (S (length (heap Demo.initial))).
Proof.
  exact (proj2 (parseResponse_throws_with_the_memo_active Demo.env
                  (Raw.with_onResponseReceivedActions
                     (JObj [("navigateAction", JObj [])]) Raw.empty)
                  Demo.initial respects_memo_Demo) eq_refl eq_refl).
Defined.

(** ** More on the sanitizer *)

Section Replaced.

Import JSString.

(** A literal found at the start of the output of the scan, when it
    cannot start a replacement text, was at the start of the input. *)
Lemma prefix_replace_scan alts (m : ascii) (by_ p : string) :
  occurs m p = false ->
  forall t,
    String.prefix p (replace_scan alts (String m by_) 0 t) = true ->
    String.prefix p t = true.
Proof.
  induction p as [|a p IH]; intros Ho t; [destruct t; reflexivity|].
  cbn [occurs] in Ho. apply orb_false_iff in Ho as [Ha Hp].
  destruct t as [|c r]; [cbn; intros [=]|].
  cbn [replace_scan]. destruct (first_match alts (String c r)) as [q|].
  - change (String m by_ +:+ ?x) with (String m (by_ +:+ x)).
    cbn [String.prefix]. destruct (ascii_dec a m) as [->|_]; [|intros [=]].
    rewrite Ascii.eqb_refl in Ha. discriminate Ha.
  - cbn [String.prefix]. destruct (ascii_dec a c); [|intros [=]].
    apply IH, Hp.
Qed.

Lemma find_occurrence_behind (a : ascii) (p by_ x : string) :
  occurs a by_ = false ->
  find_occurrence [String a p] x = None ->
  find_occurrence [String a p] (by_ +:+ x) = None.
Proof.
  induction by_ as [|b by_ IH]; intros Ho Hx; [exact Hx|].
  cbn [occurs] in Ho. apply orb_false_iff in Ho as [Hb Hby].
  change (String b by_ +:+ x) with (String b (by_ +:+ x)).
  cbn [find_occurrence first_match String.prefix].
  destruct (ascii_dec a b) as [->|_].
  - rewrite Ascii.eqb_refl in Hb. discriminate Hb.
  - rewrite (IH Hby Hx). reflexivity.
Qed.

Lemma slice_shorter (n : nat) (s : string) : String.length (slice n s) <= String.length s.
Proof. rewrite slice_length. lia. Qed.

(** A global replacement leaves no occurrence of the literal behind, when
    the replacement text and the literal cannot run into each other. *)
Lemma replace_scan_leaves_none (a m : ascii) (p by_ : string) :
  occurs m (String a p) = false ->
  occurs a (String m by_) = false ->
  forall n t,
    String.length t <= n ->
    find_occurrence [String a p] (replace_scan [String a p] (String m by_) 0 t) = None.
Proof.
  intros Hm Ha. induction n as [|n IH]; intros t Hn.
  - destruct t; [reflexivity | cbn in Hn; lia].
  - destruct t as [|c r]; [reflexivity|].
    cbn [replace_scan]. destruct (first_match [String a p] (String c r)) as [q|] eqn:E.
    + rewrite replace_scan_skip. apply find_occurrence_behind; [exact Ha|].
      apply IH. pose proof (slice_shorter (String.length q - 1) r). cbn in Hn. lia.
    + cbn [find_occurrence]. 
      destruct (first_match [String a p]
                  (String c (replace_scan [String a p] (String m by_) 0 r))) eqn:F.
      * exfalso. cbn [first_match] in F, E.
        destruct (String.prefix (String a p)
                    (String c (replace_scan [String a p] (String m by_) 0 r))) eqn:G;
          [|discriminate F].
        assert (G' : String.prefix (String a p)
                       (replace_scan [String a p] (String m by_) 0 (String c r)) = true).
        { cbn [replace_scan first_match]. 
          destruct (String.prefix (String a p) (String c r)); [discriminate E | exact G]. }
        rewrite (prefix_replace_scan _ m by_ _ Hm _ G') in E. discriminate E.
      * rewrite IH by (cbn in Hn; lia). reflexivity.
Qed.

Lemma prefix_app (p x w : string) :
  String.prefix p x = true -> String.prefix p (x +:+ w) = true.
Proof.
  revert x. induction p as [|a p IH]; intros x;
    [intros _; destruct x; [destruct w|]; reflexivity|].
  destruct x as [|c x]; [intros [=]|].
  change (String c x +:+ w) with (String c (x +:+ w)). cbn [String.prefix].
  destruct (ascii_dec a c); [apply IH | intros [=]].
Qed.

Lemma find_occurrence_front (a : ascii) (p x w : string) :
  find_occurrence [String a p] (x +:+ w) = None ->
  find_occurrence [String a p] x = None.
Proof.
  induction x as [|c x IH]; [reflexivity|].
  change (String c x +:+ w) with (String c (x +:+ w)).
  cbn [find_occurrence first_match].
  destruct (String.prefix (String a p) (String c x)) eqn:E.
  - pose proof (prefix_app _ (String c x) w E) as P.
    change (String c x +:+ w) with (String c (x +:+ w)) in P. rewrite P. intros [=].
  - destruct (String.prefix (String a p) (String c (x +:+ w))); [intros [=]|].
    destruct (find_occurrence [String a p] (x +:+ w)) as [[]|] eqn:F; [intros [=]|].
    intros _. rewrite (IH eq_refl). reflexivity.
Qed.

Lemma trimEnd_front (s : string) : exists w, s = trimEnd s +:+ w.
Proof.
  induction s as [|c r [w IH]]; [exists ""; reflexivity|].
  cbn [trimEnd]. destruct (trimEnd r) as [|d t] eqn:E.
  - destruct (is_space c).
    + exists (String c r). reflexivity.
    + exists r. reflexivity.
  - exists w. change (String c (String d t) +:+ w) with (String c (String d t +:+ w)).
    rewrite <- IH. reflexivity.
Qed.

Lemma find_occurrence_trimStart (a : ascii) (p s : string) :
  find_occurrence [String a p] s = None ->
  find_occurrence [String a p] (trimStart s) = None.
Proof.
  induction s as [|c r IH]; [reflexivity|].
  intros H. cbn [trimStart]. destruct (is_space c); [|exact H].
  apply IH. cbn [find_occurrence] in H.
  destruct (first_match [String a p] (String c r)); [discriminate H|].
  destruct (find_occurrence [String a p] r) as [[]|]; [discriminate H | reflexivity].
Qed.

Lemma find_occurrence_trim (a : ascii) (p s : string) :
  find_occurrence [String a p] s = None ->
  find_occurrence [String a p] (trim s) = None.
Proof.
  intros H. unfold trim. destruct (trimEnd_front (trimStart s)) as [w Hw].
  apply (find_occurrence_front a p _ w). rewrite <- Hw.
  apply find_occurrence_trimStart, H.
Qed.

End Replaced.

(** X15.  The sanitized name never contains [Radio] and has no white
    space at either end.  So sanitizing it again changes nothing as soon as
    it does not start with a lower-case letter and contains neither
    [Renderer] nor [Model]. *)
Theorem sanitizeClassName_leaves_no_Radio (k : string) :
  JSString.contains "Radio" (sanitizeClassName k) = false
  /\ JSString.trim (sanitizeClassName k) = sanitizeClassName k
  /\ (JSString.starts_lower (sanitizeClassName k) = false ->
      JSString.contains "Renderer" (sanitizeClassName k) = false ->
      JSString.contains "Model" (sanitizeClassName k) = false ->
      sanitizeClassName (sanitizeClassName k) = sanitizeClassName k).
Proof.
  assert (Hradio : JSString.contains "Radio" (sanitizeClassName k) = false).
  { unfold JSString.contains, sanitizeClassName, JSString.replace_g.
    rewrite find_occurrence_trim; [reflexivity|].
    apply (replace_scan_leaves_none "R" "M" "adio" "ix" eq_refl eq_refl _ _ (le_n _)). }
  assert (Htrim : JSString.trim (sanitizeClassName k) = sanitizeClassName k)
    by (unfold sanitizeClassName; apply trim_idempotent).
  split; [exact Hradio|]. split; [exact Htrim|].
  intros Hl Hr Hm. apply sanitize_fixed; assumption.
Qed.

Lemma sanitizeClassName_leaves_no_Radio_witness :
  sanitizeClassName (sanitizeClassName "musicRadioShelfRenderer")
  = sanitizeClassName "musicRadioShelfRenderer".
Proof.
  apply (proj2 (proj2 (sanitizeClassName_leaves_no_Radio "musicRadioShelfRenderer")));
    reflexivity.
Defined.

(** X16.  Sanitization keeps the suffix by which [parseCommand] selects a
    key: the class name that is looked up for a key that ends with
    [Command], [Endpoint] or [Action] ends with the same word. *)
Theorem sanitizeClassName_keeps_the_command_suffix (key : string) :
  (command_regexp key = true -> command_regexp (sanitizeClassName key) = true)
  /\ (endpoint_regexp key = true -> endpoint_regexp (sanitizeClassName key) = true)
  /\ (action_regexp key = true -> action_regexp (sanitizeClassName key) = true).
Proof.
  unfold command_regexp, endpoint_regexp, action_regexp.
  split; [|split]; intros Hk.
  - apply (sanitizeClassName_suffix "C" "ommand" key); reflexivity || exact Hk.
  - apply (sanitizeClassName_suffix "E" "ndpoint" key); reflexivity || exact Hk.
  - apply (sanitizeClassName_suffix "A" "ction" key); reflexivity || exact Hk.
Qed.

Lemma sanitizeClassName_keeps_the_command_suffix_witness :
  command_regexp (sanitizeClassName "reloadRendererContinuationItemsCommand") = true.
Proof.
  apply (proj1 (sanitizeClassName_keeps_the_command_suffix
                  "reloadRendererContinuationItemsCommand")).
  reflexivity.
Defined.

(** ** Arrays and comment views *)

(** X17.  [parseArray] parses the elements from left to right, each in the
    state that the ones before it have left: the result for two arrays put
    together is the result for the first followed by the result for the
    second, parsed from where the first ended.  The result has at most one
    node for each element. *)
Theorem parseArray_goes_from_left_to_right
        (env : Env) (pre post : list RawNode) (validTypes : ValidTypes) (s : ParserState) :
  exists nodes1 s1 nodes2 s2,
    parseArray env (JArr pre) validTypes s = (Normal nodes1, s1)
    /\ parseArray env (JArr post) validTypes s1 = (Normal nodes2, s2)
    /\ parseArray env (JArr (pre ++ post)) validTypes s = (Normal (nodes1 ++ nodes2), s2)
    /\ length nodes1 <= length pre
    /\ length nodes2 <= length post.
Proof.
  assert (Hlen : forall items s0 nodes s',
             parseArray env (JArr items) validTypes s0 = (Normal nodes, s') ->
             length nodes <= length items).
  { unfold parseArray. induction items as [|item rest IH]; intros s0 nodes s'.
    - cbn. intros [= <- _]. cbn. lia.
    - cbn [parseItems]. unfold bind.
      destruct (parseItem env item validTypes s0) as [[result|e] s1]; [|discriminate].
      rewrite parseItems_acc.
      destruct (parseItems env rest validTypes [] s1) as [[nodes'|e] s2] eqn:E;
        [|discriminate].
      intros [= <- _]. specialize (IH _ _ _ E). rewrite length_app.
      destruct result; cbn; lia. }
  destruct (parseArray_total env pre validTypes s) as (nodes1 & s1 & E1).
  destruct (parseArray_total env post validTypes s1) as (nodes2 & s2 & E2).
  exists nodes1, s1, nodes2, s2. split; [exact E1|]. split; [exact E2|].
  split; [|split; [exact (Hlen _ _ _ _ E1) | exact (Hlen _ _ _ _ E2)]].
  unfold parseArray in *. rewrite parseItems_app, E1, parseItems_acc, E2. reflexivity.
Qed.

Section CommentPass.

Variable env : Env.

Lemma find_payload_with_key (entity : string) (comment_view : YTNode) (k : string)
      (mutations : list RawNode) :
  Forall (fun mutation => JS.nullish mutation = false) mutations ->
  JS.nullish (field comment_view "keys") = false ->
  find_payload (JArr mutations) (has_payload_key entity comment_view k) entity
  = Normal (payload_with_key entity (JS.prop (field comment_view "keys") k) mutations).
Proof.
  intros Hm Hk. unfold find_payload. cbn [as_array and_then].
  induction Hm as [|mutation rest Hn _ IH]; [reflexivity|].
  cbn [array_find payload_with_key]. unfold has_payload_key at 1, and_then.
  rewrite (get_not_nullish mutation "payload" Hn), (get_not_nullish _ k Hk).
  destruct (JS.strict_equals _ _).
  - unfold JS.opt_get at 2. rewrite Hn. reflexivity.
  - exact IH.
Qed.

Lemma find_surface_with_key (comment_view : YTNode) (mutations : list RawNode) :
  Forall (fun mutation => JS.nullish mutation = false) mutations ->
  JS.nullish (field comment_view "keys") = false ->
  find_payload (JArr mutations) (has_entity_key comment_view)
    "engagementToolbarSurfaceEntityPayload"
  = Normal (surface_with_key (JS.prop (field comment_view "keys") "toolbar_surface")
              mutations).
Proof.
  intros Hm Hk. unfold find_payload. cbn [as_array and_then].
  induction Hm as [|mutation rest Hn _ IH]; [reflexivity|].
  cbn [array_find surface_with_key]. unfold has_entity_key at 1, and_then.
  rewrite (get_not_nullish mutation "entityKey" Hn), (get_not_nullish _ _ Hk).
  destruct (JS.strict_equals _ _).
  - unfold JS.opt_get at 2. rewrite Hn. reflexivity.
  - exact IH.
Qed.

Lemma comment_view_loop_patches
      (patch : YTNode -> RawNode -> RawNode -> RawNode -> RawNode -> YTNode)
      (memo : nat) (mutations : list RawNode) (items done : list YTNode)
      (s : ParserState) :
  (forall node a b c d s0,
      CommentView_applyMutations env node a b c d s0 = (Normal (patch node a b c d), s0)) ->
  Forall (fun mutation => JS.nullish mutation = false) mutations ->
  Forall (fun comment_view => JS.nullish (field comment_view "keys") = false) items ->
  nodes_at s memo (type CommentView) = done ++ items ->
  exists s',
    comment_view_loop env memo (JArr mutations) (length done) items s = (Normal tt, s')
    /\ nodes_at s' memo (type CommentView)
       = done ++ (comment_view_after patch mutations <$> items)
    /\ reported s' = reported s
    /\ only_nodes_at memo (type CommentView) s s'.
Proof.
  intros Hpatch Hm Hkeys. revert done s.
  induction Hkeys as [|item rest Hk _ IH]; intros done s Hnodes.
  - exists s. split; [reflexivity|]. split; [rewrite Hnodes; reflexivity|].
    split; [reflexivity | apply only_nodes_at_refl].
  - cbn [comment_view_loop].
    unfold bind at 1. unfold lift at 1.
    rewrite (find_payload_with_key _ item "comment" mutations Hm Hk).
    unfold bind at 1. unfold lift at 1.
    rewrite (find_payload_with_key _ item "toolbar_state" mutations Hm Hk).
    unfold bind at 1. unfold lift at 1.
    rewrite (find_surface_with_key item mutations Hm Hk).
    unfold bind at 1. unfold lift at 1.
    rewrite (find_payload_with_key _ item "comment_surface" mutations Hm Hk).
    unfold bind at 1. rewrite Hpatch. fold (comment_view_after patch mutations item).
    unfold bind at 1.
    pose (s1 := (update_node memo (type CommentView) (length done)
                   (fun _ => comment_view_after patch mutations item) s).2).
    change (update_node memo (type CommentView) (length done)
              (fun _ => comment_view_after patch mutations item) s)
      with (Normal tt, s1).
    assert (Hn1 : nodes_at s1 memo (type CommentView)
                  = (done ++ [comment_view_after patch mutations item]) ++ rest).
    { unfold s1. rewrite nodes_at_update_node, Hnodes.
      rewrite alter_app_r_alt by lia. rewrite Nat.sub_diag. cbn.
      rewrite <- app_assoc. reflexivity. }
    destruct (IH _ s1 Hn1) as (s' & Hrun & Hn' & Hr' & Hf').
    rewrite length_app in Hrun. cbn [length] in Hrun. rewrite Nat.add_1_r in Hrun.
    exists s'. split; [exact Hrun|]. split; [|split].
    + rewrite Hn', <- app_assoc. reflexivity.
    + rewrite Hr'. reflexivity.
    + eapply only_nodes_at_trans; [apply only_nodes_at_update_node | exact Hf'].
Qed.

End CommentPass.

(** X18.  Given an array of mutation records, [applyCommentsMutations]
    hands every comment view of the memo, in order, to the [applyMutations]
    of its class, with the four payloads it finds for it: for each of the
    four keys of the comment view, the payload of the first mutation that
    has that key, or [undefined] when there is none.  Nothing is reported,
    and nothing but the comment views of that memo changes. *)
Theorem comment_views_get_the_payloads_of_their_keys
        (env : Env)
        (patch : YTNode -> RawNode -> RawNode -> RawNode -> RawNode -> YTNode)
        (memo : nat) (mutations : list RawNode) (s : ParserState) :
  (forall node a b c d s0,
      CommentView_applyMutations env node a b c d s0 = (Normal (patch node a b c d), s0)) ->
  Forall (fun mutation => JS.nullish mutation = false) mutations ->
  Forall (fun comment_view => JS.nullish (field comment_view "keys") = false)
    (nodes_at s memo "CommentView") ->
  exists s',
    applyCommentsMutations env memo (JArr mutations) s = (Normal tt, s')
    /\ nodes_at s' memo "CommentView"
       = comment_view_after patch mutations <$> nodes_at s memo "CommentView"
    /\ reported s' = reported s
    /\ only_nodes_at memo "CommentView" s s'.
Proof.
  intros Hpatch Hm Hkeys.
  unfold applyCommentsMutations, bind at 1, Memo_getType. rewrite nodes_at_getType.
  change (type CommentView) with "CommentView".
  destruct (nodes_at s memo "CommentView") as [|item items] eqn:Hnodes.
  - exists s. split; [reflexivity|]. split; [rewrite Hnodes; reflexivity|].
    split; [reflexivity | apply only_nodes_at_refl].
  - cbn [length Nat.ltb Nat.leb JS.truthy negb]. unfold bind at 1, ret.
    destruct (comment_view_loop_patches env patch memo mutations (item :: items) [] s
                Hpatch Hm Hkeys Hnodes) as (s' & Hrun & Hn & Hr & Hf).
    exists s'. split; [exact Hrun|]. split; [exact Hn|]. split; [exact Hr | exact Hf].
Qed.

Lemma comment_views_get_the_payloads_of_their_keys_witness :
  exists s',
    applyCommentsMutations Demo.env 0
      (JArr [JObj [("payload",
                     JObj [("commentEntityPayload",
                             JObj [("key", JStr "c1"); ("text", JStr "hi")])])]])
      (Demo.holding Demo.comment_memo)
    = (Normal tt, s')
    /\ nodes_at s' 0 "CommentView"
       = comment_view_after (fun node comment _ _ _ => set_field "comment" comment node)
           [JObj [("payload",
                    JObj [("commentEntityPayload",
                            JObj [("key", JStr "c1"); ("text", JStr "hi")])])]]
           <$> nodes_at (Demo.holding Demo.comment_memo) 0 "CommentView"
    /\ reported s' = reported (Demo.holding Demo.comment_memo)
    /\ only_nodes_at 0 "CommentView" (Demo.holding Demo.comment_memo) s'.
Proof.
  apply (comment_views_get_the_payloads_of_their_keys Demo.env
           (fun node comment _ _ _ => set_field "comment" comment node) 0
           [JObj [("payload",
                    JObj [("commentEntityPayload",
                            JObj [("key", JStr "c1"); ("text", JStr "hi")])])]]
           (Demo.holding Demo.comment_memo)).
  - reflexivity.
  - repeat constructor.
  - vm_compute. repeat constructor.
Defined.

(** ** The language of the formats *)

Section Languages.

Lemma Forall2_set_language (language : RawNode) (formats : list YTNode) :
  Forall2 (same_but "language") formats (VideoInfo.set_language language <$> formats).
Proof.
  induction formats; constructor; [apply same_but_set_field | assumption].
Qed.

Lemma Forall2_set_audio_language (language : RawNode) (formats : list YTNode) :
  Forall2 (same_but "language") formats
    (VideoInfo.set_audio_language language <$> formats).
Proof.
  induction formats as [|f formats IH]; constructor; [|exact IH].
  unfold VideoInfo.set_audio_language. destruct (JS.truthy _);
    [apply same_but_set_field | apply same_but_refl].
Qed.

Lemma Forall2_same_but_refl (formats : list YTNode) :
  Forall2 (same_but "language") formats formats.
Proof. induction formats; constructor; [apply same_but_refl | assumption]. Qed.

Lemma Forall_set_language (language : RawNode) (formats : list YTNode) :
  Forall (fun format => field format "language" = language)
    (VideoInfo.set_language language <$> formats).
Proof.
  induction formats; constructor; [apply field_set_field | assumption].
Qed.

Lemma Forall_set_audio_language (language : RawNode) (formats : list YTNode) :
  Forall (fun format => JS.truthy (field format "has_audio") = true ->
                        field format "language" = language)
    (VideoInfo.set_audio_language language <$> formats).
Proof.
  induction formats as [|f formats IH]; constructor; [|exact IH].
  unfold VideoInfo.set_audio_language. destruct (JS.truthy (field f "has_audio")) eqn:E.
  - intros _. apply field_set_field.
  - rewrite E. discriminate.
Qed.

Lemma no_auto_generated_track (captions : list RawNode) :
  Forall (fun caption => JS.nullish caption = false
                         /\ JS.strict_equals (JS.prop caption "kind") (JStr "asr") = false)
    captions ->
  array_find VideoInfo.is_auto_generated captions = Normal JUndefined.
Proof.
  induction 1 as [|caption captions [Hn Hk] _ IH]; [reflexivity|].
  cbn [array_find]. unfold VideoInfo.is_auto_generated, and_then.
  rewrite (get_not_nullish caption "kind" Hn), Hk. exact IH.
Qed.

End Languages.

(** X19.  The block of the constructor of VideoInfo that assigns languages
    changes nothing but the [language] of formats: their number, their
    order and their other fields stay.  When it assigns at all (there is a
    default audio track, or there are caption tracks), all combined formats
    end with one and the same language.  With no default audio track and
    caption tracks of which none is auto-generated, that language is
    [undefined]: the [language] of every combined format and of every
    adaptive format with audio is erased. *)
Theorem video_info_assigns_one_language
        (data : Out.StreamingData) (caption_tracks : option (list RawNode)) :
  (forall data',
      VideoInfo.assign_languages (Some data) caption_tracks = Normal (Some data') ->
      Forall2 (same_but "language") (Out.formats data) (Out.formats data')
      /\ Forall2 (same_but "language") (Out.adaptive_formats data)
           (Out.adaptive_formats data')
      /\ Out.expires data' = Out.expires data
      /\ Out.dash_manifest_url data' = Out.dash_manifest_url data
      /\ Out.hls_manifest_url data' = Out.hls_manifest_url data
      /\ Out.server_abr_streaming_url data' = Out.server_abr_streaming_url data)
  /\ (forall default_audio_track,
         List.find VideoInfo.audio_is_default (Out.adaptive_formats data)
         = Some default_audio_track ->
         exists data',
           VideoInfo.assign_languages (Some data) caption_tracks = Normal (Some data')
           /\ Out.adaptive_formats data' = Out.adaptive_formats data
           /\ Forall (fun format =>
                        field format "language" = field default_audio_track "language")
                (Out.formats data'))
  /\ (forall data',
         VideoInfo.assign_languages (Some data) caption_tracks = Normal (Some data') ->
         (exists track tracks, caption_tracks = Some (track :: tracks)) ->
         exists language,
           Forall (fun format => field format "language" = language) (Out.formats data'))
  /\ (forall track tracks,
         List.find VideoInfo.audio_is_default (Out.adaptive_formats data) = None ->
         caption_tracks = Some (track :: tracks) ->
         Forall (fun caption =>
                   JS.nullish caption = false
                   /\ JS.strict_equals (JS.prop caption "kind") (JStr "asr") = false)
           (track :: tracks) ->
         exists data',
           VideoInfo.assign_languages (Some data) caption_tracks = Normal (Some data')
           /\ Forall (fun format => field format "language" = JUndefined)
                (Out.formats data')
           /\ Forall (fun format => JS.truthy (field format "has_audio") = true ->
                                    field format "language" = JUndefined)
                (Out.adaptive_formats data'))
  /\ (List.find VideoInfo.audio_is_default (Out.adaptive_formats data) = None ->
      (caption_tracks = None \/ caption_tracks = Some []) ->
      VideoInfo.assign_languages (Some data) caption_tracks = Normal (Some data)).
Proof.
  split; [|split; [|split; [|split]]].
  - intros data'. unfold VideoInfo.assign_languages.
    destruct (List.find _ _) as [d|].
    + intros [= <-]. cbn. repeat split; auto using Forall2_set_language, Forall2_same_but_refl.
    + destruct caption_tracks as [[|caption captions]|].
      * intros [= <-]. repeat split; auto using Forall2_same_but_refl.
      * destruct (array_find _ _) as [auto|e]; cbn [and_then]; [|discriminate].
        intros [= <-]. cbn.
        repeat split; auto using Forall2_set_language, Forall2_set_audio_language.
      * intros [= <-]. repeat split; auto using Forall2_same_but_refl.
  - intros d Hd. unfold VideoInfo.assign_languages. rewrite Hd.
    eexists. split; [reflexivity|]. split; [reflexivity|]. apply Forall_set_language.
  - intros data' H (track & tracks & ->). unfold VideoInfo.assign_languages in H.
    destruct (List.find _ _) as [d|].
    + injection H as <-. eexists. apply Forall_set_language.
    + destruct (array_find _ _) as [auto|e]; cbn [and_then] in H; [|discriminate H].
      injection H as <-. eexists. apply Forall_set_language.
  - intros track tracks Hd -> Hall. unfold VideoInfo.assign_languages. rewrite Hd.
    rewrite (no_auto_generated_track _ Hall). cbn [and_then].
    eexists. split; [reflexivity|].
    split; [apply Forall_set_language | apply Forall_set_audio_language].
  - intros Hd [-> | ->]; unfold VideoInfo.assign_languages; rewrite Hd; reflexivity.
Qed.

Lemma video_info_assigns_one_language_witness :
  exists data',
    VideoInfo.assign_languages (Some Sample.streaming_data)
      (Some [JObj [("language_code", JStr "de")]])
    = Normal (Some data')
    /\ Forall (fun format => field format "language" = JUndefined) (Out.formats data')
    /\ Forall (fun format => JS.truthy (field format "has_audio") = true ->
                             field format "language" = JUndefined)
         (Out.adaptive_formats data').
Proof.
  apply (proj1 (proj2 (proj2 (proj2 (video_info_assigns_one_language
                                       Sample.streaming_data
                                       (Some [JObj [("language_code", JStr "de")]])))))
           (JObj [("language_code", JStr "de")]) [] eq_refl eq_refl).
  repeat constructor.
Defined.

(** ** The node classes *)

Section ClassProperties.

(** One step of a constructor: a property read of a value that is
    there. *)
Lemma bind_get {A} (v : RawNode) (k : string) (f : RawNode -> M A) (s : ParserState) :
  JS.nullish v = false ->
  bind (lift (JS.get v k)) f s = f (JS.prop v k) s.
Proof. intros Hn. unfold bind, lift. rewrite (get_not_nullish v k Hn). reflexivity. Qed.

Lemma bind_get_nullish {A} (v : RawNode) (k : string) (f : RawNode -> M A)
      (s : ParserState) :
  JS.nullish v = true ->
  bind (lift (JS.get v k)) f s = (Throw (TypeError (JS.cannot_read v k)), s).
Proof. intros Hn. unfold bind, lift, JS.get. rewrite Hn. reflexivity. Qed.

Lemma bind_lift {A B} (a : A) (f : A -> M B) (s : ParserState) :
  bind (lift (Normal a)) f s = f a s.
Proof. reflexivity. Qed.

Lemma get_returns (v : RawNode) (k : string) (x : RawNode) :
  JS.get v k = Normal x -> JS.nullish v = false /\ x = JS.prop v k.
Proof. unfold JS.get. destruct (JS.nullish v); [intros [=] | intros [= <-]; auto]. Qed.

Lemma bind_bind {A B C} (m : M A) (f : A -> M B) (g : B -> M C) (s : ParserState) :
  bind (bind m f) g s = bind m (fun a => bind (f a) g) s.
Proof. unfold bind. destruct (m s) as [[a|e] s1]; reflexivity. Qed.

Lemma bind_ret {A B} (a : A) (f : A -> M B) (s : ParserState) :
  bind (ret a) f s = f a s.
Proof. reflexivity. Qed.

Lemma bind_Normal {A B} (m : M A) (f : A -> M B) (s s' : ParserState) (a : A) :
  m s = (Normal a, s') -> bind m f s = f a s'.
Proof. intros E. unfold bind. rewrite E. reflexivity. Qed.

End ClassProperties.

(** X20.  The [lines] of a TileMetadata tell a missing key from an empty
    value: they are [undefined] when the data has no [lines] key, [null]
    when the key holds a falsy value, the parsed array when it holds an
    array, and a value that is neither makes the constructor throw
    ['Expected array but got a single item'].  A primitive for data makes
    [Reflect.has] throw. *)
Theorem tile_metadata_lines
        (env : Env) (Text : Type) (new_Text : RawNode -> M Text)
        (data : RawNode) (s s1 : ParserState) (title : Text) :
  new_Text (JS.prop data "title") s = (Normal title, s1) ->
  (forall props,
      data = JObj props ->
      match JS.assoc "lines" props with
      | None =>
          new_TileMetadata env Text new_Text data s
          = (Normal {| TileMetadata_title := title; TileMetadata_lines := None |}, s1)
      | Some lines =>
          if negb (JS.truthy lines) then
            new_TileMetadata env Text new_Text data s
            = (Normal {| TileMetadata_title := title;
                         TileMetadata_lines := Some Parsed_null |}, s1)
          else if JS.isArray lines then
            exists nodes s2,
              parseArray env lines (OneType Line) s1 = (Normal nodes, s2)
              /\ new_TileMetadata env Text new_Text data s
                 = (Normal {| TileMetadata_title := title;
                              TileMetadata_lines := Some (Parsed_array nodes) |}, s2)
          else
            new_TileMetadata env Text new_Text data s
            = (Throw (ParsingError "Expected array but got a single item"), s1)
      end)
  /\ (JS.nullish data = false -> JS.isArray data = false ->
      (forall props, data <> JObj props) ->
      new_TileMetadata env Text new_Text data s
      = (Throw (TypeError "Reflect.has called on non-object"), s1)).
Proof.
  intros Htitle. split.
  - intros props ->. unfold new_TileMetadata.
    rewrite bind_get by reflexivity. cbv beta.
    rewrite (bind_Normal _ _ _ _ _ Htitle). cbv beta. cbn [JSReflect.has].
    rewrite bind_lift. cbv beta.
    destruct (JS.assoc "lines" props) as [lines|] eqn:E.
    + rewrite bool_decide_eq_true_2 by eauto.
      rewrite bind_get by reflexivity. cbv beta.
      assert (Hp : JS.prop (JObj props) "lines" = lines)
        by (unfold JS.prop; cbn [JS.own_entries]; rewrite E; reflexivity).
      rewrite Hp.
      destruct (JS.truthy lines) eqn:Ht; cbn [negb].
      * destruct (JS.isArray lines) eqn:Ha.
        -- destruct lines; try discriminate Ha.
           destruct (parseArray_total env items (OneType Line) s1) as (nodes & s2 & E1).
           exists nodes, s2. split; [exact E1|].
           unfold bind. rewrite parse_array_case, E1. reflexivity.
        -- unfold bind, parse. rewrite Ht.
           destruct lines; try discriminate Ha; reflexivity.
      * unfold bind, parse. rewrite Ht. reflexivity.
    + rewrite bool_decide_eq_false_2 by (intros [? ?]; discriminate). reflexivity.
  - intros Hn Ha Hobj. unfold new_TileMetadata.
    rewrite bind_get by exact Hn. cbv beta.
    rewrite (bind_Normal _ _ _ _ _ Htitle). cbv beta.
    destruct data; try discriminate Hn; try discriminate Ha; try reflexivity.
    exfalso. exact (Hobj props eq_refl).
Qed.

Lemma tile_metadata_lines_witness :
  new_TileMetadata Demo.env RawNode ret (JObj [("title", JStr "t")]) Demo.initial
  = (Normal {| TileMetadata_title := JStr "t"; TileMetadata_lines := None |},
     Demo.initial)
  /\ new_TileMetadata Demo.env RawNode ret
       (JObj [("title", JStr "t"); ("lines", JNull)]) Demo.initial
     = (Normal {| TileMetadata_title := JStr "t";
                  TileMetadata_lines := Some Parsed_null |}, Demo.initial).
Proof.
  split.
  - exact (proj1 (tile_metadata_lines Demo.env RawNode ret (JObj [("title", JStr "t")])
                    Demo.initial Demo.initial (JStr "t") eq_refl)
             [("title", JStr "t")] eq_refl).
  - exact (proj1 (tile_metadata_lines Demo.env RawNode ret
                    (JObj [("title", JStr "t"); ("lines", JNull)])
                    Demo.initial Demo.initial (JStr "t") eq_refl)
             [("title", JStr "t"); ("lines", JNull)] eq_refl).
Defined.

Section Lockup.

Lemma find_occurrence_prefix (p x : string) :
  JSString.find_occurrence [p] (p +:+ x) = Some (0, p).
Proof.
  assert (H : String.prefix p (p +:+ x) = true).
  { induction p as [|a p IH]; [destruct x; reflexivity|].
    change (String a p +:+ x) with (String a (p +:+ x)). cbn [String.prefix].
    destruct (ascii_dec a a); [exact IH | congruence]. }
  destruct (p +:+ x) eqn:E; cbn [JSString.find_occurrence JSString.first_match];
    rewrite H; reflexivity.
Qed.

Lemma slice_app (p x : string) : JSString.slice (String.length p) (p +:+ x) = x.
Proof.
  induction p as [|a p IH]; [destruct x; reflexivity|].
  change (String a p +:+ x) with (String a (p +:+ x)). exact IH.
Qed.

Lemma replace_first_prefix (p x : string) : replace_first p "" (p +:+ x) = x.
Proof.
  unfold replace_first. rewrite find_occurrence_prefix. cbn [Nat.add].
  rewrite slice_app. destruct (p +:+ x); reflexivity.
Qed.

Lemma replace_first_absent (p s : string) :
  JSString.contains p s = false -> replace_first p "" s = s.
Proof.
  unfold JSString.contains, replace_first.
  destruct (JSString.find_occurrence [p] s) as [[i q]|]; [discriminate | reflexivity].
Qed.

End Lockup.

(** X21.  A LockupView is constructed only from data whose [contentType]
    is a string, and its [content_type] is that string without the first
    ['LOCKUP_CONTENT_TYPE_'] in it: what follows the prefix when the string
    starts with it, and the string itself when it does not contain it.  The
    two nodes are parsed, and their events reported, before [contentType]
    is looked at. *)
Theorem lockup_view_content_type
        (env : Env) (data : RawNode) (s : ParserState) :
  (forall view s',
      new_LockupView env data s = (Normal view, s') ->
      exists contentType,
        JS.prop data "contentType" = JStr contentType
        /\ LockupView_content_type view
           = replace_first "LOCKUP_CONTENT_TYPE_" "" contentType
        /\ LockupView_content_id view = JS.prop data "contentId")
  /\ (forall rest, replace_first "LOCKUP_CONTENT_TYPE_" ""
                     ("LOCKUP_CONTENT_TYPE_" +:+ rest) = rest)
  /\ (forall contentType,
         JSString.contains "LOCKUP_CONTENT_TYPE_" contentType = false ->
         replace_first "LOCKUP_CONTENT_TYPE_" "" contentType = contentType)
  /\ (JS.nullish data = false ->
      (forall contentType, JS.prop data "contentType" <> JStr contentType) ->
      exists content_image s1 metadata s2 msg,
        parseItem env (JS.prop data "contentImage")
          (TypeList [CollectionThumbnailView; ThumbnailView]) s
        = (Normal content_image, s1)
        /\ parseItem env (JS.prop data "metadata") (OneType LockupMetadataView) s1
           = (Normal metadata, s2)
        /\ new_LockupView env data s = (Throw (TypeError msg), s2))
  /\ (JS.nullish data = false ->
      forall contentType,
        JS.prop data "contentType" = JStr contentType ->
        JS.nullish (JS.prop data "rendererContext") = false ->
        JS.nullish (JS.prop (JS.prop data "rendererContext") "commandContext") = false ->
        (forall onTap s0, exists node s1,
            new_ env NavigationEndpoint onTap s0 = (Normal node, s1)) ->
        exists view s', new_LockupView env data s = (Normal view, s')).
Proof.
  split; [|split; [|split; [|split]]].
  - intros view s' H. unfold new_LockupView in H.
    apply bind_returns in H as (contentImage & t1 & _ & H).
    apply bind_returns in H as (content_image & t2 & _ & H).
    apply bind_returns in H as (metadata0 & t3 & _ & H).
    apply bind_returns in H as (metadata & t4 & _ & H).
    apply bind_returns in H as (content_id & t5 & Hid & H).
    apply bind_returns in H as (contentType & t6 & Hct & H).
    apply bind_returns in H as (content_type & t7 & Hrep & H).
    apply bind_returns in H as (rendererContext & t8 & _ & H).
    apply bind_returns in H as (commandContext & t9 & _ & H).
    apply bind_returns in H as (onTap & t10 & _ & H).
    apply bind_returns in H as (on_tap_endpoint & t11 & _ & H).
    injection H as <- <-. cbn [LockupView_content_type LockupView_content_id].
    apply lift_returns in Hid as [Hid _]. apply lift_returns in Hct as [Hct _].
    apply lift_returns in Hrep as [Hrep _].
    apply get_returns in Hid as [_ ->]. apply get_returns in Hct as [_ ->].
    destruct (JS.prop data "contentType") as [| | | |str| |]; try discriminate Hrep.
    injection Hrep as <-. exists str. auto.
  - intros rest. apply replace_first_prefix.
  - intros contentType. apply replace_first_absent.
  - intros Hn Hc. unfold new_LockupView.
    destruct (parseItem_total env (JS.prop data "contentImage")
                (TypeList [CollectionThumbnailView; ThumbnailView]) s)
      as (content_image & s1 & E1).
    destruct (parseItem_total env (JS.prop data "metadata") (OneType LockupMetadataView) s1)
      as (metadata & s2 & E2).
    assert (Hmsg : exists msg,
               String_replace (JS.prop data "contentType") "LOCKUP_CONTENT_TYPE_" ""
               = Throw (TypeError msg)).
    { destruct (JS.prop data "contentType") as [| | | |contentType| |];
        try (eexists; reflexivity).
      exfalso. exact (Hc contentType eq_refl). }
    destruct Hmsg as [msg Hmsg].
    exists content_image, s1, metadata, s2, msg. split; [exact E1|]. split; [exact E2|].
    rewrite bind_get by exact Hn. cbv beta.
    rewrite (bind_Normal _ _ _ _ _ E1). cbv beta.
    rewrite bind_get by exact Hn. cbv beta.
    rewrite (bind_Normal _ _ _ _ _ E2). cbv beta.
    rewrite bind_get by exact Hn. cbv beta.
    rewrite bind_get by exact Hn. cbv beta.
    unfold bind at 1, lift at 1. rewrite Hmsg. reflexivity.
  - intros Hn contentType Hc Hr Hcc Hnew. unfold new_LockupView.
    destruct (parseItem_total env (JS.prop data "contentImage")
                (TypeList [CollectionThumbnailView; ThumbnailView]) s)
      as (content_image & s1 & E1).
    destruct (parseItem_total env (JS.prop data "metadata") (OneType LockupMetadataView) s1)
      as (metadata & s2 & E2).
    rewrite bind_get by exact Hn. cbv beta.
    rewrite (bind_Normal _ _ _ _ _ E1). cbv beta.
    rewrite bind_get by exact Hn. cbv beta.
    rewrite (bind_Normal _ _ _ _ _ E2). cbv beta.
    rewrite bind_get by exact Hn. cbv beta.
    rewrite bind_get by exact Hn. cbv beta.
    rewrite Hc. cbn [String_replace]. rewrite bind_lift. cbv beta.
    rewrite bind_get by exact Hn. cbv beta.
    rewrite bind_get by exact Hr. cbv beta.
    rewrite bind_get by exact Hcc. cbv beta.
    destruct (Hnew (JS.prop (JS.prop (JS.prop data "rendererContext") "commandContext")
                      "onTap") s2) as (node & s3 & E3).
    rewrite (bind_Normal _ _ _ _ _ E3). cbv beta. eexists _, _. reflexivity.
Qed.

Lemma lockup_view_content_type_witness :
  exists view s', new_LockupView Demo.env Sample.lockup Demo.initial = (Normal view, s').
Proof.
  apply (proj2 (proj2 (proj2 (proj2 (lockup_view_content_type Demo.env Sample.lockup
                                       Demo.initial))))
           eq_refl "LOCKUP_CONTENT_TYPE_VIDEO" eq_refl eq_refl eq_refl).
  intros onTap s0. eexists _, _. reflexivity.
Defined.

Section WatchNext.

Variable env : Env.

Lemma new_AutoplaySet_total (item : RawNode) (s : ParserState) :
  JS.nullish item = false ->
  exists set s', new_AutoplaySet env item s = (Normal set, s').
Proof.
  intros Hn. unfold new_AutoplaySet.
  rewrite bind_get by exact Hn. cbv beta.
  rewrite bind_get by exact Hn. cbv beta.
  destruct (parseItem_total env (JS.prop item "autoplayVideoRenderer")
              (OneType AutonavEndpoint) s) as (r1 & s1 & E1).
  rewrite (bind_Normal _ _ _ _ _ E1). cbv beta.
  rewrite bind_get by exact Hn. cbv beta.
  destruct (parseItem_total env (JS.prop item "nextVideoRenderer")
              (OneType MaybeHistoryEndpoint) s1) as (r2 & s2 & E2).
  rewrite (bind_Normal _ _ _ _ _ E2). cbv beta.
  rewrite bind_get by exact Hn. cbv beta.
  destruct (parseItem_total env (JS.prop item "previousVideoRenderer")
              (OneType MaybeHistoryEndpoint) s2) as (r3 & s3 & E3).
  rewrite (bind_Normal _ _ _ _ _ E3). cbv beta. eexists _, _. reflexivity.
Qed.

Lemma new_AutoplaySet_returns (item : RawNode) (s s' : ParserState) (set : AutoplaySet) :
  new_AutoplaySet env item s = (Normal set, s') -> JS.nullish item = false.
Proof.
  unfold new_AutoplaySet. intros H.
  apply bind_returns in H as (mode & t1 & Hm & _).
  apply lift_returns in Hm as [Hm _]. exact (proj1 (get_returns _ _ _ Hm)).
Qed.

Lemma autoplay_sets_map_total (items : list RawNode) :
  Forall (fun item => JS.nullish item = false) items ->
  forall s, exists sets s',
    autoplay_sets_map env items s = (Normal sets, s') /\ length sets = length items.
Proof.
  induction 1 as [|item rest Hn _ IH]; intros s; [exists [], s; split; reflexivity|].
  cbn [autoplay_sets_map].
  destruct (new_AutoplaySet_total item s Hn) as (set & s1 & E1).
  rewrite (bind_Normal _ _ _ _ _ E1). cbv beta.
  destruct (IH s1) as (sets & s2 & E2 & Hl).
  rewrite (bind_Normal _ _ _ _ _ E2). cbv beta.
  exists (set :: sets), s2. split; [reflexivity | cbn; lia].
Qed.

Lemma autoplay_sets_map_returns (items : list RawNode) :
  forall s sets s',
    autoplay_sets_map env items s = (Normal sets, s') ->
    Forall (fun item => JS.nullish item = false) items /\ length sets = length items.
Proof.
  induction items as [|item rest IH]; intros s sets s' H.
  - injection H as <- _. split; [constructor | reflexivity].
  - cbn [autoplay_sets_map] in H.
    apply bind_returns in H as (set & s1 & E1 & H).
    apply bind_returns in H as (sets1 & s2 & E2 & H).
    injection H as <- _. destruct (IH _ _ _ E2) as [Hall Hl].
    split; [constructor; [exact (new_AutoplaySet_returns _ _ _ _ E1) | exact Hall]|].
    cbn. lia.
Qed.

End WatchNext.

(** X22.  SingleColumnWatchNextResults is constructed only from data that
    has [results.results] and [autoplay.autoplay] with an array of sets, and
    then it has one set for each raw set; data without [autoplay], for
    one, always makes the constructor throw.  From data of that shape it is
    constructed whenever the constructor of [Text] returns. *)
Theorem single_column_watch_next_results_needs_autoplay
        (env : Env) (Text : Type) (new_Text : RawNode -> M Text)
        (data : RawNode) (s : ParserState) :
  (forall node s',
      new_SingleColumnWatchNextResults env Text new_Text data s = (Normal node, s') ->
      exists sets,
        watch_next_shape data sets
        /\ length (autoplay_sets Text node) = length sets)
  /\ (JS.nullish (JS.prop data "autoplay") = true ->
      exists e s',
        new_SingleColumnWatchNextResults env Text new_Text data s = (Throw e, s'))
  /\ ((forall title s0, exists text s1, new_Text title s0 = (Normal text, s1)) ->
      forall sets,
        watch_next_shape data sets ->
        exists node s',
          new_SingleColumnWatchNextResults env Text new_Text data s = (Normal node, s')
          /\ length (autoplay_sets Text node) = length sets).
Proof.
  assert (Hret : forall node s',
             new_SingleColumnWatchNextResults env Text new_Text data s = (Normal node, s') ->
             exists sets,
               watch_next_shape data sets
               /\ length (autoplay_sets Text node) = length sets).
  { intros node s' H. unfold new_SingleColumnWatchNextResults in H.
    apply bind_returns in H as (results & t1 & G1 & H).
    apply lift_returns in G1 as [G1 ->]. apply get_returns in G1 as [N1 ->].
    apply bind_returns in H as (results2 & t2 & G2 & H).
    apply lift_returns in G2 as [G2 ->]. apply get_returns in G2 as [N2 ->].
    apply bind_returns in H as (contents & t3 & G3 & H).
    apply lift_returns in G3 as [G3 ->]. apply get_returns in G3 as [N3 ->].
    apply bind_returns in H as (parsed & t4 & P4 & H).
    apply bind_returns in H as (tracking & t5 & _ & H).
    apply bind_returns in H as (autoplay & t6 & G6 & H).
    apply lift_returns in G6 as [G6 _]. apply get_returns in G6 as [_ ->].
    apply bind_returns in H as (autoplay2 & t7 & G7 & H).
    apply lift_returns in G7 as [G7 _]. apply get_returns in G7 as [N7 ->].
    apply bind_returns in H as (sets_raw & t8 & G8 & H).
    apply lift_returns in G8 as [G8 _]. apply get_returns in G8 as [N8 ->].
    apply bind_returns in H as (sets & t9 & G9 & H).
    apply lift_returns in G9 as [G9 _].
    apply bind_returns in H as (built & t10 & G10 & H).
    apply bind_returns in H as (title_raw & t11 & _ & H).
    apply bind_returns in H as (title & t12 & _ & H).
    apply bind_returns in H as (count & t13 & _ & H).
    apply bind_returns in H as (replay_raw & t14 & _ & H).
    apply bind_returns in H as (replay & t15 & _ & H).
    apply bind_returns in H as (tracking2 & t16 & _ & H).
    apply bind_returns in H as (pivot_raw & t17 & _ & H).
    apply bind_returns in H as (pivot0 & t18 & _ & H).
    injection H as <- _.
    destruct (JS.prop (JS.prop (JS.prop data "autoplay") "autoplay") "sets")
      as [| | | | |items|] eqn:Hsets; try discriminate G9.
    injection G9 as <-.
    destruct (autoplay_sets_map_returns env _ _ _ _ G10) as [Hall Hl].
    exists items. split; [|exact Hl].
    repeat split; try assumption.
    intros Ht. destruct (JS.isArray _) eqn:Ha; [reflexivity|].
    unfold parse in P4. rewrite Ht in P4. cbn [negb] in P4.
    destruct (JS.prop (JS.prop (JS.prop data "results") "results") "contents");
      try discriminate Ha; discriminate P4. }
  split; [exact Hret|]. split.
  - intros Hn.
    destruct (new_SingleColumnWatchNextResults env Text new_Text data s)
      as [[node|e] s'] eqn:E; [|eauto].
    destruct (Hret node s' eq_refl) as (sets & (_ & _ & _ & _ & Ha & _) & _).
    congruence.
  - intros Htext sets (N0 & N1 & N2 & Hc & N3 & N4 & Hsets & Hall).
    unfold new_SingleColumnWatchNextResults.
    rewrite bind_get by exact N0. cbv beta.
    rewrite bind_get by exact N1. cbv beta.
    rewrite bind_get by exact N2. cbv beta.
    assert (Hparse : exists parsed t,
               parse env (JS.prop (JS.prop (JS.prop data "results") "results") "contents")
                 true (OneType ItemSection) s = (Normal parsed, t)).
    { destruct (JS.truthy (JS.prop (JS.prop (JS.prop data "results") "results")
                             "contents")) eqn:Ht.
      - specialize (Hc eq_refl).
        destruct (JS.prop (JS.prop (JS.prop data "results") "results") "contents");
          try discriminate Hc.
        rewrite parse_array_case.
        destruct (parseArray_total env items (OneType ItemSection) s) as (l & t & ->).
        eauto.
      - unfold parse. rewrite Ht. cbn. eauto. }
    destruct Hparse as (parsed & t1 & E1).
    rewrite (bind_Normal _ _ _ _ _ E1). cbv beta.
    rewrite bind_get by exact N2. cbv beta.
    rewrite bind_get by exact N0. cbv beta.
    rewrite bind_get by exact N3. cbv beta.
    rewrite bind_get by exact N4. cbv beta.
    rewrite Hsets. cbn [as_array]. rewrite bind_lift. cbv beta.
    destruct (autoplay_sets_map_total env sets Hall t1) as (built & t2 & E2 & Hl).
    rewrite (bind_Normal _ _ _ _ _ E2). cbv beta.
    rewrite bind_get by exact N4. cbv beta.
    destruct (Htext (JS.prop (JS.prop (JS.prop data "autoplay") "autoplay") "title") t2)
      as (text & t3 & E3).
    rewrite (bind_Normal _ _ _ _ _ E3). cbv beta.
    rewrite bind_get by exact N4. cbv beta.
    rewrite bind_get by exact N4. cbv beta.
    destruct (parseItem_total env
                (JS.prop (JS.prop (JS.prop data "autoplay") "autoplay")
                   "replayVideoRenderer") AnyType t3) as (replay & t4 & E4).
    rewrite (bind_Normal _ _ _ _ _ E4). cbv beta.
    rewrite bind_get by exact N4. cbv beta.
    rewrite bind_get by exact N0. cbv beta.
    destruct (parseItem_total env (JS.prop data "pivot") (OneType SectionList) t4)
      as (pivot0 & t5 & E5).
    rewrite (bind_Normal _ _ _ _ _ E5). cbv beta.
    eexists _, _. split; [reflexivity | exact Hl].
Qed.

Lemma single_column_watch_next_results_needs_autoplay_witness :
  exists node s',
    new_SingleColumnWatchNextResults Demo.env RawNode ret Sample.watch_next Demo.initial
    = (Normal node, s')
    /\ length (autoplay_sets RawNode node) = length [JObj [("mode", JStr "NORMAL")]].
Proof.
  apply (proj2 (proj2 (single_column_watch_next_results_needs_autoplay Demo.env RawNode
                         ret Sample.watch_next Demo.initial))
           ltac:(intros title s0; eexists _, _; reflexivity)
           [JObj [("mode", JStr "NORMAL")]]).
  unfold watch_next_shape.
  repeat split; try reflexivity; [intros [=] | repeat constructor].
Defined.

(** X23.  The constructor of EngagementPanelSectionList returns for every
    data other than [undefined] and [null], whatever the panel holds: a
    header or a content of a class that is not allowed is left [null] by
    [parseItem].  Its [identifier] is [undefined] unless the data has a
    truthy one, of which it keeps [surface] and [tag]. *)
Theorem engagement_panel_is_always_constructed
        (env : Env) (data : RawNode) (s : ParserState) :
  (JS.nullish data = true ->
   new_EngagementPanelSectionList env data s
   = (Throw (TypeError (JS.cannot_read data "header")), s))
  /\ (JS.nullish data = false ->
      exists header s1 content s2,
        parseItem env (JS.prop data "header")
          (TypeList [EngagementPanelTitleHeader; OverlayPanelHeader]) s
        = (Normal header, s1)
        /\ parseItem env (JS.prop data "content")
             (TypeList [ VideoAttributeView; ItemSection; SectionList; ContinuationItem;
                         ClipSection; StructuredDescriptionContent; MacroMarkersList;
                         ProductList ]) s1
           = (Normal content, s2)
        /\ new_EngagementPanelSectionList env data s
           = (Normal
                {| EngagementPanelSectionList_header := header;
                   EngagementPanelSectionList_content := content;
                   EngagementPanelSectionList_panel_identifier :=
                     JS.prop data "panelIdentifier";
                   EngagementPanelSectionList_identifier :=
                     if JS.truthy (JS.prop data "identifier")
                     then JObj [ ("surface", JS.prop (JS.prop data "identifier") "surface");
                                 ("tag", JS.prop (JS.prop data "identifier") "tag") ]
                     else JUndefined;
                   EngagementPanelSectionList_target_id := JS.prop data "targetId";
                   EngagementPanelSectionList_visibility := JS.prop data "visibility" |},
              s2)).
Proof.
  split.
  - intros Hn. unfold new_EngagementPanelSectionList.
    apply bind_get_nullish, Hn.
  - intros Hn. unfold new_EngagementPanelSectionList.
    destruct (parseItem_total env (JS.prop data "header")
                (TypeList [EngagementPanelTitleHeader; OverlayPanelHeader]) s)
      as (header & s1 & E1).
    destruct (parseItem_total env (JS.prop data "content")
                (TypeList [ VideoAttributeView; ItemSection; SectionList;
                            ContinuationItem; ClipSection; StructuredDescriptionContent;
                            MacroMarkersList; ProductList ]) s1)
      as (content & s2 & E2).
    exists header, s1, content, s2. split; [exact E1|]. split; [exact E2|].
    rewrite bind_get by exact Hn. cbv beta.
    rewrite (bind_Normal _ _ _ _ _ E1). cbv beta.
    rewrite bind_get by exact Hn. cbv beta.
    rewrite (bind_Normal _ _ _ _ _ E2). cbv beta.
    rewrite bind_get by exact Hn. cbv beta.
    rewrite bind_get by exact Hn. cbv beta.
    destruct (JS.truthy (JS.prop data "identifier")) eqn:Ht.
    + rewrite bind_bind.
      rewrite bind_get by (apply truthy_not_nullish, Ht). cbv beta.
      rewrite bind_bind.
      rewrite bind_get by (apply truthy_not_nullish, Ht). cbv beta.
      rewrite bind_ret. cbv beta.
      rewrite bind_get by exact Hn. cbv beta.
      rewrite bind_get by exact Hn. reflexivity.
    + rewrite bind_ret. cbv beta.
      rewrite bind_get by exact Hn. cbv beta.
      rewrite bind_get by exact Hn. reflexivity.
Qed.

Lemma engagement_panel_is_always_constructed_witness :
  exists header s1 content s2 panel,
    parseItem Demo.env (JS.prop Sample.panel "header")
      (TypeList [EngagementPanelTitleHeader; OverlayPanelHeader]) Demo.initial
    = (Normal header, s1)
    /\ parseItem Demo.env (JS.prop Sample.panel "content")
         (TypeList [ VideoAttributeView; ItemSection; SectionList; ContinuationItem;
                     ClipSection; StructuredDescriptionContent; MacroMarkersList;
                     ProductList ]) s1
       = (Normal content, s2)
    /\ new_EngagementPanelSectionList Demo.env Sample.panel Demo.initial
       = (Normal panel, s2).
Proof.
  destruct (proj2 (engagement_panel_is_always_constructed Demo.env Sample.panel
                     Demo.initial) eq_refl)
    as (header & s1 & content & s2 & E1 & E2 & E3).
  exists header, s1, content, s2. eexists. split; [exact E1|]. split; [exact E2 | exact E3].
Defined.

(** ** The memos that a response costs *)

Section Creation.

Variable env : Env.
Hypothesis Henv : respects_memo env.

Lemma creates_bind {A B} (k1 k2 : nat) (m : M A) (f : A -> M B) :
  creates k1 m -> (forall a, creates k2 (f a)) -> creates (k1 + k2) (bind m f).
Proof.
  intros Hm Hf s. unfold bind. specialize (Hm s).
  destruct (m s) as [[a|e] s1]; [|lia].
  specialize (Hf a s1). destruct (f a s1) as [[b|e] s2]; lia.
Qed.

Lemma creates_touches {A} (allowed : nat -> Prop) (m : M A) :
  touches allowed m -> creates 0 m.
Proof.
  intros Hm s. destruct (Hm s) as (_ & Hl & _).
  destruct (m s) as [[a|e] s1]; cbn [snd] in Hl; lia.
Qed.

Lemma creates_ret {A} (a : A) : creates 0 (ret a).
Proof. intros s. cbn. lia. Qed.

Lemma creates_memo_section {A} (m : M A) :
  touches no_memo m -> creates 1 (memo_section m).
Proof.
  intros Hm s. destruct (created_memo m s Hm) as (H1 & H2 & _).
  unfold memo_section, bind. change (_createMemo s) with (Normal tt, (_createMemo s).2).
  cbv beta iota.
  destruct (m (_createMemo s).2) as [[v|e] s2]; cbn [snd] in *; [|lia].
  unfold _getMemo. rewrite H1. cbn. lia.
Qed.

Lemma creates_items_section (data : Raw.IRawResponse) :
  creates 1 (items_section env data).
Proof.
  intros s.
  destruct (created_memo (parse env (Raw.items data) false AnyType) s
              (touches_parse env Henv _ _ _ _)) as (H1 & H2 & _).
  unfold items_section, bind.
  change (_createMemo s) with (Normal tt, (_createMemo s).2). cbv beta iota.
  destruct (parse env (Raw.items data) false AnyType (_createMemo s).2)
    as [[items|e] s2]; cbn [snd] in *; [|lia].
  destruct (present items); unfold _getMemo, ret, _clearMemo; rewrite ?H1; cbn; lia.
Qed.

Lemma creates_parse_memo_sections (data : Raw.IRawResponse) :
  creates 10 (parse_memo_sections env data).
Proof.
  unfold parse_memo_sections.
  apply (creates_bind 1 9);
    [apply creates_memo_section, (touches_parse env Henv) | intros [? ?]].
  apply (creates_bind 1 8);
    [ apply creates_memo_section, touches_section_body, (touches_parseRR env Henv)
    | intros [? ?] ].
  apply (creates_bind 1 7);
    [ apply creates_memo_section, touches_section_body, (touches_parseRR env Henv)
    | intros [? ?] ].
  apply (creates_bind 1 6);
    [ apply creates_memo_section, touches_section_body, (touches_parseRR env Henv)
    | intros [? ?] ].
  apply (creates_bind 1 5);
    [ apply creates_memo_section, touches_joined, touches_section_body,
        (touches_parseLC env Henv)
    | intros [? ?] ].
  apply (creates_bind 1 4);
    [ apply creates_memo_section, touches_section_body, (touches_parseActions env Henv)
    | intros [? ?] ].
  apply (creates_bind 1 3);
    [ apply creates_memo_section, touches_joined, touches_section_body,
        (touches_parseItem env Henv)
    | intros [? ?] ].
  apply (creates_bind 1 2);
    [ apply creates_memo_section, touches_section_body, (touches_parse env Henv)
    | intros [? ?] ].
  apply (creates_bind 1 1);
    [ apply creates_memo_section, touches_joined, touches_section_body,
        (touches_parseItem env Henv)
    | intros [? ?] ].
  apply (creates_bind 1 0); [apply creates_items_section | intros [? ?]].
  apply creates_ret.
Qed.

Lemma creates_parseResponse (k : nat) :
  forall data, nesting data <= k -> creates (10 * responses data) (parseResponse env data).
Proof.
  induction k as [|k IH]; intros data Hk.
  { destruct data; cbn in Hk; lia. }
  assert (Hnested : forall o : option Raw.IRawResponse,
             match o with Some inner => nesting inner | None => 0 end <= k ->
             creates (10 * match o with Some inner => responses inner | None => 0 end)
               (match o with
                | Some inner => let* child := parseResponse env inner in ret (Some child)
                | None => ret None
                end)).
  { intros [inner|] Hle.
    - rewrite <- (Nat.add_0_r (10 * responses inner)).
      apply creates_bind; [apply (IH inner Hle) | intros child; apply creates_ret].
    - apply creates_ret. }
  assert (H1 : match Raw.playerResponse data with
               | Some inner => nesting inner | None => 0 end <= k)
    by (destruct data; cbn in *; lia).
  assert (H2 : match Raw.watchNextResponse data with
               | Some inner => nesting inner | None => 0 end <= k)
    by (destruct data; cbn in *; lia).
  rewrite parseResponse_unfold.
  assert (Hsum : 10 * responses data
                 = 10 + (0 + (0 + (10 * match Raw.playerResponse data with
                                        | Some inner => responses inner | None => 0 end
                                   + (10 * match Raw.watchNextResponse data with
                                           | Some inner => responses inner | None => 0 end
                                      + (0 + 0)))))).
  { destruct data. cbn [responses Raw.playerResponse Raw.watchNextResponse]. lia. }
  rewrite Hsum.
  apply creates_bind; [apply creates_parse_memo_sections | intros own].
  apply creates_bind;
    [apply (creates_touches _ _ (touches_apply_mutation_passes env Henv data own)) | intros ?].
  apply creates_bind;
    [apply (creates_touches no_memo), (touches_parse_plain_sections env Henv) | intros plain].
  apply creates_bind; [apply (Hnested _ H1) | intros pr].
  apply creates_bind; [apply (Hnested _ H2) | intros wn].
  apply creates_bind;
    [apply (creates_touches no_memo), (touches_parse_entries env Henv) | intros entries].
  apply creates_ret.
Qed.

Lemma omap_length_le {A B} (f : A -> option B) (l : list A) :
  length (omap f l) <= length l.
Proof.
  induction l as [|a l IH]; [reflexivity|]. cbn. destruct (f a); cbn; lia.
Qed.

End Creation.

(** X24.  [parseResponse] creates ten memos for every response it parses,
    the nested ones included, whether their sections are present or not;
    the memo of a section that is absent is not part of the result and is
    left behind empty.  When it throws it has created at most that
    many. *)
Theorem parseResponse_creates_ten_memos_each
        (env : Env) (data : Raw.IRawResponse) (s : ParserState) :
  respects_memo env ->
  (forall r s',
      parseResponse env data s = (Normal r, s') ->
      length (heap s') = length (heap s) + 10 * responses data
      /\ length (Out.memos r) <= 10)
  /\ (forall e s',
         parseResponse env data s = (Throw e, s') ->
         length (heap s) <= length (heap s') <= length (heap s) + 10 * responses data).
Proof.
  intros Henv.
  pose proof (creates_parseResponse env Henv (nesting data) data (le_n _) s) as H.
  split.
  - intros r s' E. rewrite E in H. split; [exact H|].
    unfold Out.memos. etransitivity; [apply omap_length_le|]. cbn. lia.
  - intros e s' E. rewrite E in H. exact H.
Qed.

Lemma parseResponse_creates_ten_memos_each_witness :
  exists r s',
    parseResponse Demo.env Demo.outer_document Demo.initial = (Normal r, s')
    /\ length (heap s') = 20.
Proof.
  destruct (parseResponse Demo.env Demo.outer_document Demo.initial)
    as [[r|e] s'] eqn:E; [|vm_compute in E; discriminate E].
  exists r, s'. split; [reflexivity|].
  exact (proj1 (proj1 (parseResponse_creates_ten_memos_each Demo.env Demo.outer_document
                         Demo.initial respects_memo_Demo) r s' E)).
Defined.

(** ** What records a node *)

Section Recording.

Variable env : Env.
Hypothesis Hkeeps : keeps_memos env.

Lemma records_nothing_bind {A B} (m : M A) (f : A -> M B) :
  records_nothing m -> (forall a, records_nothing (f a)) -> records_nothing (bind m f).
Proof.
  intros Hm Hf s. unfold bind. destruct (Hm s) as [H1 H2].
  destruct (m s) as [[a|e] s1]; cbn [snd] in *; [|auto].
  destruct (Hf a s1) as [K1 K2]. split; congruence.
Qed.

Lemma records_nothing_pure {A} (m : M A) :
  (forall s, (m s).2 = s) -> records_nothing m.
Proof. intros H s. rewrite H. auto. Qed.

Lemma records_nothing_first_of (data : RawNode)
      (cases : list (string * YTNodeConstructor)) :
  records_nothing (first_of env data cases).
Proof.
  induction cases as [|[key C] cases IH]; cbn [first_of].
  - apply records_nothing_pure. reflexivity.
  - apply records_nothing_bind; [apply records_nothing_pure; reflexivity | intros v].
    destruct (JS.truthy v); [|exact IH].
    apply records_nothing_bind; [exact (Hkeeps C v) | intros node].
    apply records_nothing_pure. reflexivity.
Qed.

Lemma records_nothing_parseRR_map (actions : list RawNode) :
  records_nothing (parseRR_map env actions).
Proof.
  induction actions as [|action rest IH]; cbn [parseRR_map].
  - apply records_nothing_pure. reflexivity.
  - apply records_nothing_bind; [apply records_nothing_first_of | intros item].
    apply records_nothing_bind; [exact IH | intros items].
    apply records_nothing_pure. reflexivity.
Qed.

Lemma records_nothing_parseCommand_keys (data : RawNode) (keys : list string) :
  records_nothing (parseCommand_keys env data keys).
Proof.
  induction keys as [|key rest IH]; cbn [parseCommand_keys].
  - apply records_nothing_pure. reflexivity.
  - apply records_nothing_bind; [apply records_nothing_pure; reflexivity | intros value].
    destruct (command_regexp key || endpoint_regexp key || action_regexp key); [|exact IH].
    destruct (shouldIgnore (sanitizeClassName key));
      [apply records_nothing_pure; reflexivity|].
    apply records_nothing_bind; [|intros [node|]; [apply records_nothing_pure; reflexivity | exact IH]].
    intros s. unfold try_catch, bind, hasParser, getParserByName, ERROR_HANDLER, ret.
    destruct (bool_decide (is_Some (RUNTIME_NODES s !! sanitizeClassName key)));
      [|auto].
    destruct (RUNTIME_NODES s !! sanitizeClassName key) as [C|]; [|auto].
    destruct (Hkeeps C value s) as [H1 H2].
    destruct (new_ env C value s) as [[node|e] s1]; cbn [snd] in *; auto.
Qed.

Lemma records_nothing_parseCommands_loop (commands : list RawNode) :
  forall results, records_nothing (parseCommands_loop env commands results).
Proof.
  induction commands as [|item rest IH]; intros results; cbn [parseCommands_loop].
  - apply records_nothing_pure. reflexivity.
  - apply records_nothing_bind; [|intros result; apply IH].
    unfold parseCommand.
    apply records_nothing_bind; [|intros keys; apply records_nothing_parseCommand_keys].
    intros s. unfold try_catch, lift, ret. destruct (JS.Object_keys item); auto.
Qed.

End Recording.

(** X25.  Of the parsers, only [parseItem] records the node it constructs
    in the active memo.  With classes whose constructors leave the memos
    alone, [parseLC], [parseC], [parseRR], [parseCommand] and
    [parseCommands] leave every memo as it was, so that the nodes they
    return are in no memo, while [parseItem] appends the node it returns to
    the nodes that the active memo holds under the sanitized name of its
    class. *)
Theorem only_parseItem_records_its_node
        (env : Env) (data : RawNode) (s : ParserState) :
  keeps_memos env ->
  heap (parseLC env data s).2 = heap s
  /\ heap (parseC env data s).2 = heap s
  /\ heap (parseRR env data s).2 = heap s
  /\ heap (parseCommand env data s).2 = heap s
  /\ heap (parseCommands env data s).2 = heap s
  /\ (forall key0 rest validTypes C memo node s',
         JS.truthy data = true ->
         JS.Object_keys data = Normal (key0 :: rest) ->
         shouldIgnore (sanitizeClassName key0) = false ->
         RUNTIME_NODES s !! sanitizeClassName key0 = Some C ->
         MEMO s = Some memo ->
         memo < length (heap s) ->
         parseItem env data validTypes s = (Normal (Some node), s') ->
         nodes_at s' memo (sanitizeClassName key0)
         = nodes_at s memo (sanitizeClassName key0) ++ [node]).
Proof.
  intros Hkeeps. split; [|split; [|split; [|split; [|split]]]].
  - apply (records_nothing_first_of env Hkeeps).
  - unfold parseC.
    apply (records_nothing_bind (lift (JS.get data "timedContinuationData")));
      [apply records_nothing_pure; reflexivity | intros timed].
    destruct (JS.truthy timed); [|apply records_nothing_pure; reflexivity].
    apply records_nothing_bind; [exact (Hkeeps _ _) | intros node].
    apply records_nothing_pure. reflexivity.
  - unfold parseRR.
    apply (records_nothing_bind (lift (as_array data "map")));
      [apply records_nothing_pure; reflexivity | intros items].
    apply (records_nothing_parseRR_map env Hkeeps).
  - unfold parseCommand.
    apply records_nothing_bind;
      [|intros keys; apply (records_nothing_parseCommand_keys env Hkeeps)].
    intros s0. unfold try_catch, lift, ret. destruct (JS.Object_keys data); auto.
  - unfold parseCommands. destruct data;
      try (destruct (negb _); reflexivity).
    apply (records_nothing_parseCommands_loop env Hkeeps).
  - intros key0 rest validTypes C memo node s' Ht Hk Hi HC HM Hlt.
    rewrite (parseItem_wrapper env data key0 rest validTypes s Ht Hk Hi).
    unfold dispatch, bind, hasParser, getParserByName.
    rewrite bool_decide_eq_true_2 by eauto. rewrite HC.
    destruct (accepts validTypes C); [|intros [=]].
    destruct (Hkeeps C (JS.prop data key0) s) as [H1 H2].
    destruct (new_ env C (JS.prop data key0) s) as [[built|e] s2]; cbn [snd] in *;
      [|intros [=]].
    intros [= <- <-]. unfold _addToMemo. rewrite H2, HM. cbn [snd].
    unfold nodes_at, deref. cbn [heap set_heap]. rewrite H1, list_lookup_alter_eq.
    destruct (lookup_lt_is_Some_2 _ _ Hlt) as [m Hm]. rewrite Hm. cbn.
    rewrite lookup_Memo_add, decide_True by reflexivity. reflexivity.
Qed.

Lemma only_parseItem_records_its_node_witness :
  heap (parseRR Demo.env (JArr [JObj [("navigateAction", JObj [])]])
          (set_MEMO (Some 0) (Demo.holding ∅))).2
  = heap (set_MEMO (Some 0) (Demo.holding ∅))
  /\ nodes_at (parseItem Demo.env (Demo.video "a") AnyType
                 (set_MEMO (Some 0) (Demo.holding ∅))).2 0
       (sanitizeClassName "videoRenderer")
     = nodes_at (set_MEMO (Some 0) (Demo.holding ∅)) 0 (sanitizeClassName "videoRenderer")
         ++ [Demo.video_node "a"].
Proof.
  assert (Hkeeps : keeps_memos Demo.env).
  { intros C data s. cbn. unfold Demo.new_node.
    destruct (String.prefix _ _); auto. }
  split.
  - exact (proj1 (proj2 (proj2 (only_parseItem_records_its_node Demo.env
                                  (JArr [JObj [("navigateAction", JObj [])]])
                                  (set_MEMO (Some 0) (Demo.holding ∅)) Hkeeps)))).
  - exact (proj2 (proj2 (proj2 (proj2 (proj2
             (only_parseItem_records_its_node Demo.env (Demo.video "a")
                (set_MEMO (Some 0) (Demo.holding ∅)) Hkeeps)))))
             "videoRenderer" [] AnyType (node_class "Video") 0 (Demo.video_node "a")
             (parseItem Demo.env (Demo.video "a") AnyType
                (set_MEMO (Some 0) (Demo.holding ∅))).2
             eq_refl eq_refl eq_refl eq_refl eq_refl (le_n 1) eq_refl).
Defined.
